(** * SupplyProv FHE: confidential record lifecycle and decryption verification

    A shallow embedding of the dashboard logic of
    [frontend/web/src/App.tsx] (loading the item list, creating an item,
    requesting the on-chain verification of a decryption), together with
    the versioned record store of the design document, on which the
    ledger the dashboard talks to is built, and the properties proved
    about them.

    Layout:
    - [JS]            the JavaScript primitives the dashboard relies on
                      ([parseInt], [Number], [||], [String.includes]);
    - [Prog]          asynchronous code as a free monad over the calls it
                      awaits, with [try]/[catch]/[finally], a sequential
                      interpreter and an interleaving one;
    - [RecordStore]   the versioned store with compare-and-set;
    - [ConfidentialComputeProvider]  the consumed encryption capability;
    - [App]           the functions of App.tsx, the ledger they run
                      against, and what is read off a trace of calls;
    - [Race]          concurrent verification requests on one record;
    - [Lifecycle]     sequences of store operations;
    - [ByteProvider]  a provider of 8-bit values;
    - [Scenario]      three sessions and one record, for the instances;
    - [Shell]         the rest of App.tsx: the effects run after the
                      wallet connects, the contract test, the statistics
                      and the filter of the list, and the two modals.

    The properties come after the definitions: first the dashboard in
    any environment, then on its ledger, then the store and the
    concurrent requests. *)

From Stdlib Require Import ZArith Lia Ascii.
From stdpp Require Import gmap strings list pretty relations.

Open Scope Z_scope.

(* ===================================================================== *)
(** ** JavaScript primitives *)
(* ===================================================================== *)

Module JS.

(** A JavaScript number that holds an integer or [NaN].  The dashboard
    only ever builds numbers from integer literals, [parseInt] and
    [Number(bigint)], so fractions do not arise; [-0] is identified with
    [0] (every use below is insensitive to the sign of zero).  Infinity
    is not held: [parseInt] and [Number] are modelled for integers below
    [2^1024]; a run of at most 308 decimal digits is one. *)
Inductive number : Type :=
| NaN
| Num (z : Z).

#[global] Instance number_eq_dec : EqDecision number.
Proof. solve_decision. Defined.

(** Rounding of a non-negative integer to the nearest IEEE-754 double
    (53 bits of mantissa, ties to even); the identity up to [2^53]. *)
Definition round53 (n : Z) : Z :=
  let bits := Z.log2 n + 1 in
  if bits <=? 53 then n
  else
    let e := bits - 53 in
    let q := Z.shiftr n e in
    let r := Z.land n (Z.ones e) in
    let half := Z.shiftl 1 (e - 1) in
    let q' := if r <? half then q
              else if half <? r then q + 1
              else if Z.even q then q else q + 1 in
    Z.shiftl q' e.

Definition toDouble (z : Z) : Z := Z.sgn z * round53 (Z.abs z).

(** [Number(x)] for [x] a bigint returned by the contract binding. *)
Definition Number_of_bigint (z : Z) : number := Num (toDouble z).

(** [Number(x)] where [x] may be [undefined] (a missing map entry). *)
Definition Number_of_opt (o : option Z) : number :=
  match o with
  | None => NaN
  | Some z => Number_of_bigint z
  end.

(** [n || 0]: [NaN] and [0] are the falsy numbers. *)
Definition or0 (n : number) : Z :=
  match n with
  | NaN => 0
  | Num z => z
  end.

Definition is_digit (c : ascii) : bool :=
  let n := Z.of_N (N_of_ascii c) in (48 <=? n) && (n <=? 57).

(** A string is the sequence of its code units, and the strings of
    the model are those whose code units are below 256.  Of these the
    [WhiteSpace] and [LineTerminator] code units that [parseInt] skips
    are tab, line feed, vertical tab, form feed, carriage return, space
    and the no-break space (160). *)
Definition is_space (c : ascii) : bool :=
  let n := Z.of_N (N_of_ascii c) in
  (n =? 9) || (n =? 10) || (n =? 11) || (n =? 12) || (n =? 13) || (n =? 32)
  || (n =? 160).

Definition digit_value (radix : Z) (c : ascii) : option Z :=
  let n := Z.of_N (N_of_ascii c) in
  let d := if (48 <=? n) && (n <=? 57) then n - 48
           else if (97 <=? n) && (n <=? 122) then n - 87
           else if (65 <=? n) && (n <=? 90) then n - 55
           else radix in
  if d <? radix then Some d else None.

Fixpoint skip_space (s : string) : string :=
  match s with
  | String c s' => if is_space c then skip_space s' else s
  | EmptyString => s
  end.

(** The longest prefix of radix digits, as a mathematical integer;
    [None] when the prefix is empty. *)
Fixpoint parse_digits (radix : Z) (s : string) (acc : option Z) : option Z :=
  match s with
  | String c s' =>
      match digit_value radix c with
      | Some d => parse_digits radix s' (Some (default 0 acc * radix + d))
      | None => acc
      end
  | EmptyString => acc
  end.

(** [parseInt(s)] with the radix left out: leading white space is
    skipped, a sign is read, a [0x]/[0X] prefix selects radix 16, and the
    longest digit prefix is converted. *)
Definition parseInt (s : string) : number :=
  let s1 := skip_space s in
  let '(sign, s2) :=
    match s1 with
    | String "-" r => (-1, r)
    | String "+" r => (1, r)
    | _ => (1, s1)
    end in
  let '(radix, s3) :=
    match s2 with
    | String "0" (String "x" r) => (16, r)
    | String "0" (String "X" r) => (16, r)
    | _ => (10, s2)
    end in
  match parse_digits radix s3 None with
  | None => NaN
  | Some n => Num (sign * round53 n)
  end.

(** [s.includes(sub)] *)
Fixpoint includes (s sub : string) : bool :=
  String.prefix sub s ||
  match s with
  | String _ s' => includes s' sub
  | EmptyString => false
  end.

(** [s.replace(/[^\d]/g, '')] *)
Fixpoint strip_non_digits (s : string) : string :=
  match s with
  | String c s' =>
      if is_digit c then String c (strip_non_digits s') else strip_non_digits s'
  | EmptyString => EmptyString
  end.

Fixpoint all_digits (s : string) : bool :=
  match s with
  | String c s' => is_digit c && all_digits s'
  | EmptyString => true
  end.

(** A value that is thrown or that a promise is rejected with, as the
    [catch] blocks of the dashboard see it.  [mkError m] is a value
    whose [message] property is the string [m], or is [undefined] when
    [m] is [None]: an [Error], or any other object or primitive.
    [Nullish] is [undefined] or [null], on which reading [.message]
    throws a TypeError; a value whose [message] has no [includes]
    method (a number, a plain object) makes [e.message?.includes(..)]
    throw a TypeError as well and is identified with it.  A value whose
    [message] is an object with an [includes] method of its own is not
    held. *)
Inductive Error : Type :=
| mkError (message : option string)
| Nullish.

#[global] Instance Error_eq_dec : EqDecision Error.
Proof. solve_decision. Defined.

Definition message (e : Error) : option string :=
  match e with
  | mkError m => m
  | Nullish => None
  end.

(** Whether [e.message?.includes(..)] throws a TypeError on [e]. *)
Definition nullish (e : Error) : bool :=
  match e with
  | mkError _ => false
  | Nullish => true
  end.

Definition error (m : string) : Error := mkError (Some m).

(** The TypeError that the engine throws when [.message] is read on
    [undefined] or [null]; the text of its message is the engine's own
    and no code of the dashboard reads it. *)
Definition typeError : Error := error "TypeError".

(** [e.message?.includes(sub)] used as a condition. *)
Definition message_includes (e : Error) (sub : string) : bool :=
  match message e with
  | Some m => includes m sub
  | None => false
  end.

(** [e.message || alt]: the empty string is falsy too. *)
Definition message_or (e : Error) (alt : string) : string :=
  match message e with
  | Some m => if String.eqb m "" then alt else m
  | None => alt
  end.

End JS.

(* ===================================================================== *)
(** ** Asynchronous code as programs over awaited calls *)
(* ===================================================================== *)

(** An [async] function is a tree of the calls it makes to its environment
    (contract reads and writes, provider round trips, React state setters):
    [Vis e k] performs the call [e] and continues with [k] on its answer.
    Every such call is one atomic step; other callers may run between two
    steps of the same function. *)
Inductive Prog (E : Type → Type) (R : Type) : Type :=
| Ret (r : R)
| Throw (err : JS.Error)
| Vis (X : Type) (e : E X) (k : X → Prog E R).

Arguments Ret {E R} r.
Arguments Throw {E R} err.
Arguments Vis {E R X} e k.

(** How a call ended: the promise resolved or rejected. *)
Inductive Outcome (R : Type) : Type :=
| Returned (r : R)
| Thrown (err : JS.Error).

Arguments Returned {R} r.
Arguments Thrown {R} err.

Section Programs.
Context {E : Type → Type}.

Fixpoint bind {A B} (p : Prog E A) (f : A → Prog E B) : Prog E B :=
  match p with
  | Ret r => f r
  | Throw err => Throw err
  | Vis e k => Vis e (λ x, bind (k x) f)
  end.

(** [try { p } catch (e) { h e }] *)
Fixpoint try_catch {A} (p : Prog E A) (h : JS.Error → Prog E A) : Prog E A :=
  match p with
  | Ret r => Ret r
  | Throw err => h err
  | Vis e k => Vis e (λ x, try_catch (k x) h)
  end.

(** [try { p } finally { fin }]: [fin] runs on every exit of [p], and
    the completion of [p] is kept unless [fin] throws. *)
Fixpoint try_finally {A} (p : Prog E A) (fin : Prog E unit) : Prog E A :=
  match p with
  | Ret r => bind fin (λ _, Ret r)
  | Throw err => bind fin (λ _, Throw err)
  | Vis e k => Vis e (λ x, try_finally (k x) fin)
  end.

(** A call whose answer is used as it is. *)
Definition perform {X} (e : E X) : Prog E X := Vis e Ret.

(** [await] of a call that may reject. *)
Definition await {X} (e : E (JS.Error + X)) : Prog E X :=
  Vis e (λ r, match r with inl err => Throw err | inr x => Ret x end).

(** One performed call together with its answer. *)
Definition Ev : Type := { X : Type & (E X * X)%type }.

Definition ev {X} (e : E X) (x : X) : Ev := existT X (e, x).

(** A call without its answer, and the calls of a trace. *)
Definition call {X} (e : E X) : { X : Type & E X } := existT X e.

Definition calls (t : list Ev) : list { X : Type & E X } :=
  map (λ e, call (fst (projT2 e))) t.

Section Interpreters.
(** [S] is the state shared by all callers (the ledger), [L] the state
    private to one caller (its browser session). *)
Context {S L : Type}.
Variable handler : ∀ X, E X → S → L → X * S * L.

(** Sequential execution: the function runs to completion with no
    other caller in between. *)
Fixpoint run {R} (p : Prog E R) (s : S) (l : L)
  : Outcome R * S * L * list Ev :=
  match p with
  | Ret r => (Returned r, s, l, [])
  | Throw err => (Thrown err, s, l, [])
  | Vis e k =>
      let '(x, s', l') := handler _ e s l in
      let '(o, s'', l'', t) := run (k x) s' l' in
      (o, s'', l'', ev e x :: t)
  end.

(** Interleaved execution of several callers over one shared state. *)
Record Thread (R : Type) : Type := mkThread {
  code : Prog E R;
  session : L;
  history : list Ev
}.
Arguments mkThread {R} code session history.
Arguments code {R} t.
Arguments session {R} t.
Arguments history {R} t.

Record Config (R : Type) : Type := mkConfig {
  shared : S;
  threads : list (Thread R)
}.
Arguments mkConfig {R} shared threads.
Arguments shared {R} c.
Arguments threads {R} c.

Definition finished {R} (t : Thread R) : bool :=
  match code t with
  | Vis _ _ => false
  | _ => true
  end.

Definition result {R} (t : Thread R) : option (Outcome R) :=
  match code t with
  | Ret r => Some (Returned r)
  | Throw err => Some (Thrown err)
  | Vis _ _ => None
  end.

(** Caller [i] performs its next call. *)
Definition step_thread {R} (i : nat) (c : Config R) : option (Config R) :=
  match threads c !! i with
  | Some t =>
      match code t with
      | Vis e k =>
          let '(x, s', l') := handler _ e (shared c) (session t) in
          Some (mkConfig s'
                  (<[i := mkThread (k x) l' (history t ++ [ev e x])]> (threads c)))
      | _ => None
      end
  | None => None
  end.

Definition step {R} (c c' : Config R) : Prop :=
  ∃ i, step_thread i c = Some c'.

(** Execution along a schedule; a pick that cannot move is skipped. *)
Fixpoint run_schedule {R} (sch : list nat) (c : Config R) : Config R :=
  match sch with
  | [] => c
  | i :: sch' =>
      match step_thread i c with
      | Some c' => run_schedule sch' c'
      | None => run_schedule sch' c
      end
  end.

End Interpreters.
End Programs.

Arguments mkThread {E L R} code session history.
Arguments code {E L R} t.
Arguments session {E L R} t.
Arguments history {E L R} t.
Arguments mkConfig {E S L R} shared threads.
Arguments shared {E S L R} c.
Arguments threads {E S L R} c.

#[global] Instance Prog_ret {E} : MRet (Prog E) := λ _ x, Ret x.
#[global] Instance Prog_bind {E} : MBind (Prog E) := λ _ _ f p, bind p f.

(* ===================================================================== *)
(** ** The record store *)
(* ===================================================================== *)

Module RecordStore.

(** Modelled from the spec: the store is ledger code that is not part of
    the front end; its data model is that of section 3 and its
    operations those of section 4.1. *)

Definition RecordId : Type := string.
Definition Handle : Type := string.

(** Modelled from the spec: the lifecycle stages of section 3. *)
Inductive Status : Type :=
| Created
| VerificationPending
| Verified.

#[global] Instance Status_eq_dec : EqDecision Status.
Proof. solve_decision. Defined.

(** Position of a status on the line Created, VerificationPending,
    Verified. *)
Definition rank (s : Status) : Z :=
  match s with
  | Created => 0
  | VerificationPending => 1
  | Verified => 2
  end.

(** Modelled from the spec: the non-sensitive fields of a record, named
    as the contract's struct names them; [publicValue1] carries the
    lifecycle tag (1 manufactured, 2 in transit, 3 delivered). *)
Record PublicAttributes : Type := mkAttrs {
  name : string;
  description : string;
  publicValue1 : Z;
  publicValue2 : Z
}.

(** Modelled from the spec: the record of section 3. *)
Record Record_ : Type := mkRecord {
  id : RecordId;
  ownerId : string;
  publicAttributes : PublicAttributes;
  ciphertextHandle : Handle;
  status : Status;
  clearValue : option Z;
  version : Z;
  createdAt : Z
}.

(** What a caller supplies to [insert]: the store itself fixes the
    version, the status and the absent clear value. *)
Record NewRecord : Type := mkNewRecord {
  new_id : RecordId;
  new_ownerId : string;
  new_publicAttributes : PublicAttributes;
  new_ciphertextHandle : Handle;
  new_createdAt : Z
}.

(** The table, with the ids in insertion order for listing. *)
Record Store : Type := mkStore {
  records : gmap RecordId Record_;
  ids : list RecordId
}.

Definition empty : Store := mkStore ∅ [].

Inductive ConflictError : Type :=
| IdExists (existing : RecordId).

Inductive CasError : Type :=
| VersionConflict (current : Record_)
| IllegalTransition (current : Record_)
| UnknownRecord.

(** Modelled from the spec: a mutation computes the new status and
    clear value from the stored record. *)
Definition Mutation : Type := Record_ → Status * option Z.

(** Modelled from the spec: [RecordStore.insert] of section 4.1 (the
    store is ledger code that is not part of the front end).  Fails if
    the id already exists; otherwise stores the record at version 0 with
    status Created. *)
Definition insert (n : NewRecord) (st : Store)
  : (ConflictError + RecordId) * Store :=
  match records st !! new_id n with
  | Some _ => (inl (IdExists (new_id n)), st)
  | None =>
      let r := mkRecord (new_id n) (new_ownerId n) (new_publicAttributes n)
                 (new_ciphertextHandle n) Created None 0 (new_createdAt n) in
      (inr (new_id n),
       mkStore (<[new_id n := r]> (records st)) (ids st ++ [new_id n]))
  end.

(** Modelled from the spec: [RecordStore.get] of section 4.1, a
    read-only snapshot. *)
Definition get (i : RecordId) (st : Store) : option Record_ :=
  records st !! i.

(** Modelled from the spec: a status change is forward-only when it
    goes to the next stage of Created, VerificationPending, Verified. *)
Definition forward (old new : Status) : bool :=
  bool_decide (rank new = rank old + 1).

(** Modelled from the spec: [RecordStore.compareAndSet] of section 4.1.
    The mutation is applied only if the stored version equals
    [expectedVersion] and the resulting status transition is
    forward-only; on success the version is incremented and the new
    record returned; on a version mismatch [VersionConflict] carries the
    current record.  A rejected call leaves the store as it was. *)
Definition compareAndSet (i : RecordId) (expectedVersion : Z) (m : Mutation)
    (st : Store) : (CasError + Record_) * Store :=
  match records st !! i with
  | None => (inl UnknownRecord, st)
  | Some r =>
      if bool_decide (version r = expectedVersion) then
        let '(s', cv') := m r in
        if forward (status r) s' then
          let r' := mkRecord (id r) (ownerId r) (publicAttributes r)
                      (ciphertextHandle r) s' cv' (version r + 1) (createdAt r) in
          (inr r', mkStore (<[i := r']> (records st)) (ids st))
        else (inl (IllegalTransition r), st)
      else (inl (VersionConflict r), st)
  end.

(** Modelled from the spec: the two mutations the verification protocol
    submits (section 4.3, steps 2 and 5). *)
Definition toPending : Mutation := λ r, (VerificationPending, clearValue r).
Definition toVerified (v : Z) : Mutation := λ _, (Verified, Some v).

(** The record after the accepted compare-and-set to
    VerificationPending. *)
Definition pendingRecord (r : Record_) : Record_ :=
  mkRecord (id r) (ownerId r) (publicAttributes r) (ciphertextHandle r)
    VerificationPending (clearValue r) (version r + 1) (createdAt r).

(** The record an accepted verification leaves in the store: Verified,
    with the clear value, one version later for each accepted
    mutation. *)
Definition verifiedRecord (r : Record_) (v : Z) : Record_ :=
  mkRecord (id r) (ownerId r) (publicAttributes r) (ciphertextHandle r)
    Verified (Some v)
    (version r + match status r with Created => 2 | _ => 1 end)
    (createdAt r).

End RecordStore.

(* ===================================================================== *)
(** ** The confidential-compute capability *)
(* ===================================================================== *)

(** The context an encryption is bound to: the contract and the caller. *)
Record RecipientContext : Type := mkContext {
  ctx_contract : string;
  ctx_user : string
}.

Definition Proof_ : Type := string.

(** Modelled from the spec: the consumed interface of section 4.2.  The
    capability is external (the fhevm SDK and its relayer); the fields are
    its three operations, the laws say that it is an honest provider:
    values of the representable domain, and only those, encrypt; the
    clear value requested for a handle is the encrypted one, and comes
    with a proof that verifies. *)
Class ConfidentialComputeProvider : Type := {
  maxValue : Z;
  encrypt : Z → RecipientContext → option (RecordStore.Handle * Proof_);
  requestClearValue :
    list RecordStore.Handle → string → option (gmap RecordStore.Handle Z * Proof_);
  verifyProof : Proof_ → gmap RecordStore.Handle Z → string → bool;
  maxValue_safe : 0 ≤ maxValue < 2 ^ 53;
  encrypt_in_domain v ctx :
    0 ≤ v ≤ maxValue → is_Some (encrypt v ctx);
  encrypt_malformed v ctx :
    ¬ (0 ≤ v ≤ maxValue) → encrypt v ctx = None;
  clear_of_encrypt v ctx h p :
    encrypt v ctx = Some (h, p) →
    ∃ dp, requestClearValue [h] (ctx_contract ctx) = Some ({[h := v]}, dp);
  proof_complete hs c cv dp :
    requestClearValue hs c = Some (cv, dp) → verifyProof dp cv c = true
}.

Definition in_domain `{ConfidentialComputeProvider} (v : Z) : Prop :=
  0 ≤ v ≤ maxValue.

(* ===================================================================== *)
(** ** The dashboard: App.tsx *)
(* ===================================================================== *)

Module BusinessData.
(** The struct returned by [contract.getBusinessData]. *)
Record t : Type := mk {
  name : string;
  publicValue1 : Z;
  publicValue2 : Z;
  description : string;
  creator : string;
  timestamp : Z;
  isVerified : bool;
  decryptedValue : Z
}.
End BusinessData.

Module SupplyChainItem.
(** [interface SupplyChainItem] *)
Record t : Type := mk {
  id : string;
  name : string;
  encryptedValue : string;
  publicValue1 : Z;
  publicValue2 : Z;
  description : string;
  creator : string;
  timestamp : JS.number;
  isVerified : bool;
  decryptedValue : Z;
  location : string;
  status : string
}.
End SupplyChainItem.

Module TransactionStatus.
Inductive kind : Type := pending | success | error.

#[global] Instance kind_eq_dec : EqDecision kind.
Proof. solve_decision. Defined.

Record t : Type := mk {
  visible : bool;
  status : kind;
  message : string
}.

#[global] Instance t_eq_dec : EqDecision t.
Proof. solve_decision. Defined.

(** [{ visible: false, status: "pending", message: "" }] *)
Definition hidden : t := mk false pending "".
End TransactionStatus.

Module NewItemData.
Record t : Type := mk {
  name : string;
  value : string;
  description : string;
  location : string;
  status : string
}.

(** [{ name: "", value: "", description: "", location: "", status: "manufactured" }] *)
Definition initial : t := mk "" "" "" "" "manufactured".
End NewItemData.

Module App.
Import RecordStore.

(** A contract binding; [signer] is the account transactions are sent
    from, absent on the read-only binding. *)
Record Contract : Type := mkContract { signer : option string }.

(** A submitted transaction. *)
Record Tx : Type := mkTx { tx_sender : string }.

(** The answer of the SDK's [encrypt]. *)
Record EncryptedResult : Type := mkEncrypted {
  encryptedData : Handle;
  proof : Proof_
}.

(** The answer of the SDK's [verifyDecryption]:
    [result.decryptionResult.clearValues]. *)
Record DecryptionOutcome : Type := mkDecryption {
  clearValues : gmap Handle Z
}.

(** The React state of [App]; [timers] holds the pending [setTimeout]
    callbacks, each of which sets the transaction status, and [console]
    the errors logged. *)
Record UiState : Type := mkUi {
  supplyChainItems : list SupplyChainItem.t;
  showCreateModal : bool;
  creatingItem : bool;
  transactionStatus : TransactionStatus.t;
  newItemData : NewItemData.t;
  isDecrypting : bool;
  timers : list (Z * TransactionStatus.t);
  console : list (string * JS.Error)
}.

(** One browser session: the React state, whether a read-only binding
    can be obtained, and the account of the signer if there is one. *)
Record Session : Type := mkSession {
  ui : UiState;
  readOnlyAvailable : bool;
  signerAccount : option string
}.

(** What the closures of one render capture from the hooks and the
    state: [useAccount], [contractAddress], [newItemData]. *)
Record Render : Type := mkRender {
  isConnected : bool;
  address : option string;
  contractAddress : string;
  formData : NewItemData.t
}.

(** The ledger as seen by every session: the record table, the address
    the contract is deployed at, and the clock in milliseconds. *)
Record Ledger : Type := mkLedger {
  store : Store;
  deployedAt : string;
  clock : Z
}.

(** The calls the dashboard makes; the index is the type of the answer,
    a sum with [JS.Error] where the awaited promise may reject. *)
Inductive Call : Type → Type :=
(* React state setters *)
| SetSupplyChainItems (l : list SupplyChainItem.t) : Call unit
| SetShowCreateModal (b : bool) : Call unit
| SetCreatingItem (b : bool) : Call unit
| SetTransactionStatus (t : TransactionStatus.t) : Call unit
| SetNewItemData (d : NewItemData.t) : Call unit
| SetIsDecrypting (b : bool) : Call unit
(* setTimeout(() => setTransactionStatus(t), ms) *)
| SetTimeout (t : TransactionStatus.t) (ms : Z) : Call unit
| ConsoleError (label : string) (e : JS.Error) : Call unit
| DateNow : Call Z
(* ./components/useContract *)
| GetContractReadOnly : Call (option Contract)
| GetContractWithSigner : Call (option Contract)
(* contract methods *)
| GetAllBusinessIds (c : Contract) : Call (JS.Error + list string)
| GetBusinessData (c : Contract) (businessId : string)
    : Call (JS.Error + BusinessData.t)
| GetEncryptedValue (c : Contract) (businessId : string)
    : Call (JS.Error + Handle)
| CreateBusinessData (c : Contract) (businessId name : string)
    (encryptedData : Handle) (inputProof : Proof_)
    (publicValue1 publicValue2 : Z) (description : string)
    : Call (JS.Error + Tx)
| VerifyDecryption (c : Contract) (businessId : string)
    (abiEncodedClearValues : list Z) (decryptionProof : Proof_)
    : Call (JS.Error + Tx)
| TxWait (tx : Tx) : Call (JS.Error + unit)
(* fhevm SDK *)
| Encrypt (contractAddress userAddress : string) (value : Z)
    : Call (JS.Error + EncryptedResult)
| RequestClearValue (handles : list Handle) (contractAddress : string)
    : Call (JS.Error + (gmap Handle Z * Proof_)).

Abbreviation Async := (Prog Call).

(** [!s] for a string that may be [undefined]. *)
Definition not_string (s : option string) : bool :=
  match s with
  | Some s => String.eqb s ""
  | None => true
  end.

(** The address once [!address] has been ruled out. *)
Definition the_address (s : option string) : string :=
  match s with
  | Some a => a
  | None => ""
  end.

Definition error_toast (m : string) : TransactionStatus.t :=
  TransactionStatus.mk true TransactionStatus.error m.
Definition success_toast (m : string) : TransactionStatus.t :=
  TransactionStatus.mk true TransactionStatus.success m.
Definition pending_toast (m : string) : TransactionStatus.t :=
  TransactionStatus.mk true TransactionStatus.pending m.

(** The object literal pushed on [itemsList] (App.tsx, lines 118-131). *)
Definition toItem (businessId : string) (businessData : BusinessData.t)
  : SupplyChainItem.t :=
  {| SupplyChainItem.id := businessId;
     SupplyChainItem.name := BusinessData.name businessData;
     SupplyChainItem.encryptedValue := businessId;
     SupplyChainItem.publicValue1 :=
       JS.or0 (JS.Number_of_bigint (BusinessData.publicValue1 businessData));
     SupplyChainItem.publicValue2 :=
       JS.or0 (JS.Number_of_bigint (BusinessData.publicValue2 businessData));
     SupplyChainItem.description := BusinessData.description businessData;
     SupplyChainItem.creator := BusinessData.creator businessData;
     SupplyChainItem.timestamp :=
       JS.Number_of_bigint (BusinessData.timestamp businessData);
     SupplyChainItem.isVerified := BusinessData.isVerified businessData;
     SupplyChainItem.decryptedValue :=
       JS.or0 (JS.Number_of_bigint (BusinessData.decryptedValue businessData));
     SupplyChainItem.location := "Warehouse A";
     SupplyChainItem.status := "in_transit" |}.

(** The [for (const businessId of businessIds)] loop of
    [loadSupplyChainData]: an id whose data cannot be read is logged and
    skipped. *)
Fixpoint loadItems (contract : Contract) (businessIds : list string)
    (itemsList : list SupplyChainItem.t) : Async (list SupplyChainItem.t) :=
  match businessIds with
  | [] => Ret itemsList
  | businessId :: rest =>
      itemsList' ←
        try_catch
          (businessData ← await (GetBusinessData contract businessId);
           Ret (itemsList ++ [toItem businessId businessData]))
          (λ e, perform (ConsoleError "Error loading business data:" e);;
                Ret itemsList);
      loadItems contract rest itemsList'
  end.

Definition loadSupplyChainData (c : Render) : Async unit :=
  if negb (isConnected c) then Ret tt
  else
    try_catch
      (contract ← perform GetContractReadOnly;
       match contract with
       | None => Ret tt
       | Some contract =>
           businessIds ← await (GetAllBusinessIds contract);
           itemsList ← loadItems contract businessIds [];
           perform (SetSupplyChainItems itemsList)
       end)
      (λ e,
         perform (SetTransactionStatus (error_toast "Failed to load data"));;
         perform (SetTimeout TransactionStatus.hidden 3000)).

(** [newItemData.status === "manufactured" ? 1 :
     newItemData.status === "in_transit" ? 2 : 3] *)
Definition statusCode (status : string) : Z :=
  if String.eqb status "manufactured" then 1
  else if String.eqb status "in_transit" then 2
  else 3.

(** [parseInt(newItemData.value) || 0] *)
Definition itemValueOf (d : NewItemData.t) : Z :=
  JS.or0 (JS.parseInt (NewItemData.value d)).

(** [`item-${Date.now()}`] *)
Definition businessIdAt (now : Z) : string := "item-" +:+ pretty now.

Definition createSupplyChainItem (c : Render) : Async unit :=
  if negb (isConnected c) || not_string (address c) then
    perform (SetTransactionStatus (error_toast "Please connect wallet first"));;
    perform (SetTimeout TransactionStatus.hidden 3000)
  else
    perform (SetCreatingItem true);;
    perform (SetTransactionStatus
               (pending_toast "Creating supply chain item with FHE encryption..."));;
    try_finally
      (try_catch
         (contract ← perform GetContractWithSigner;
          match contract with
          | None => Throw (JS.error "Failed to get contract with signer")
          | Some contract =>
              let itemValue := itemValueOf (formData c) in
              now ← perform DateNow;
              let businessId := businessIdAt now in
              encryptedResult ←
                await (Encrypt (contractAddress c) (the_address (address c)) itemValue);
              tx ← await (CreateBusinessData contract businessId
                            (NewItemData.name (formData c))
                            (encryptedData encryptedResult)
                            (proof encryptedResult)
                            (statusCode (NewItemData.status (formData c)))
                            0
                            (NewItemData.description (formData c)));
              perform (SetTransactionStatus
                         (pending_toast "Waiting for transaction confirmation..."));;
              await (TxWait tx);;
              perform (SetTransactionStatus
                         (success_toast "Supply chain item created successfully!"));;
              perform (SetTimeout TransactionStatus.hidden 2000);;
              loadSupplyChainData c;;
              perform (SetShowCreateModal false);;
              perform (SetNewItemData NewItemData.initial)
          end)
         (λ e,
            if JS.nullish e then Throw JS.typeError
            else
              let errorMessage :=
                if JS.message_includes e "user rejected transaction"
                then "Transaction rejected by user"
                else "Submission failed: " +:+ JS.message_or e "Unknown error" in
              perform (SetTransactionStatus (error_toast errorMessage));;
              perform (SetTimeout TransactionStatus.hidden 3000)))
      (perform (SetCreatingItem false)).

(** Modelled from the spec: the SDK hook [useDecrypt().verifyDecryption]
    ([../fhevm-sdk/src] is not among the sources).  It is steps 3 to 5 of
    section 4.3 as the dashboard consumes them: the clear values of the
    handles are requested from the provider (the suspending round trip),
    then the callback submits them with the decryption proof, and the
    clear values are handed back.  A rejection of either step
    propagates. *)
Definition verifyDecryption (handles : list Handle) (contractAddress : string)
    (callback : list Z → Proof_ → Async Tx) : Async DecryptionOutcome :=
  '(values, decryptionProof) ← await (RequestClearValue handles contractAddress);
  callback (omap (λ h, values !! h) handles) decryptionProof;;
  Ret (mkDecryption values).

(** The [catch] block of [decryptItemData]; its first expression reads
    [e.message], which throws on [undefined] and [null]. *)
Definition decryptItemData_catch (c : Render) (e : JS.Error)
  : Async (option JS.number) :=
  if JS.nullish e then Throw JS.typeError
  else if JS.message_includes e "Data already verified" then
    perform (SetTransactionStatus (success_toast "Data is already verified on-chain"));;
    perform (SetTimeout TransactionStatus.hidden 2000);;
    loadSupplyChainData c;;
    Ret None
  else
    perform (SetTransactionStatus
               (error_toast ("Decryption failed: " +:+ JS.message_or e "Unknown error")));;
    perform (SetTimeout TransactionStatus.hidden 3000);;
    Ret None.

(** The [try] block of [decryptItemData] from the point where the
    provider has answered the clear-value request: the submission of
    the proof to the contract and everything after it. *)
Definition decryptItemData_submit (c : Render) (businessId : string)
    (contractWrite : Contract) (encryptedValueHandle : Handle)
    (answer : gmap Handle Z * Proof_) : Async (option JS.number) :=
  result ←
    (let '(values, decryptionProof) := answer in
     await (VerifyDecryption contractWrite businessId
              (omap (λ h, values !! h) [encryptedValueHandle]) decryptionProof);;
     Ret (mkDecryption values));
  perform (SetTransactionStatus (pending_toast "Verifying decryption on-chain..."));;
  let clearValue := clearValues result !! encryptedValueHandle in
  loadSupplyChainData c;;
  perform (SetTransactionStatus
             (success_toast "Data decrypted and verified successfully!"));;
  perform (SetTimeout TransactionStatus.hidden 2000);;
  Ret (Some (JS.Number_of_opt clearValue)).

(** The [try] block of [decryptItemData]. *)
Definition decryptItemData_try (c : Render) (businessId : string)
  : Async (option JS.number) :=
  contractRead ← perform GetContractReadOnly;
  match contractRead with
  | None => Ret None
  | Some contractRead =>
      businessData ← await (GetBusinessData contractRead businessId);
      if BusinessData.isVerified businessData then
        let storedValue :=
          JS.or0 (JS.Number_of_bigint (BusinessData.decryptedValue businessData)) in
        perform (SetTransactionStatus (success_toast "Data already verified on-chain"));;
        perform (SetTimeout TransactionStatus.hidden 2000);;
        Ret (Some (JS.Num storedValue))
      else
        contractWrite ← perform GetContractWithSigner;
        match contractWrite with
        | None => Ret None
        | Some contractWrite =>
            encryptedValueHandle ← await (GetEncryptedValue contractRead businessId);
            result ← verifyDecryption [encryptedValueHandle] (contractAddress c)
                       (λ abiEncodedClearValues decryptionProof,
                          await (VerifyDecryption contractWrite businessId
                                   abiEncodedClearValues decryptionProof));
            perform (SetTransactionStatus
                       (pending_toast "Verifying decryption on-chain..."));;
            let clearValue := clearValues result !! encryptedValueHandle in
            loadSupplyChainData c;;
            perform (SetTransactionStatus
                       (success_toast "Data decrypted and verified successfully!"));;
            perform (SetTimeout TransactionStatus.hidden 2000);;
            Ret (Some (JS.Number_of_opt clearValue))
        end
  end.

Definition decryptItemData (c : Render) (businessId : string)
  : Async (option JS.number) :=
  if negb (isConnected c) || not_string (address c) then
    perform (SetTransactionStatus (error_toast "Please connect wallet first"));;
    perform (SetTimeout TransactionStatus.hidden 3000);;
    Ret None
  else
    perform (SetIsDecrypting true);;
    try_finally
      (try_catch (decryptItemData_try c businessId) (decryptItemData_catch c))
      (perform (SetIsDecrypting false)).

(** What is left of [decryptItemData] once the provider has answered:
    [decryptItemData_submit] inside the same [catch] and [finally]. *)
Definition decryptItemData_resume (c : Render) (businessId : string)
    (contractWrite : Contract) (encryptedValueHandle : Handle)
    (answer : JS.Error + (gmap Handle Z * Proof_)) : Async (option JS.number) :=
  try_finally
    (try_catch
       (match answer with
        | inl err => Throw err
        | inr a => decryptItemData_submit c businessId contractWrite
                     encryptedValueHandle a
        end)
       (decryptItemData_catch c))
    (perform (SetIsDecrypting false)).

(** [CreateItemModal.handleChange]: the field [name] of the form is set
    to the typed [value], with every non-digit removed when the field is
    ['value']. *)
Definition handleChange (itemData : NewItemData.t) (name value : string)
  : NewItemData.t :=
  let v := if String.eqb name "value" then JS.strip_non_digits value else value in
  if String.eqb name "name" then
    NewItemData.mk v (NewItemData.value itemData) (NewItemData.description itemData)
      (NewItemData.location itemData) (NewItemData.status itemData)
  else if String.eqb name "value" then
    NewItemData.mk (NewItemData.name itemData) v (NewItemData.description itemData)
      (NewItemData.location itemData) (NewItemData.status itemData)
  else if String.eqb name "description" then
    NewItemData.mk (NewItemData.name itemData) (NewItemData.value itemData) v
      (NewItemData.location itemData) (NewItemData.status itemData)
  else if String.eqb name "location" then
    NewItemData.mk (NewItemData.name itemData) (NewItemData.value itemData)
      (NewItemData.description itemData) v (NewItemData.status itemData)
  else if String.eqb name "status" then
    NewItemData.mk (NewItemData.name itemData) (NewItemData.value itemData)
      (NewItemData.description itemData) (NewItemData.location itemData) v
  else itemData.

(** The value an item card shows in its footer:
    [item.isVerified && <div>Value: {item.decryptedValue}</div>]. *)
Definition cardValue (item : SupplyChainItem.t) : option Z :=
  if SupplyChainItem.isVerified item
  then Some (SupplyChainItem.decryptedValue item)
  else None.

(** *** The ledger contract and the environment of a session *)

(** Modelled from the spec: [getBusinessData] projects a stored record
    on the contract's struct, where a record is verified when its status
    is Verified and its decrypted value is the clear value (0 while there
    is none). *)
Definition view (r : Record_) : BusinessData.t :=
  {| BusinessData.name := name (publicAttributes r);
     BusinessData.publicValue1 := publicValue1 (publicAttributes r);
     BusinessData.publicValue2 := publicValue2 (publicAttributes r);
     BusinessData.description := description (publicAttributes r);
     BusinessData.creator := ownerId r;
     BusinessData.timestamp := createdAt r;
     BusinessData.isVerified := bool_decide (status r = Verified);
     BusinessData.decryptedValue := default 0 (clearValue r) |}.

Definition with_store (g : Ledger) (st : Store) : Ledger :=
  mkLedger st (deployedAt g) (clock g).

Definition notFound : JS.Error := JS.error "Record not found".

Section Environment.
Context `{ConfidentialComputeProvider}.

(** Modelled from the spec: the ledger contract is not among the
    sources; its entry points are the ones App.tsx calls, and each is
    the store operation of section 4.1 it stands for.  Reads are
    [RecordStore.get]. *)
Definition contract_getBusinessData (businessId : string) (g : Ledger)
  : JS.Error + BusinessData.t :=
  match get businessId (store g) with
  | Some r => inr (view r)
  | None => inl notFound
  end.

Definition contract_getEncryptedValue (businessId : string) (g : Ledger)
  : JS.Error + Handle :=
  match get businessId (store g) with
  | Some r => inr (ciphertextHandle r)
  | None => inl notFound
  end.

(** Modelled from the spec: [createBusinessData] is [RecordStore.insert]
    (section 4.4, [create]): the record is owned by the sender and
    stamped with the block time; an id that is taken is a conflict. *)
Definition contract_createBusinessData (c : Contract) (businessId name : string)
    (encryptedData : Handle) (publicValue1 publicValue2 : Z)
    (description : string) (g : Ledger) : (JS.Error + Tx) * Ledger :=
  match signer c with
  | None => (inl (JS.error "contract runner does not support sending transactions"), g)
  | Some sender =>
      let n := mkNewRecord businessId sender
                 (mkAttrs name description publicValue1 publicValue2)
                 encryptedData (clock g / 1000) in
      match insert n (store g) with
      | (inr _, st') => (inr (mkTx sender), with_store g st')
      | (inl _, _) => (inl (JS.error "ConflictError: record id already exists"), g)
      end
  end.

(** Modelled from the spec: the two accepted mutations that take a
    record that is not yet verified to Verified (section 3,
    lifecycle), within one transaction. *)
Definition commitVerified (businessId : string) (r : Record_) (v : Z) (st : Store)
  : (CasError + Record_) * Store :=
  match status r with
  | Created =>
      match compareAndSet businessId (version r) toPending st with
      | (inr r1, st1) => compareAndSet businessId (version r1) (toVerified v) st1
      | (inl err, _) => (inl err, st)
      end
  | _ => compareAndSet businessId (version r) (toVerified v) st
  end.

(** Modelled from the spec: [verifyDecryption] is the ledger side of
    section 4.3, steps 4 and 5.  A record that is already Verified
    rejects the submission with the message the dashboard looks for
    (App.tsx, line 240); otherwise the proof is checked against the
    record's own handle (section 4.2, [verifyProof]) and the clear
    value committed.  A rejected submission changes nothing.  The
    encoded clear values are taken as the list of the values in the
    order of the handles; no wire format is fixed by the spec. *)
Definition contract_verifyDecryption (c : Contract) (businessId : string)
    (abiEncodedClearValues : list Z) (decryptionProof : Proof_) (g : Ledger)
  : (JS.Error + Tx) * Ledger :=
  match signer c with
  | None => (inl (JS.error "contract runner does not support sending transactions"), g)
  | Some sender =>
      match get businessId (store g) with
      | None => (inl notFound, g)
      | Some r =>
          if bool_decide (status r = Verified) then
            (inl (JS.error "execution reverted: Data already verified"), g)
          else
            match abiEncodedClearValues with
            | [v] =>
                if verifyProof decryptionProof {[ciphertextHandle r := v]}
                     (deployedAt g)
                then
                  match commitVerified businessId r v (store g) with
                  | (inr _, st') => (inr (mkTx sender), with_store g st')
                  | (inl _, _) => (inl (JS.error "execution reverted: conflict"), g)
                  end
                else (inl (JS.error "execution reverted: ProofVerificationError"), g)
            | _ => (inl (JS.error "execution reverted: ProofVerificationError"), g)
            end
      end
  end.

Definition set_ui (l : Session) (u : UiState) : Session :=
  mkSession u (readOnlyAvailable l) (signerAccount l).

(** The answer to each call and its effect on the ledger and on the
    session. *)
Definition handle (X : Type) (e : Call X) (g : Ledger) (l : Session)
  : X * Ledger * Session :=
  let u := ui l in
  match e in Call X return X * Ledger * Session with
  | SetSupplyChainItems items =>
      (tt, g, set_ui l (mkUi items (showCreateModal u) (creatingItem u)
                          (transactionStatus u) (newItemData u) (isDecrypting u)
                          (timers u) (console u)))
  | SetShowCreateModal b =>
      (tt, g, set_ui l (mkUi (supplyChainItems u) b (creatingItem u)
                          (transactionStatus u) (newItemData u) (isDecrypting u)
                          (timers u) (console u)))
  | SetCreatingItem b =>
      (tt, g, set_ui l (mkUi (supplyChainItems u) (showCreateModal u) b
                          (transactionStatus u) (newItemData u) (isDecrypting u)
                          (timers u) (console u)))
  | SetTransactionStatus t =>
      (tt, g, set_ui l (mkUi (supplyChainItems u) (showCreateModal u) (creatingItem u)
                          t (newItemData u) (isDecrypting u)
                          (timers u) (console u)))
  | SetNewItemData d =>
      (tt, g, set_ui l (mkUi (supplyChainItems u) (showCreateModal u) (creatingItem u)
                          (transactionStatus u) d (isDecrypting u)
                          (timers u) (console u)))
  | SetIsDecrypting b =>
      (tt, g, set_ui l (mkUi (supplyChainItems u) (showCreateModal u) (creatingItem u)
                          (transactionStatus u) (newItemData u) b
                          (timers u) (console u)))
  | SetTimeout t ms =>
      (tt, g, set_ui l (mkUi (supplyChainItems u) (showCreateModal u) (creatingItem u)
                          (transactionStatus u) (newItemData u) (isDecrypting u)
                          (timers u ++ [(ms, t)]) (console u)))
  | ConsoleError label err =>
      (tt, g, set_ui l (mkUi (supplyChainItems u) (showCreateModal u) (creatingItem u)
                          (transactionStatus u) (newItemData u) (isDecrypting u)
                          (timers u) (console u ++ [(label, err)])))
  | DateNow => (clock g, g, l)
  | GetContractReadOnly =>
      (if readOnlyAvailable l then Some (mkContract None) else None, g, l)
  | GetContractWithSigner =>
      (match signerAccount l with
       | Some a => Some (mkContract (Some a))
       | None => None
       end, g, l)
  | GetAllBusinessIds _ => (inr (ids (store g)), g, l)
  | GetBusinessData _ businessId => (contract_getBusinessData businessId g, g, l)
  | GetEncryptedValue _ businessId => (contract_getEncryptedValue businessId g, g, l)
  | CreateBusinessData c businessId name enc _ pv1 pv2 desc =>
      let '(r, g') := contract_createBusinessData c businessId name enc pv1 pv2 desc g in
      (r, g', l)
  | VerifyDecryption c businessId values dp =>
      let '(r, g') := contract_verifyDecryption c businessId values dp g in
      (r, g', l)
  | TxWait _ => (inr tt, g, l)
  | Encrypt contractAddress userAddress value =>
      (match encrypt value (mkContext contractAddress userAddress) with
       | Some (h, p) => inr (mkEncrypted h p)
       | None => inl (JS.error "EncryptionError")
       end, g, l)
  | RequestClearValue handles contractAddress =>
      (match requestClearValue handles contractAddress with
       | Some a => inr a
       | None => inl (JS.error "DecryptionError")
       end, g, l)
  end.

(** A function of the dashboard run to completion in one session. *)
Definition exec {R} (p : Async R) (g : Ledger) (l : Session)
  : Outcome R * Ledger * Session * list (@Ev Call) :=
  run handle p g l.

(** [decryptItemData] called [n] times in a row in one session. *)
Fixpoint repeatDecrypt (c : Render) (businessId : string) (n : nat)
    (g : Ledger) (l : Session)
  : list (Outcome (option JS.number)) * Ledger * Session * list (@Ev Call) :=
  match n with
  | O => ([], g, l, [])
  | S n' =>
      let '(o, g1, l1, t1) := exec (decryptItemData c businessId) g l in
      let '(os, g2, l2, t2) := repeatDecrypt c businessId n' g1 l1 in
      (o :: os, g2, l2, t1 ++ t2)
  end.

End Environment.

(** *** Session states the functions end in *)

Definition with_console (l : Session) (extra : list (string * JS.Error)) : Session :=
  let u := ui l in
  set_ui l (mkUi (supplyChainItems u) (showCreateModal u) (creatingItem u)
              (transactionStatus u) (newItemData u) (isDecrypting u)
              (timers u) (console u ++ extra)).

Definition with_items (l : Session) (items : list SupplyChainItem.t) : Session :=
  let u := ui l in
  set_ui l (mkUi items (showCreateModal u) (creatingItem u)
              (transactionStatus u) (newItemData u) (isDecrypting u)
              (timers u) (console u)).

(** The session after [setTransactionStatus(t)] and a [setTimeout] that
    hides the status again after [ms] milliseconds. *)
Definition with_toast (l : Session) (t : TransactionStatus.t) (ms : Z) : Session :=
  let u := ui l in
  set_ui l (mkUi (supplyChainItems u) (showCreateModal u) (creatingItem u)
              t (newItemData u) (isDecrypting u)
              (timers u ++ [(ms, TransactionStatus.hidden)]) (console u)).

(** The session in which [decryptItemData] found the record verified. *)
Definition short_circuited (l : Session) : Session :=
  let u := ui l in
  set_ui l (mkUi (supplyChainItems u) (showCreateModal u) (creatingItem u)
              (success_toast "Data already verified on-chain") (newItemData u) false
              (timers u ++ [(2000, TransactionStatus.hidden)]) (console u)).

(** The session after [setIsDecrypting(false)]. *)
Definition stop_decrypting (l : Session) : Session :=
  let u := ui l in
  set_ui l (mkUi (supplyChainItems u) (showCreateModal u) (creatingItem u)
              (transactionStatus u) (newItemData u) false
              (timers u) (console u)).

(** The items the loop of [loadSupplyChainData] collects from a store,
    and the errors it logs. *)
Definition loadedItems (st : Store) (businessIds : list string)
  : list SupplyChainItem.t :=
  omap (λ i, (λ r, toItem i (view r)) <$> get i st) businessIds.

Definition loadErrors (st : Store) (businessIds : list string)
  : list (string * JS.Error) :=
  omap (λ i, match get i st with
             | None => Some ("Error loading business data:", notFound)
             | Some _ => None
             end) businessIds.

Definition loadedSession (c : Render) (g : Ledger) (l : Session) : Session :=
  if negb (isConnected c) then l
  else if readOnlyAvailable l then
    with_items (with_console l (loadErrors (store g) (ids (store g))))
      (loadedItems (store g) (ids (store g)))
  else l.

(** The list a [setSupplyChainItems] call sets. *)
Definition itemsSet (e : @Ev Call) : option (list SupplyChainItem.t) :=
  match projT2 e with
  | (SetSupplyChainItems items, _) => Some items
  | _ => None
  end.

(** The id asked and the struct answered by a [getBusinessData] call that
    resolved. *)
Definition dataRead (e : @Ev Call) : option (string * BusinessData.t) :=
  match e with
  | existT _ (c, x) =>
      match c in Call X return X → option (string * BusinessData.t) with
      | GetBusinessData _ businessId =>
          λ r, match r with
               | inr businessData => Some (businessId, businessData)
               | inl _ => None
               end
      | _ => λ _, None
      end x
  end.

(** The status a [setTransactionStatus] call shows. *)
Definition toastSet (e : @Ev Call) : option TransactionStatus.t :=
  match projT2 e with
  | (SetTransactionStatus t, _) => Some t
  | _ => None
  end.

(** The value an [encrypt] call is given. *)
Definition encryptArg (e : @Ev Call) : option Z :=
  match projT2 e with
  | (Encrypt _ _ value, _) => Some value
  | _ => None
  end.

(** The value given to an [encrypt] call that resolved, with the handle
    and proof it answered. *)
Definition encrypted (e : @Ev Call) : option (Z * EncryptedResult) :=
  match e with
  | existT _ (c, x) =>
      match c in Call X return X → option (Z * EncryptedResult) with
      | Encrypt _ _ value =>
          λ r, match r with
               | inr encryptedResult => Some (value, encryptedResult)
               | inl _ => None
               end
      | _ => λ _, None
      end x
  end.

(** The handle and proof a [contract.createBusinessData] call submits. *)
Definition created (e : @Ev Call) : option EncryptedResult :=
  match projT2 e with
  | (CreateBusinessData _ _ _ encryptedData inputProof _ _ _, _) =>
      Some (mkEncrypted encryptedData inputProof)
  | _ => None
  end.

(** What a trace of [createSupplyChainItem] holds for the form of the
    render: every [encrypt] call is given [parseInt(value) || 0] of the
    form, and what a [createBusinessData] call submits is the handle and
    proof that an [encrypt] call on that value answered. *)
Definition encryptsFormValue (c : Render) (t : list (@Ev Call)) : Prop :=
  Forall (λ e, ∀ v, encryptArg e = Some v → v = itemValueOf (formData c)) t
  ∧ ∀ e r, e ∈ t → created e = Some r →
      ∃ e', e' ∈ t ∧ encrypted e' = Some (itemValueOf (formData c), r).

(** The error a [contract.verifyDecryption] call is rejected with. *)
Definition rejection (e : @Ev Call) : option JS.Error :=
  match e with
  | existT _ (c, x) =>
      match c in Call X return X → option JS.Error with
      | VerifyDecryption _ _ _ _ =>
          λ r, match r with
               | inl err => Some err
               | inr _ => None
               end
      | _ => λ _, None
      end x
  end.

(** The value a call was rejected with. *)
Definition caught (e : @Ev Call) : option JS.Error :=
  match e with
  | existT _ (c, x) =>
      match c in Call X return X → option JS.Error with
      | GetAllBusinessIds _ | GetBusinessData _ _ | GetEncryptedValue _ _
      | CreateBusinessData _ _ _ _ _ _ _ _ | VerifyDecryption _ _ _ _
      | TxWait _ | Encrypt _ _ _ | RequestClearValue _ _ =>
          λ r, match r with
               | inl err => Some err
               | inr _ => None
               end
      | _ => λ _, None
      end x
  end.

(** How [createSupplyChainItem] and [decryptItemData] can reject: only
    with the TypeError of their own [catch] block, which reads
    [e.message], and only when a call was rejected with [undefined] or
    [null]. *)
Definition onlyTypeError {R} (o : Outcome R) (t : list (@Ev Call)) : Prop :=
  ∀ err, o = Thrown err →
    err = JS.typeError ∧ Exists (λ e, caught e = Some JS.Nullish) t.

(** The calls [loadSupplyChainData] can make: reads of the contract, the
    setter of the list, the console, and the "Failed to load data"
    status with its timer. *)
Definition loadCall (e : @Ev Call) : bool :=
  match projT2 e with
  | (GetContractReadOnly, _) | (GetAllBusinessIds _, _)
  | (GetBusinessData _ _, _) => true
  | (ConsoleError _ _, _) | (SetSupplyChainItems _, _) => true
  | (SetTransactionStatus t, _) =>
      bool_decide (t = error_toast "Failed to load data")
  | (SetTimeout t ms, _) =>
      bool_decide (t = TransactionStatus.hidden ∧ ms = 3000)
  | _ => false
  end.

(** An item as [loadSupplyChainData] builds it from an answer of the
    contract in the trace [t]: the two constant fields, and the lifecycle
    tag of the answer in [publicValue1]. *)
Definition loadedFrom (t : list (@Ev Call)) (item : SupplyChainItem.t) : Prop :=
  SupplyChainItem.location item = "Warehouse A"
  ∧ SupplyChainItem.status item = "in_transit"
  ∧ ∃ e businessData,
      e ∈ t
      ∧ dataRead e = Some (SupplyChainItem.id item, businessData)
      ∧ SupplyChainItem.publicValue1 item
        = JS.or0 (JS.Number_of_bigint (BusinessData.publicValue1 businessData)).

(** Calls that reach the provider. *)
Definition is_crypto (e : @Ev Call) : bool :=
  match projT2 e with
  | (Encrypt _ _ _, _) => true
  | (RequestClearValue _ _, _) => true
  | _ => false
  end.

(** Calls that submit a transaction to the contract. *)
Definition is_write (e : @Ev Call) : bool :=
  match projT2 e with
  | (CreateBusinessData _ _ _ _ _ _ _ _, _) | (VerifyDecryption _ _ _ _, _) => true
  | _ => false
  end.

End App.

(* ===================================================================== *)
(** ** Concurrent verification requests *)
(* ===================================================================== *)

(** Several stakeholders ask for the verification of one record at the
    same time: each runs [decryptItemData], the repository's
    [requestVerification], in a session of its own, and their calls are
    interleaved in any order over one ledger. *)

Module Race.
Import RecordStore App.

(** A [contract.verifyDecryption] call that the contract accepted, and
    one that it rejected. *)
Definition submissionAccepted (e : @Ev Call) : bool :=
  match e with
  | existT _ (c, x) =>
      match c in Call X return X → bool with
      | VerifyDecryption _ _ _ _ =>
          λ r, match r with
               | inr _ => true
               | inl _ => false
               end
      | _ => λ _, false
      end x
  end.

Definition submissionRejected (e : @Ev Call) : bool :=
  match e with
  | existT _ (c, x) =>
      match c in Call X return X → bool with
      | VerifyDecryption _ _ _ _ =>
          λ r, match r with
               | inr _ => false
               | inl _ => true
               end
      | _ => λ _, false
      end x
  end.

(** The number of submissions accepted so far, over all callers. *)
Definition commits {R}
    (c : Config (E := Call) (S := Ledger) (L := Session) R) : nat :=
  sum_list (map (λ t, length (List.filter submissionAccepted (history t)))
              (threads c)).

(** A caller whose submission was rejected. *)
Definition lost {R} (t : Thread (E := Call) (L := Session) R) : bool :=
  existsb submissionRejected (history t).

(** A session in which both contract bindings can be obtained. *)
Definition session_ok (l : Session) : Prop :=
  readOnlyAvailable l = true ∧ is_Some (signerAccount l).

(** A caller: what its render captured and its session.  The wallet is
    connected and the dashboard has loaded the address of the
    contract. *)
Definition caller_ok (g : Ledger) (caller : Render * Session) : Prop :=
  isConnected caller.1 = true ∧ not_string (address caller.1) = false
  ∧ contractAddress caller.1 = deployedAt g
  ∧ session_ok caller.2.

(** The callers issue [decryptItemData businessId] at once. *)
Definition race (businessId : string) (g : Ledger)
    (callers : list (Render * Session))
  : Config (E := Call) (S := Ledger) (L := Session) (option JS.number) :=
  mkConfig g
    (map (λ caller, mkThread (decryptItemData caller.1 businessId) caller.2 [])
       callers).

(** The ledger once the record [r] of [g] has been verified with [v]. *)
Definition committed (businessId : string) (g : Ledger) (r : Record_) (v : Z)
  : Ledger :=
  with_store g
    (mkStore (<[businessId := verifiedRecord r v]> (records (store g)))
       (ids (store g))).

(** The most calls one [decryptItemData] makes on the ledger [g]: the
    item list is reloaded with at most two calls for each id. *)
Definition callBound (g : Ledger) : nat :=
  14 + 2 * length (ids (store g)).

Section Invariant.
Context `{ConfidentialComputeProvider}.
Variables (businessId : string) (g0 : Ledger) (r0 : Record_) (v : Z).

(** A program that only reads the ledger, in at most [n] calls, with
    what holds of the way it ends.  The ledger is the initial or the
    committed one. *)
Fixpoint Tail {R} (n : nat) (P : Outcome R → Prop) (p : Async R) {struct p}
  : Prop :=
  match p with
  | Ret r => P (Returned r)
  | Throw err => P (Thrown err)
  | @Vis _ _ X e k =>
      match n with
      | O => False
      | S n' =>
          (∀ x, is_write (ev e x) = false)
          ∧ ∀ g l, g = g0 ∨ g = committed businessId g0 r0 v →
                   Tail n' P (k (handle X e g l).1.1)
      end
  end.

(** What is left for a caller to run, whatever the other callers do in
    between: the ledger is the initial one or the committed one, [known]
    says that this caller has seen the record verified, [rejected] that
    its submission was rejected.  Each call leaves the ledger as it is
    or commits, a commit is an accepted submission, and the caller ends
    within [n] calls, only after it has seen the record verified, with
    [null] if its submission was rejected and with [v] otherwise. *)
Fixpoint Ok (n : nat) (known rejected : bool) (p : Async (option JS.number))
    {struct p} : Prop :=
  match p with
  | Ret r =>
      known = true ∧ r = if rejected then None else Some (JS.Num v)
  | Throw _ => False
  | @Vis _ _ X e k =>
      match n with
      | O => False
      | S n' =>
          ∀ g l,
            g = g0 ∨ g = committed businessId g0 r0 v →
            (known = true → g = committed businessId g0 r0 v) →
            session_ok l →
            ∃ known',
              (((handle X e g l).1.2 = g
                ∧ submissionAccepted (ev e (handle X e g l).1.1) = false)
               ∨ (g = g0
                  ∧ (handle X e g l).1.2 = committed businessId g0 r0 v
                  ∧ submissionAccepted (ev e (handle X e g l).1.1) = true))
              ∧ (known' = true →
                 (handle X e g l).1.2 = committed businessId g0 r0 v)
              ∧ Ok n' known'
                  (rejected || submissionRejected (ev e (handle X e g l).1.1))
                  (k (handle X e g l).1.1)
      end
  end.

(** The invariant of a race after [k] steps: the ledger is the initial
    one, with no submission accepted, or the committed one, with one;
    every caller is at a point from which it ends well; and the calls
    made and the calls left are within the bound. *)
Definition race_inv (k : nat)
    (c : Config (E := Call) (S := Ledger) (L := Session) (option JS.number))
  : Prop :=
  ∃ (verified : bool) (ws : list nat),
    shared c = (if verified then committed businessId g0 r0 v else g0)
    ∧ commits c = (if verified then 1 else 0)%nat
    ∧ Forall2 (λ t w, ∃ known,
                 Ok w known (lost t) (code t)
                 ∧ (known = true → verified = true)
                 ∧ session_ok (session t))
        (threads c) ws
    ∧ (k + sum_list ws ≤ callBound g0 * length (threads c))%nat.

End Invariant.
End Race.

(* ===================================================================== *)
(** ** Sequences of store operations *)
(* ===================================================================== *)

Module Lifecycle.
Import RecordStore.

(** Modelled from the spec: any attempt a caller can submit to the
    store of section 4.1. *)
Inductive Attempt : Type :=
| TryInsert (n : NewRecord)
| TryCas (i : RecordId) (expectedVersion : Z) (m : Mutation).

Definition attempt (st : Store) (a : Attempt) : Store :=
  match a with
  | TryInsert n => (insert n st).2
  | TryCas i ver m => (compareAndSet i ver m st).2
  end.

Definition attempts (l : list Attempt) (st : Store) : Store :=
  foldl attempt st l.

(** Modelled from the spec: the writes of the lifecycle API, which are
    the insert of [create] and the two compare-and-sets of
    [requestVerification], with any id, any expected version and any
    clear value. *)
Inductive Write : Type :=
| Insert (n : NewRecord)
| MarkPending (i : RecordId) (expectedVersion : Z)
| MarkVerified (i : RecordId) (expectedVersion : Z) (v : Z).

Definition submit (w : Write) : Attempt :=
  match w with
  | Insert n => TryInsert n
  | MarkPending i ver => TryCas i ver toPending
  | MarkVerified i ver v => TryCas i ver (toVerified v)
  end.

Definition writes (l : list Write) (st : Store) : Store :=
  attempts (map submit l) st.

(** Modelled from the spec: invariant 2 of the data model, for one
    record and for a store. *)
Definition clear_only_if_verified (r : Record_) : Prop :=
  status r ≠ Verified → clearValue r = None.

Definition well_formed (st : Store) : Prop :=
  ∀ i r, records st !! i = Some r → clear_only_if_verified r.

End Lifecycle.

(* ===================================================================== *)
(** ** A reference provider *)
(* ===================================================================== *)

(** An instance of the capability over 8-bit values, used to run the
    dashboard on concrete inputs: the handle of a value is the one
    character with that code. *)
Module ByteProvider.
Import RecordStore.

Definition byteHandle (v : Z) : Handle := String (ascii_of_N (Z.to_N v)) "".

Definition decodeHandle (h : Handle) : option Z :=
  match h with
  | String c EmptyString => Some (Z.of_N (N_of_ascii c))
  | _ => None
  end.

Definition byte_encrypt (v : Z) (ctx : RecipientContext)
  : option (Handle * Proof_) :=
  if bool_decide (0 ≤ v ≤ 255) then Some (byteHandle v, "input-proof") else None.

Definition byte_requestClearValue (hs : list Handle) (c : string)
  : option (gmap Handle Z * Proof_) :=
  match mapM decodeHandle hs with
  | Some vs => Some (list_to_map (zip hs vs), "decryption-proof")
  | None => None
  end.

Definition byte_verifyProof (dp : Proof_) (cv : gmap Handle Z) (c : string) : bool :=
  bool_decide (dp = "decryption-proof")
  && bool_decide (map_Forall (λ h v, decodeHandle h = Some v) cv).

End ByteProvider.

(* ===================================================================== *)
(** ** A concrete scenario *)
(* ===================================================================== *)

(** Three stakeholders and one item, used to run the functions above on
    explicit inputs. *)
Module Scenario.
Import RecordStore App.

Definition ui0 : UiState :=
  mkUi [] false false TransactionStatus.hidden NewItemData.initial false [] [].

Definition alice : Session := mkSession ui0 true (Some "0xA11CE").
Definition bob : Session := mkSession ui0 true (Some "0xB0B").
Definition carol : Session := mkSession ui0 true (Some "0xCA201").

Definition ledger0 : Ledger := mkLedger RecordStore.empty "0xC0FFEE" 1700000000000.

Definition form42 : NewItemData.t :=
  NewItemData.mk "Widget" "42" "a widget" "" "in_transit".

(** The form after "Widget" and "-5" have been typed in it. *)
Definition formMinus5 : NewItemData.t :=
  handleChange (handleChange NewItemData.initial "name" "Widget") "value" "-5".

Definition renderA : Render := mkRender true (Some "0xA11CE") "0xC0FFEE" form42.
Definition renderB : Render :=
  mkRender true (Some "0xB0B") "0xC0FFEE" NewItemData.initial.
Definition renderC : Render :=
  mkRender true (Some "0xCA201") "0xC0FFEE" NewItemData.initial.
Definition renderMinus5 : Render :=
  mkRender true (Some "0xA11CE") "0xC0FFEE" formMinus5.
Definition renderOff : Render := mkRender false None "" NewItemData.initial.

Definition widgetId : string := "item-1700000000000".

Definition widget : Record_ :=
  mkRecord widgetId "0xA11CE" (mkAttrs "Widget" "a widget" 2 0)
    (ByteProvider.byteHandle 42) Created None 0 1700000000.

Definition storeCreated : Store := mkStore {[widgetId := widget]} [widgetId].
Definition storeVerified : Store :=
  mkStore {[widgetId := verifiedRecord widget 42]} [widgetId].

Definition ledgerCreated : Ledger := mkLedger storeCreated "0xC0FFEE" 1700000005000.
Definition ledgerVerified : Ledger := mkLedger storeVerified "0xC0FFEE" 1700000009000.
(** Alice and Bob both ask for the verification of the widget: Alice's
    call runs until the provider has answered her clear-value request,
    then Bob's call runs to its end, then Alice's call goes on. *)
Definition aliceThenBob `{ConfidentialComputeProvider}
  : Config (E := Call) (S := Ledger) (L := Session) (option JS.number) :=
  run_schedule handle
    (replicate 6 0%nat ++ replicate 40 1%nat ++ replicate 40 0%nat)
    (mkConfig ledgerCreated
       [mkThread (decryptItemData renderA widgetId) alice [];
        mkThread (decryptItemData renderB widgetId) bob []]).

(** Alice, Bob and Carol ask for the verification of the widget at the
    same time. *)
Definition threeCallers : list (Render * Session) :=
  [(renderA, alice); (renderB, bob); (renderC, carol)].

(** Their calls taking turns, one call each, until all have ended. *)
Definition inTurns `{ConfidentialComputeProvider}
  : Config (E := Call) (S := Ledger) (L := Session) (option JS.number) :=
  run_schedule handle (concat (replicate 16 [0; 1; 2]%nat))
    (Race.race widgetId ledgerCreated threeCallers).

(** Attempts on the widget: to VerificationPending, then a stale one,
    then one that asks to go back to Created. *)
Definition widgetAttempts : list Lifecycle.Attempt :=
  [Lifecycle.TryCas widgetId 0 toPending;
   Lifecycle.TryCas widgetId 0 (toVerified 7);
   Lifecycle.TryCas widgetId 1 (λ _, (Created, None))].

(** The widget from its insertion: a compare-and-set whose mutation
    sets a clear value while it moves the record to VerificationPending,
    then the one that verifies it with another value. *)
Definition widgetEarlyValue : list Lifecycle.Attempt :=
  [Lifecycle.TryInsert
     (mkNewRecord widgetId "0xA11CE" (mkAttrs "Widget" "a widget" 2 0)
        (ByteProvider.byteHandle 42) 1700000000);
   Lifecycle.TryCas widgetId 0 (λ _, (VerificationPending, Some 7));
   Lifecycle.TryCas widgetId 1 (toVerified 9)].

Definition widgetWrites1 : list Lifecycle.Write :=
  [Lifecycle.Insert (mkNewRecord widgetId "0xA11CE" (mkAttrs "Widget" "a widget" 2 0)
                       (ByteProvider.byteHandle 42) 1700000000);
   Lifecycle.MarkPending widgetId 0;
   Lifecycle.MarkVerified widgetId 1 42].
End Scenario.

(* ===================================================================== *)
(** ** The rest of the component *)
(* ===================================================================== *)

(** What [App.tsx] holds besides the three functions of [App]: the two
    effects that run after the wallet connects, the contract test, the
    statistics and the filter of the item list, and the two modals. *)

Module Shell.
Import App.

(** *** What is computed from the item list *)

(** [interface SupplyChainStats] *)
Record SupplyChainStats : Type := mkStats {
  totalItems : nat;
  verifiedItems : nat;
  inTransit : nat;
  delivered : nat
}.

(** [getSupplyChainStats] (App.tsx, lines 269-276). *)
Definition getSupplyChainStats (supplyChainItems : list SupplyChainItem.t)
  : SupplyChainStats :=
  let totalItems := length supplyChainItems in
  let verifiedItems :=
    length (List.filter (λ item, SupplyChainItem.isVerified item)
              supplyChainItems) in
  let inTransit :=
    length (List.filter (λ item, SupplyChainItem.publicValue1 item =? 2)
              supplyChainItems) in
  let delivered :=
    length (List.filter (λ item, SupplyChainItem.publicValue1 item =? 3)
              supplyChainItems) in
  mkStats totalItems verifiedItems inTransit delivered.

Section Filter.
(** [String.prototype.toLowerCase], a built-in taken as it is. *)
Variable toLowerCase : string → string.

Definition matchesSearch (searchTerm : string) (item : SupplyChainItem.t)
  : bool :=
  JS.includes (toLowerCase (SupplyChainItem.name item)) (toLowerCase searchTerm)
  || JS.includes (toLowerCase (SupplyChainItem.description item))
       (toLowerCase searchTerm).

Definition matchesFilter (filterStatus : string) (item : SupplyChainItem.t)
  : bool :=
  String.eqb filterStatus "all"
  || (String.eqb filterStatus "verified" && SupplyChainItem.isVerified item)
  || (String.eqb filterStatus "unverified"
      && negb (SupplyChainItem.isVerified item)).

(** [filteredItems] (App.tsx, lines 278-285). *)
Definition filteredItems (supplyChainItems : list SupplyChainItem.t)
    (searchTerm filterStatus : string) : list SupplyChainItem.t :=
  List.filter
    (λ item, matchesSearch searchTerm item && matchesFilter filterStatus item)
    supplyChainItems.
End Filter.

(** [statusLabels] (App.tsx, lines 287-291). *)
Definition statusLabels : gmap Z string :=
  {[1 := "Manufactured"; 2 := "In Transit"; 3 := "Delivered"]}.

(** [statusLabels[item.publicValue1] || "Unknown"] *)
Definition statusLabel (publicValue1 : Z) : string :=
  match statusLabels !! publicValue1 with
  | Some label => if String.eqb label "" then "Unknown" else label
  | None => "Unknown"
  end.

(** *** The modals *)

(** The [disabled] attribute of the submit button of [CreateItemModal]:
    [creating || isEncrypting || !itemData.name || !itemData.value]. *)
Definition submitDisabled (creating isEncrypting : bool)
    (itemData : NewItemData.t) : bool :=
  creating || isEncrypting
  || String.eqb (NewItemData.name itemData) ""
  || String.eqb (NewItemData.value itemData) "".

(** The integer a string of decimal digits denotes. *)
Fixpoint decimal_from (acc : Z) (s : string) : Z :=
  match s with
  | String c s' => decimal_from (acc * 10 + (Z.of_N (N_of_ascii c) - 48)) s'
  | EmptyString => acc
  end.

Definition decimal (s : string) : Z := decimal_from 0 s.

(** [ItemDetailModal.handleDecrypt]: the answer of [decryptData] is
    dropped. *)
Definition handleDecrypt (decryptData : Async (option JS.number))
  : Async unit :=
  decryptData;; Ret tt.

(** The [decryptData] that [App] hands to the modal:
    [() => decryptItemData(selectedItem.id)]. *)
Definition decryptData (c : Render) (selectedItem : SupplyChainItem.t)
  : Async (option JS.number) :=
  decryptItemData c (SupplyChainItem.id selectedItem).

(** The message of the status shown when [createSupplyChainItem] fails
    with [e] (App.tsx, lines 186-188). *)
Definition errorMessage (e : JS.Error) : string :=
  if JS.message_includes e "user rejected transaction"
  then "Transaction rejected by user"
  else "Submission failed: " +:+ JS.message_or e "Unknown error".

(** *** What is read off a trace of calls *)

Definition decryptingSet (e : @Ev App.Call) : option bool :=
  match projT2 e with
  | (SetIsDecrypting b, _) => Some b
  | _ => None
  end.

Definition creatingSet (e : @Ev App.Call) : option bool :=
  match projT2 e with
  | (SetCreatingItem b, _) => Some b
  | _ => None
  end.

Definition modalSet (e : @Ev App.Call) : option bool :=
  match projT2 e with
  | (SetShowCreateModal b, _) => Some b
  | _ => None
  end.

Definition formSet (e : @Ev App.Call) : option NewItemData.t :=
  match projT2 e with
  | (SetNewItemData d, _) => Some d
  | _ => None
  end.

(** The item pushed for a [getBusinessData] call that resolved. *)
Definition loaded (e : @Ev App.Call) : option SupplyChainItem.t :=
  match dataRead e with
  | Some (businessId, businessData) => Some (toItem businessId businessData)
  | None => None
  end.

(** The id a [getBusinessData] call asks for. *)
Definition dataAsked (e : @Ev App.Call) : option string :=
  match projT2 e with
  | (GetBusinessData _ businessId, _) => Some businessId
  | _ => None
  end.

(** The ids a [getAllBusinessIds] call answered, and whether such a call
    was rejected. *)
Definition idsListed (e : @Ev App.Call) : option (list string) :=
  match e with
  | existT _ (c, x) =>
      match c in App.Call X return X → option (list string) with
      | GetAllBusinessIds _ =>
          λ r, match r with
               | inr businessIds => Some businessIds
               | inl _ => None
               end
      | _ => λ _, None
      end x
  end.

Definition idsRejected (e : @Ev App.Call) : bool :=
  match e with
  | existT _ (c, x) =>
      match c in App.Call X return X → bool with
      | GetAllBusinessIds _ =>
          λ r, match r with
               | inr _ => false
               | inl _ => true
               end
      | _ => λ _, false
      end x
  end.

(** A [contract.verifyDecryption] call that resolved. *)
Definition accepted (e : @Ev App.Call) : bool :=
  match e with
  | existT _ (c, x) =>
      match c in App.Call X return X → bool with
      | VerifyDecryption _ _ _ _ =>
          λ r, match r with
               | inr _ => true
               | inl _ => false
               end
      | _ => λ _, false
      end x
  end.

(** The handle a [contract.getEncryptedValue] call answered. *)
Definition handleRead (e : @Ev App.Call) : option RecordStore.Handle :=
  match e with
  | existT _ (c, x) =>
      match c in App.Call X return X → option RecordStore.Handle with
      | GetEncryptedValue _ _ =>
          λ r, match r with
               | inr encryptedValueHandle => Some encryptedValueHandle
               | inl _ => None
               end
      | _ => λ _, None
      end x
  end.

(** The clear values the provider answered to a request. *)
Definition cleared (e : @Ev App.Call) : option (gmap RecordStore.Handle Z) :=
  match e with
  | existT _ (c, x) =>
      match c in App.Call X return X → option (gmap RecordStore.Handle Z) with
      | RequestClearValue _ _ =>
          λ r, match r with
               | inr (values, _) => Some values
               | inl _ => None
               end
      | _ => λ _, None
      end x
  end.

(** The clock a [Date.now()] call read, and the id, the name, the two
    public values and the description a [contract.createBusinessData]
    call submits. *)
Definition clockRead (e : @Ev App.Call) : option Z :=
  match e with
  | existT _ (c, x) =>
      match c in App.Call X return X → option Z with
      | DateNow => λ now, Some now
      | _ => λ _, None
      end x
  end.

Definition createdFields (e : @Ev App.Call)
  : option (string * string * Z * Z * string) :=
  match projT2 e with
  | (CreateBusinessData _ businessId name _ _ publicValue1 publicValue2
       description, _) =>
      Some (businessId, name, publicValue1, publicValue2, description)
  | _ => None
  end.

(** What holds of the calls of the loop of [loadSupplyChainData]: each
    reads one record or logs one error. *)
Definition loopCall (e : @Ev App.Call) : Prop :=
  itemsSet e = None ∧ idsListed e = None ∧ idsRejected e = false
  ∧ toastSet e = None ∧ is_write e = false ∧ is_crypto e = false.

(** A [tx.wait] call that resolved. *)
Definition confirmed (e : @Ev App.Call) : bool :=
  match e with
  | existT _ (c, x) =>
      match c in App.Call X return X → bool with
      | TxWait _ =>
          λ r, match r with
               | inr _ => true
               | inl _ => false
               end
      | _ => λ _, false
      end x
  end.

(** The error [createSupplyChainItem] catches at a call: the one thrown
    when there is no contract with a signer, or the rejection of
    [encrypt], [createBusinessData] or [tx.wait]. *)
Definition createFailure (e : @Ev App.Call) : option JS.Error :=
  match e with
  | existT _ (c, x) =>
      match c in App.Call X return X → option JS.Error with
      | GetContractWithSigner =>
          λ r, match r with
               | None => Some (JS.error "Failed to get contract with signer")
               | Some _ => None
               end
      | Encrypt _ _ _ =>
          λ r, match r with inl err => Some err | inr _ => None end
      | CreateBusinessData _ _ _ _ _ _ _ _ =>
          λ r, match r with inl err => Some err | inr _ => None end
      | TxWait _ =>
          λ r, match r with inl err => Some err | inr _ => None end
      | _ => λ _, None
      end x
  end.

(** *** The effects and the contract test *)

(** The calls of the whole component: those of [App.Call], and the
    setters, the SDK initialisation and the contract methods that only
    the functions below use. *)
Inductive Call : Type → Type :=
| Dash {X : Type} (c : App.Call X) : Call X
| SetLoading (b : bool) : Call unit
| SetFhevmInitializing (b : bool) : Call unit
| SetContractAddress (a : string) : Call unit
(* useFhevm().initialize *)
| Initialize : Call (JS.Error + unit)
(* contract methods *)
| GetAddress (c : Contract) : Call (JS.Error + string)
| IsAvailable (c : Contract) : Call (JS.Error + bool).

Abbreviation Async' := (Prog Call).

(** A function of [App] called from here makes its calls as calls of
    the component. *)
Fixpoint lift {R} (p : Prog App.Call R) : Prog Call R :=
  match p with
  | Ret r => Ret r
  | Throw err => Throw err
  | Vis e k => Vis (Dash e) (λ x, lift (k x))
  end.

Definition lift_ev (e : @Ev App.Call) : @Ev Call :=
  existT (projT1 e) (Dash (fst (projT2 e)), snd (projT2 e)).

(** [initFhevmAfterConnection] (App.tsx, lines 62-79), for the values
    of [isConnected], [isInitialized] and [fhevmInitializing] of the
    render. *)
Definition initFhevmAfterConnection
    (isConnected isInitialized fhevmInitializing : bool) : Async' unit :=
  if negb isConnected || isInitialized || fhevmInitializing then Ret tt
  else
    try_finally
      (try_catch
         (perform (SetFhevmInitializing true);;
          await Initialize)
         (λ error,
            perform (Dash (ConsoleError "FHEVM initialization failed:" error));;
            perform (Dash (SetTransactionStatus
                             (error_toast "FHEVM initialization failed")));;
            perform (Dash (SetTimeout TransactionStatus.hidden 3000))))
      (perform (SetFhevmInitializing false)).

(** [loadDataAndContract] (App.tsx, lines 85-100). *)
Definition loadDataAndContract (c : Render) : Async' unit :=
  if negb (isConnected c) then perform (SetLoading false)
  else
    try_finally
      (try_catch
         (lift (loadSupplyChainData c);;
          contract ← perform (Dash GetContractReadOnly);
          match contract with
          | Some contract =>
              a ← await (GetAddress contract);
              perform (SetContractAddress a)
          | None => Ret tt
          end)
         (λ error, perform (Dash (ConsoleError "Failed to load data:" error))))
      (perform (SetLoading false)).

(** [testContractAvailability] (App.tsx, lines 255-267); the answer of
    [contract.isAvailable()] is bound and not used. *)
Definition testContractAvailability : Async' unit :=
  try_catch
    (contract ← perform (Dash GetContractReadOnly);
     match contract with
     | None => Throw (JS.error "Contract not available")
     | Some contract =>
         isAvailable ← await (IsAvailable contract);
         perform (Dash (SetTransactionStatus
                          (success_toast "Contract is available and responsive!")));;
         perform (Dash (SetTimeout TransactionStatus.hidden 2000))
     end)
    (λ e,
       perform (Dash (SetTransactionStatus (error_toast "Contract test failed")));;
       perform (Dash (SetTimeout TransactionStatus.hidden 3000))).

(** The answer [contract.getAddress()] gave and the address
    [setContractAddress] was called with. *)
Definition addressGot (e : @Ev Call) : option string :=
  match e with
  | existT _ (c, x) =>
      match c in Call X return X → option string with
      | GetAddress _ =>
          λ r, match r with
               | inr a => Some a
               | inl _ => None
               end
      | _ => λ _, None
      end x
  end.

Definition addressSet (e : @Ev Call) : option string :=
  match projT2 e with
  | (SetContractAddress a, _) => Some a
  | _ => None
  end.

Definition loadingSet (e : @Ev Call) : option bool :=
  match projT2 e with
  | (SetLoading b, _) => Some b
  | _ => None
  end.

End Shell.

(* ===================================================================== *)
(** * Properties *)
(* ===================================================================== *)

(** ** The JavaScript primitives on examples *)

Example parseInt_42 : JS.parseInt "42" = JS.Num 42.
Proof. reflexivity. Qed.
Example parseInt_empty : JS.parseInt "" = JS.NaN.
Proof. reflexivity. Qed.
Example parseInt_neg : JS.parseInt "  -17px" = JS.Num (-17).
Proof. reflexivity. Qed.
Example parseInt_hex : JS.parseInt "0x1A" = JS.Num 26.
Proof. reflexivity. Qed.
Example parseInt_big : JS.parseInt "9007199254740993" = JS.Num 9007199254740992.
Proof. reflexivity. Qed.
Example parseInt_big2 : JS.parseInt "99999999999999999999" = JS.Num 100000000000000000000.
Proof. reflexivity. Qed.
Example includes_ex : JS.includes "execution reverted: Data already verified" "Data already verified" = true.
Proof. reflexivity. Qed.

(** ** Numbers and strings *)

Section JSFacts.
Import JS.

Lemma round53_exact n : 0 ≤ n < 2 ^ 53 → round53 n = n.
Proof.
  intros Hn. unfold round53.
  destruct (decide (n = 0)) as [->|Hnz]; [reflexivity|].
  assert (Z.log2 n < 53) by (apply Z.log2_lt_pow2; lia).
  destruct (Z.leb_spec (Z.log2 n + 1) 53); [reflexivity | lia].
Qed.

Lemma toDouble_exact z : 0 ≤ z < 2 ^ 53 → toDouble z = z.
Proof.
  intros Hz. unfold toDouble. rewrite Z.abs_eq by lia.
  rewrite round53_exact by lia.
  destruct (decide (z = 0)) as [->|]; [reflexivity|].
  rewrite Z.sgn_pos by lia. lia.
Qed.

Lemma or0_Number z : 0 ≤ z < 2 ^ 53 → or0 (Number_of_bigint z) = z.
Proof. intros Hz. unfold Number_of_bigint. cbn. by apply toDouble_exact. Qed.

Lemma round53_nonneg n : 0 ≤ n → 0 ≤ round53 n.
Proof.
  intros Hn. unfold round53.
  destruct (Z.leb_spec (Z.log2 n + 1) 53); [done|].
  apply Z.shiftl_nonneg.
  assert (0 ≤ Z.shiftr n (Z.log2 n + 1 - 53)) by (apply Z.shiftr_nonneg; lia).
  repeat case_match; lia.
Qed.

Lemma strip_non_digits_all s : all_digits (strip_non_digits s) = true.
Proof.
  induction s as [|c s IH]; [reflexivity|].
  cbn. destruct (is_digit c) eqn:Hc; [cbn; by rewrite Hc | done].
Qed.

Lemma digit_value_digit c :
  is_digit c = true → ∃ d, digit_value 10 c = Some d ∧ 0 ≤ d ≤ 9.
Proof.
  unfold is_digit, digit_value. intros Hc. cbn zeta in *. rewrite Hc.
  apply andb_prop in Hc as [H1%Z.leb_le H2%Z.leb_le].
  eexists; split.
  - destruct (Z.ltb_spec (Z.of_N (N_of_ascii c) - 48) 10); [reflexivity | lia].
  - lia.
Qed.

Lemma parse_digits_nonneg s acc :
  all_digits s = true → match acc with Some a => 0 ≤ a | None => True end →
  match parse_digits 10 s acc with Some n => 0 ≤ n | None => True end.
Proof.
  revert acc. induction s as [|c s IH]; intros acc Hs Hacc; [done|].
  cbn in Hs. apply andb_prop in Hs as [Hc Hs].
  destruct (digit_value_digit c Hc) as (d & Hd & Hr).
  cbn. rewrite Hd. apply IH; [done|].
  destruct acc; cbn; nia.
Qed.

(** A digit string does not start with white space, a sign or [0x]. *)
Lemma parseInt_digits s :
  all_digits s = true →
  parseInt s = match parse_digits 10 s None with
               | Some n => Num (round53 n)
               | None => NaN
               end.
Proof.
  intros Hs. unfold parseInt.
  destruct s as [|c s]; [reflexivity|].
  cbn in Hs. apply andb_prop in Hs as [Hc Hs].
  assert (is_space c = false) as Hsp.
  { unfold is_digit, is_space in *. cbn zeta in *.
    apply andb_prop in Hc as [H1%Z.leb_le H2%Z.leb_le].
    repeat (apply orb_false_intro); apply Z.eqb_neq; lia. }
  cbn [skip_space]. rewrite Hsp.
  assert (c ≠ "-"%char ∧ c ≠ "+"%char) as [Hm Hp].
  { split; intros ->; discriminate Hc. }
  destruct (decide (c = "0"%char)) as [->|H0].
  - destruct s as [|c' s'].
    + reflexivity.
    + cbn in Hs. apply andb_prop in Hs as [Hc' Hs].
      assert (c' ≠ "x"%char ∧ c' ≠ "X"%char) as [Hx HX].
      { split; intros ->; discriminate Hc'. }
      destruct c' as [[] [] [] [] [] [] [] []]; try done;
        cbn; repeat case_match; simplify_eq; try done; f_equal; lia.
  - destruct c as [[] [] [] [] [] [] [] []]; try done;
      cbn; repeat case_match; simplify_eq; try done; f_equal; lia.
Qed.

Lemma message_includes_nullish e sub :
  message_includes e sub = true → nullish e = false.
Proof. by destruct e. Qed.

Lemma parseInt_digits_nonneg s : all_digits s = true → 0 ≤ or0 (parseInt s).
Proof.
  intros Hs. rewrite parseInt_digits by done.
  pose proof (parse_digits_nonneg s None Hs I) as Hn.
  destruct (parse_digits 10 s None); cbn; [by apply round53_nonneg | done].
Qed.
End JSFacts.
(** ** The record store *)

Section StoreFacts.
Import RecordStore Lifecycle.

Lemma forward_spec old new :
  forward old new = true ↔
  (old = Created ∧ new = VerificationPending) ∨
  (old = VerificationPending ∧ new = Verified).
Proof.
  unfold forward. rewrite bool_decide_eq_true.
  destruct old, new; cbn; split; first [lia | intuition congruence | intuition lia].
Qed.

(** What a compare-and-set on an existing record does, case by case. *)
Lemma compareAndSet_cases i ver m st r :
  get i st = Some r →
  (version r ≠ ver ∧ compareAndSet i ver m st = (inl (VersionConflict r), st)) ∨
  (version r = ver ∧ forward (status r) (m r).1 = false ∧
     compareAndSet i ver m st = (inl (IllegalTransition r), st)) ∨
  (version r = ver ∧ forward (status r) (m r).1 = true ∧
     compareAndSet i ver m st =
       (inr (mkRecord (id r) (ownerId r) (publicAttributes r) (ciphertextHandle r)
               (m r).1 (m r).2 (version r + 1) (createdAt r)),
        mkStore (<[i := mkRecord (id r) (ownerId r) (publicAttributes r)
                          (ciphertextHandle r) (m r).1 (m r).2 (version r + 1)
                          (createdAt r)]> (records st)) (ids st))).
Proof.
  unfold get, compareAndSet. intros ->.
  case_bool_decide; [|by left].
  right. destruct (m r) as [s' cv'] eqn:Hm. cbn.
  destruct (forward (status r) s'); [right | left]; done.
Qed.

Lemma compareAndSet_unknown i ver m st :
  get i st = None → compareAndSet i ver m st = (inl UnknownRecord, st).
Proof. unfold get, compareAndSet. by intros ->. Qed.

Lemma compareAndSet_rejected i ver m st e st' :
  compareAndSet i ver m st = (inl e, st') → st' = st.
Proof.
  destruct (get i st) as [r|] eqn:Hg.
  - destruct (compareAndSet_cases i ver m st r Hg) as [[_ ->]|[(_&_&->)|(_&_&->)]];
      congruence.
  - rewrite compareAndSet_unknown by done. congruence.
Qed.

Lemma compareAndSet_other i ver m st j :
  i ≠ j → get j (compareAndSet i ver m st).2 = get j st.
Proof.
  intros Hij. destruct (get i st) as [r|] eqn:Hg.
  - destruct (compareAndSet_cases i ver m st r Hg) as [[_ ->]|[(_&_&->)|(_&_&->)]];
      try done.
    unfold get. cbn. by rewrite lookup_insert_ne.
  - by rewrite compareAndSet_unknown.
Qed.

Lemma insert_other n st j :
  new_id n ≠ j → get j (insert n st).2 = get j st.
Proof.
  intros Hj. unfold insert, get. destruct (records st !! new_id n); [done|].
  cbn. by rewrite lookup_insert_ne.
Qed.

Lemma insert_existing n st r :
  get (new_id n) st = Some r → insert n st = (inl (IdExists (new_id n)), st).
Proof. unfold get, insert. by intros ->. Qed.

(** One attempt moves the status of a record by at most one stage,
    forward, and never removes the record. *)
Lemma attempt_status st a i r :
  get i st = Some r →
  ∃ r', get i (attempt st a) = Some r' ∧
        (r' = r ∨ (rank (status r') = rank (status r) + 1
                   ∧ version r' = version r + 1)).
Proof.
  intros Hg. destruct a as [n|j ver m]; cbn.
  - destruct (decide (new_id n = i)) as [<-|Hne].
    + rewrite (insert_existing _ _ _ Hg). eauto.
    + rewrite insert_other by done. eauto.
  - destruct (decide (j = i)) as [->|Hne].
    + destruct (compareAndSet_cases i ver m st r Hg)
        as [[_ ->]|[(_&_&->)|(_&Hf&->)]]; eauto.
      eexists. split; [apply lookup_insert_eq|]. right. cbn.
      apply bool_decide_eq_true_1 in Hf. done.
    + rewrite compareAndSet_other by done. eauto.
Qed.

Lemma attempts_status l st i r :
  get i st = Some r →
  ∃ r', get i (attempts l st) = Some r' ∧ rank (status r) ≤ rank (status r')
        ∧ version r ≤ version r'.
Proof.
  revert st r. induction l as [|a l IH]; intros st r Hg.
  - exists r. cbn. split; [done | lia].
  - destruct (attempt_status st a i r Hg) as (r1 & Hg1 & Hr1).
    destruct (IH _ _ Hg1) as (r' & Hg' & Hle & Hv).
    exists r'. split; [done|]. destruct Hr1 as [->|[? ?]]; lia.
Qed.
End StoreFacts.

Section RunFacts.
Context {E : Type → Type} {S L : Type}.
Variable h : ∀ X, E X → S → L → X * S * L.

Lemma run_bind {A B} (p : Prog E A) (f : A → Prog E B) s l :
  run h (bind p f) s l =
  match run h p s l with
  | (Returned r, s', l', t) =>
      let '(o, s'', l'', t') := run h (f r) s' l' in (o, s'', l'', t ++ t')
  | (Thrown err, s', l', t) => (Thrown err, s', l', t)
  end.
Proof.
  revert s l. induction p as [r|err|X e k IH]; intros s l; cbn.
  - by destruct (run h (f r) s l) as [[[o s'] l'] t].
  - done.
  - destruct (h X e s l) as [[x s1] l1]. rewrite IH.
    destruct (run h (k x) s1 l1) as [[[[r|err] s2] l2] t]; [|done].
    by destruct (run h (f r) s2 l2) as [[[o s3] l3] t'].
Qed.

Lemma run_try_catch {A} (p : Prog E A) (c : JS.Error → Prog E A) s l :
  run h (try_catch p c) s l =
  match run h p s l with
  | (Returned r, s', l', t) => (Returned r, s', l', t)
  | (Thrown err, s', l', t) =>
      let '(o, s'', l'', t') := run h (c err) s' l' in (o, s'', l'', t ++ t')
  end.
Proof.
  revert s l. induction p as [r|err|X e k IH]; intros s l; cbn.
  - done.
  - by destruct (run h (c err) s l) as [[[o s'] l'] t].
  - destruct (h X e s l) as [[x s1] l1]. rewrite IH.
    destruct (run h (k x) s1 l1) as [[[[r|err] s2] l2] t]; [done|].
    by destruct (run h (c err) s2 l2) as [[[o s3] l3] t'].
Qed.

Lemma run_try_finally {A} (p : Prog E A) (fin : Prog E unit) s l :
  run h (try_finally p fin) s l =
  let '(o, s', l', t) := run h p s l in
  match run h fin s' l' with
  | (Returned _, s'', l'', t') => (o, s'', l'', t ++ t')
  | (Thrown err, s'', l'', t') => (Thrown err, s'', l'', t ++ t')
  end.
Proof.
  revert s l. induction p as [r|err|X e k IH]; intros s l; cbn.
  - rewrite run_bind.
    destruct (run h fin s l) as [[[[[]|err] s'] l'] t]; cbn; by rewrite ?app_nil_r.
  - rewrite run_bind.
    destruct (run h fin s l) as [[[[[]|err'] s'] l'] t]; cbn; by rewrite ?app_nil_r.
  - destruct (h X e s l) as [[x s1] l1]. rewrite IH.
    destruct (run h (k x) s1 l1) as [[[o s2] l2] t].
    by destruct (run h fin s2 l2) as [[[[[]|err] s3] l3] t'].
Qed.
End RunFacts.

(** ** The dashboard in any environment *)

Section AnyEnvironment.
Import RecordStore App.
Context `{ConfidentialComputeProvider}.
Context {S L : Type}.
Variable h : ∀ X, Call X → S → L → X * S * L.

Lemma loadedFrom_weaken (t t' : list (@Ev Call)) items :
  (∀ e, e ∈ t → e ∈ t') →
  Forall (loadedFrom t) items → Forall (loadedFrom t') items.
Proof.
  intros Hsub Hall. eapply Forall_impl; [exact Hall|].
  intros item (Hl & Hs & e & bd & He & Hd & Hp).
  split; [done|]. split; [done|]. exists e, bd. auto.
Qed.

Lemma run_loadItems contract businessIds itemsList s l :
  ∃ s' l' t items,
    run h (loadItems contract businessIds itemsList) s l
    = (Returned (itemsList ++ items), s', l', t)
    ∧ Forall (λ e, itemsSet e = None) t
    ∧ Forall (loadedFrom t) items.
Proof.
  revert itemsList s l.
  induction businessIds as [|i rest IH]; intros itemsList s l.
  - exists s, l, [], []. cbn. rewrite app_nil_r. by repeat constructor.
  - cbn [loadItems]. unfold mbind, Prog_bind. rewrite run_bind, run_try_catch.
    cbn [bind await perform run].
    destruct (h _ (GetBusinessData contract i) s l) as [[[err|bd] s1] l1];
      cbn [bind run].
    + destruct (h _ (ConsoleError "Error loading business data:" err) s1 l1)
        as [[[] s2] l2].
      destruct (IH itemsList s2 l2) as (s' & l' & t & items & -> & Hset & Hitems).
      eexists s', l', _, items. split; [reflexivity|]. split.
      * repeat (constructor; [reflexivity|]). done.
      * eapply loadedFrom_weaken; [|done]. intros e He. cbn.
        by do 2 apply list_elem_of_further.
    + destruct (IH (itemsList ++ [toItem i bd]) s1 l1)
        as (s' & l' & t & items & -> & Hset & Hitems).
      eexists s', l', _, (toItem i bd :: items). split.
      { rewrite <- app_assoc. reflexivity. }
      split.
      * constructor; [reflexivity | done].
      * constructor.
        -- split; [reflexivity|]. split; [reflexivity|].
           eexists _, bd. split; [apply list_elem_of_here|]. split; reflexivity.
        -- eapply loadedFrom_weaken; [|done]. intros e He. cbn.
           by apply list_elem_of_further.
Qed.

(** C10: with no connected wallet, or no caller address,
    [decryptItemData] returns [null], and in any environment the only
    calls it makes are the one that shows the error message and the one
    that schedules its removal: no contract read or write, no decryption
    request.  On the ledger of the dashboard this leaves the ledger as it
    was, and the session with the message and its timer. *)
Theorem decryptItemData_without_wallet c businessId s l g (b : Session) :
  isConnected c = false ∨ not_string (address c) = true →
  (∃ s' l' t,
     run h (decryptItemData c businessId) s l = (Returned None, s', l', t)
     ∧ calls t
       = [call (SetTransactionStatus (error_toast "Please connect wallet first"));
          call (SetTimeout TransactionStatus.hidden 3000)])
  ∧ exec (decryptItemData c businessId) g b
    = (Returned None, g,
       with_toast b (error_toast "Please connect wallet first") 3000,
       [ev (SetTransactionStatus (error_toast "Please connect wallet first")) tt;
        ev (SetTimeout TransactionStatus.hidden 3000) tt]).
Proof.
  intros Hw. unfold decryptItemData.
  assert (negb (isConnected c) || not_string (address c) = true) as ->.
  { destruct Hw as [-> | ->]; [done | by rewrite orb_true_r]. }
  split; [|reflexivity].
  cbn [mbind Prog_bind bind perform run].
  destruct (h _ (SetTransactionStatus (error_toast "Please connect wallet first")) s l)
    as [[[] s1] l1].
  destruct (h _ (SetTimeout TransactionStatus.hidden 3000) s1 l1) as [[[] s2] l2].
  by eexists _, _, _.
Qed.

(** *** The calls of a run, whatever the environment answers *)

(** One call answered by the environment, whatever the answer. *)
Ltac env_step :=
  cbn [bind perform await run try_catch try_finally];
  match goal with
  | |- context [h ?X ?e ?s ?l] =>
      let x := fresh "x" in let s' := fresh "s" in let l' := fresh "l" in
      destruct (h X e s l) as [[x s'] l']
  end;
  cbn [bind perform await run try_catch try_finally].

Lemma run_loadItems_calls contract businessIds itemsList s l :
  ∃ items s' l' t,
    run h (loadItems contract businessIds itemsList) s l
    = (Returned items, s', l', t)
    ∧ Forall (λ e, loadCall e = true) t.
Proof.
  revert itemsList s l.
  induction businessIds as [|i rest IH]; intros itemsList s l.
  - exists itemsList, s, l, []. by split.
  - cbn [loadItems]. unfold mbind, Prog_bind. rewrite run_bind, run_try_catch.
    env_step. destruct x as [err|bd]; cbn [bind run].
    + env_step.
      destruct (IH itemsList s1 l1) as (items & s' & l' & t & -> & Ht).
      eexists _, _, _, _. split; [reflexivity|].
      by repeat (constructor; [reflexivity|]).
    + destruct (IH (itemsList ++ [toItem i bd]) s0 l0)
        as (items & s' & l' & t & -> & Ht).
      eexists _, _, _, _. split; [reflexivity|].
      by repeat (constructor; [reflexivity|]).
Qed.

Lemma run_loadSupplyChainData_calls c s l :
  ∃ s' l' t,
    run h (loadSupplyChainData c) s l = (Returned tt, s', l', t)
    ∧ Forall (λ e, loadCall e = true) t.
Proof.
  unfold loadSupplyChainData.
  destruct (isConnected c); cbn [negb].
  2:{ exists s, l, []. by split. }
  rewrite run_try_catch. unfold mbind, Prog_bind.
  env_step. destruct x as [contract|].
  2:{ eexists _, _, _. split; [reflexivity|]. by repeat constructor. }
  env_step. destruct x as [err|businessIds]; cbn [bind run].
  - env_step. env_step. destruct x, x0.
    eexists _, _, _. split; [reflexivity|]. by repeat constructor.
  - rewrite run_bind.
    destruct (run_loadItems_calls contract businessIds [] s1 l1)
      as (items & s3 & l3 & t & -> & Ht).
    env_step. destruct x.
    eexists _, _, _. split; [reflexivity|].
    repeat (constructor; [reflexivity|]).
    apply Forall_app_2; [done|]. by repeat constructor.
Qed.

Lemma loadCall_plain e :
  loadCall e = true →
  encryptArg e = None ∧ created e = None ∧ is_write e = false
  ∧ is_crypto e = false.
Proof. destruct e as [X [[] x]]; cbn; intros; done. Qed.

Ltac answer x :=
  match type of x with
  | unit => destruct x
  | sum _ _ => destruct x as [?err|?]
  | option _ => destruct x as [?|]
  | _ => idtac
  end.

Ltac env_go :=
  cbn [bind perform await run try_catch try_finally JS.nullish JS.error];
  match goal with
  | |- context [h ?X ?e ?s ?l] =>
      let x := fresh "x" in let s' := fresh "s" in let l' := fresh "l" in
      destruct (h X e s l) as [[x s'] l']; answer x
  end;
  cbn [bind perform await run try_catch try_finally JS.nullish JS.error].

Lemma decryptItemData_resume_rejected c businessId contractWrite handle
    values decryptionProof s l :
  ∃ o s' l' t,
    run h (decryptItemData_resume c businessId contractWrite handle
             (inr (values, decryptionProof))) s l = (o, s', l', t)
    ∧ ∀ err,
        rejection <$> t !! 0%nat = Some (Some err) →
        JS.message_includes err "Data already verified" = true →
        o = Returned None
        ∧ ∃ loaded,
            t = ev (VerifyDecryption contractWrite businessId
                      (omap (λ h, values !! h) [handle]) decryptionProof)
                   (inl err)
                :: ev (SetTransactionStatus
                         (success_toast "Data is already verified on-chain")) tt
                :: ev (SetTimeout TransactionStatus.hidden 2000) tt
                :: loaded ++ [ev (SetIsDecrypting false) tt]
            ∧ Forall (λ e, loadCall e = true) loaded.
Proof.
  unfold decryptItemData_resume, decryptItemData_submit, mbind, Prog_bind.
  env_step. destruct x as [err|tx]; cbn [bind try_catch try_finally].
  2:{ destruct (run h _ s0 l0) as [[[o s'] l'] t].
      eexists _, _, _, _. split; [reflexivity|].
      intros err Hr. cbn in Hr. discriminate Hr. }
  unfold decryptItemData_catch.
  destruct (JS.message_includes err "Data already verified") eqn:Hinc.
  2:{ destruct (run h _ s0 l0) as [[[o s'] l'] t].
      eexists _, _, _, _. split; [reflexivity|].
      intros err' Hr Hinc'. cbn in Hr. injection Hr as <-. congruence. }
  rewrite (message_includes_nullish _ _ Hinc).
  unfold mbind, Prog_bind. env_go. env_go.
  rewrite run_try_finally, run_bind.
  destruct (run_loadSupplyChainData_calls c s2 l2) as (s3 & l3 & t & -> & Ht).
  env_go.
  eexists _, _, _, _. split; [reflexivity|].
  intros err' Hr _. cbn in Hr. injection Hr as <-.
  split; [reflexivity|]. exists t. split; [|done].
  cbn. by rewrite app_nil_r.
Qed.

Ltac from_encrypt Hcr :=
  cbn in Hcr; injection Hcr as <-;
  match goal with
  | |- context [ev (Encrypt ?a ?b ?v) (inr ?r)] =>
      exists (ev (Encrypt a b v) (inr r)); split;
      [do 4 apply list_elem_of_further; apply list_elem_of_here
      |by destruct r]
  end.

(** A caught value is [undefined] or [null], or it is not. *)
Ltac err_go :=
  match goal with
  | |- context [JS.nullish ?e] => is_var e; destruct e as [?m|]; cbn [JS.nullish]
  end.

Ltac reload_go :=
  match goal with
  | |- context [run h (loadSupplyChainData ?c) ?s ?l] =>
      let tl := fresh "tl" in let Hl := fresh "Hload" in
      destruct (run_loadSupplyChainData_calls c s l) as (? & ? & tl & -> & Hl)
  | |- context [run h (bind (loadSupplyChainData _) _)] => rewrite run_bind
  | |- context [run h (try_catch _ _)] => rewrite run_try_catch
  | |- context [run h (try_finally _ _)] => rewrite run_try_finally
  end.

Ltac any_go := repeat first [env_go | err_go | reload_go].

(** A run that rejected did so on a call rejected with [undefined] or
    [null]. *)
Ltac only_type_error :=
  intros ? Hthrown; first
    [ discriminate Hthrown
    | injection Hthrown as <-; split; [reflexivity|];
      repeat first [apply Exists_cons_hd; reflexivity | apply Exists_cons_tl] ].

Lemma createSupplyChainItem_any c s l :
  ∃ o s' l' t,
    run h (createSupplyChainItem c) s l = (o, s', l', t)
    ∧ encryptsFormValue c t
    ∧ onlyTypeError o t.
Proof.
  unfold createSupplyChainItem, mbind, Prog_bind.
  destruct (negb (isConnected c) || not_string (address c)).
  all: any_go.
  all: eexists _, _, _, _; (split; [reflexivity|]).
  all: split; [|only_type_error].
  all: split;
    [ repeat (constructor;
              [intros ? Hv; cbn in Hv;
               first [discriminate Hv | by injection Hv as <-]|]);
      try apply Forall_nil_2
    | intros ev0 res0 Hev0 Hcr0;
      repeat (apply elem_of_cons in Hev0 as [->|Hev0];
              [first [discriminate Hcr0 | from_encrypt Hcr0]|]);
      try (by apply elem_of_nil in Hev0) ].
  - repeat apply Forall_app_2.
    + eapply Forall_impl; [exact Hload|]. intros e0 He0 v Hv.
      apply loadCall_plain in He0 as (He0 & _). congruence.
    + repeat (constructor; [intros ? Hv; discriminate Hv|]). apply Forall_nil_2.
    + repeat (constructor; [intros ? Hv; discriminate Hv|]). apply Forall_nil_2.
  - rewrite !elem_of_app in Hev0. destruct Hev0 as [[Hev0|Hev0]|Hev0].
    + rewrite Forall_forall in Hload.
      apply Hload, loadCall_plain in Hev0 as (_ & Hev0 & _). congruence.
    + repeat (apply elem_of_cons in Hev0 as [->|Hev0]; [discriminate Hcr0|]).
      by apply elem_of_nil in Hev0.
    + repeat (apply elem_of_cons in Hev0 as [->|Hev0]; [discriminate Hcr0|]).
      by apply elem_of_nil in Hev0.
Qed.

Ltac rest_any :=
  match goal with
  | |- context [run h ?p ?s ?l] =>
      destruct (run h p s l) as [[[? ?] ?] ?]
  end;
  eexists _, _, _, _; split; [reflexivity|].

(** In any environment, a wallet being connected, [decryptItemData]
    first asks for the read-only contract and the record; if the record
    comes back verified, the call makes no further request: it shows the
    status, returns the value of the answer and stops. *)
Lemma decryptItemData_verified_any c businessId s l :
  isConnected c = true → not_string (address c) = false →
  ∃ o s' l' t,
    run h (decryptItemData c businessId) s l = (o, s', l', t)
    ∧ ∀ businessData,
        dataRead <$> t !! 2%nat = Some (Some (businessId, businessData)) →
        BusinessData.isVerified businessData = true →
        o = Returned (Some (JS.Num (JS.or0 (JS.Number_of_bigint
                                              (BusinessData.decryptedValue businessData)))))
        ∧ length t = 6%nat
        ∧ Forall (λ e, is_crypto e = false ∧ is_write e = false) t.
Proof.
  intros Hc Ha. unfold decryptItemData. rewrite Hc, Ha. cbn [negb orb].
  unfold decryptItemData_try, mbind, Prog_bind.
  env_step. env_step. destruct x0 as [contractRead|].
  2:{ env_step. eexists _, _, _, _. split; [reflexivity|].
      intros bd Hread. discriminate Hread. }
  env_step. destruct x0 as [err|bd0].
  { cbn [bind try_catch try_finally]. rest_any.
    intros bd Hread. cbn in Hread. discriminate Hread. }
  cbn [bind try_catch try_finally].
  destruct (BusinessData.isVerified bd0) eqn:Hv.
  - env_step. env_step. env_step.
    eexists _, _, _, _. split; [reflexivity|].
    intros bd Hread _. cbn in Hread. injection Hread as <-.
    split; [reflexivity|]. split; [reflexivity|]. repeat constructor.
  - rest_any.
    intros bd Hread Hbd. cbn in Hread. injection Hread as <-. congruence.
Qed.
End AnyEnvironment.

(** ** The dashboard on its ledger *)

Section AppFacts.
Import RecordStore App.
Context `{ConfidentialComputeProvider}.

Lemma with_console_nil l : with_console l [] = l.
Proof. destruct l as [[] ? ?]. unfold with_console. cbn. by rewrite app_nil_r. Qed.

Lemma with_console_app l e1 e2 :
  with_console (with_console l e1) e2 = with_console l (e1 ++ e2).
Proof. destruct l as [[] ? ?]. unfold with_console. cbn. by rewrite app_assoc. Qed.

Lemma exec_loadItems contract businessIds itemsList g l :
  ∃ t, exec (loadItems contract businessIds itemsList) g l =
         (Returned (itemsList ++ loadedItems (store g) businessIds), g,
          with_console l (loadErrors (store g) businessIds), t)
       ∧ Forall (λ e, is_crypto e = false) t.
Proof.
  unfold exec. revert itemsList l.
  induction businessIds as [|i rest IH]; intros itemsList l.
  - exists []. cbn. rewrite app_nil_r, with_console_nil. done.
  - cbn [loadItems]. unfold mbind, Prog_bind. rewrite run_bind, run_try_catch.
    cbn. unfold contract_getBusinessData, loadedItems, loadErrors. cbn.
    destruct (get i (store g)) as [r|] eqn:Hg; cbn.
    + destruct (IH (itemsList ++ [toItem i (view r)]) l) as (t & -> & Ht).
      eexists. split.
      * rewrite <- app_assoc. reflexivity.
      * repeat constructor. done.
    + match goal with
      | |- context [run handle (loadItems _ _ ?a) _ ?l'] =>
          destruct (IH a l') as (t & -> & Ht)
      end.
      eexists. split.
      * do 2 f_equal. destruct l as [[] ? ?]. unfold with_console. cbn.
        by rewrite <- app_assoc.
      * repeat constructor. done.
Qed.

Lemma exec_loadSupplyChainData c g l :
  ∃ t, exec (loadSupplyChainData c) g l = (Returned tt, g, loadedSession c g l, t)
       ∧ Forall (λ e, is_crypto e = false) t.
Proof.
  unfold loadSupplyChainData, loadedSession, exec.
  destruct (isConnected c); cbn [negb]; [|by exists []].
  rewrite run_try_catch. cbn.
  destruct (readOnlyAvailable l) eqn:Hro; cbn; [|eexists; split; [reflexivity | by repeat constructor]].
  unfold mbind, Prog_bind. rewrite run_bind.
  destruct (exec_loadItems (mkContract None) (ids (store g)) [] g l) as (t & Ht & Hq).
  unfold exec in Ht. rewrite Ht. cbn.
  eexists. split; [reflexivity|].
  repeat constructor. apply Forall_app. split; [done|]. by repeat constructor.
Qed.
End AppFacts.

Section DecryptFacts.
Import RecordStore App.
Context `{ConfidentialComputeProvider}.

Lemma decryptItemData_verified c businessId g l r v :
  isConnected c = true → not_string (address c) = false →
  readOnlyAvailable l = true →
  get businessId (store g) = Some r →
  status r = Verified → clearValue r = Some v → 0 ≤ v < 2 ^ 53 →
  exec (decryptItemData c businessId) g l =
    (Returned (Some (JS.Num v)), g, short_circuited l,
     [ev (SetIsDecrypting true) tt;
      ev GetContractReadOnly (Some (mkContract None));
      ev (GetBusinessData (mkContract None) businessId) (inr (view r));
      ev (SetTransactionStatus (success_toast "Data already verified on-chain")) tt;
      ev (SetTimeout TransactionStatus.hidden 2000) tt;
      ev (SetIsDecrypting false) tt]).
Proof.
  intros Hc Ha Hro Hg Hs Hcv Hv. unfold decryptItemData, exec.
  rewrite Hc, Ha. cbn [negb orb].
  unfold mbind, Prog_bind. cbn [bind perform run handle].
  rewrite run_try_finally, run_try_catch.
  unfold decryptItemData_try, mbind, Prog_bind.
  cbn [bind perform run handle set_ui ui readOnlyAvailable]. rewrite Hro.
  cbn [bind await run handle]. unfold contract_getBusinessData. rewrite Hg.
  cbn [bind await run handle view BusinessData.isVerified BusinessData.decryptedValue].
  rewrite Hs, Hcv. rewrite bool_decide_eq_true_2 by done.
  cbn [default]. rewrite or0_Number by done.
  cbn. reflexivity.
Qed.

(** C2: once a record is Verified, [decryptItemData] answers from the
    stored clear value.  In any environment, a call whose read of the
    record is answered with [isVerified] returns the [decryptedValue] of
    that answer after six calls, none of which reaches the provider or
    submits a transaction.  On the ledger of the dashboard, every one of
    [n] calls in a row returns the stored clear value, no call reaches
    the provider or submits a transaction, and the ledger, hence the
    record and its version, is left as it was. *)
Theorem verified_short_circuit {S L} (env : ∀ X, Call X → S → L → X * S * L)
    es el c businessId g l r v (n : nat) :
  isConnected c = true → not_string (address c) = false →
  readOnlyAvailable l = true →
  get businessId (store g) = Some r →
  status r = Verified → clearValue r = Some v → 0 ≤ v < 2 ^ 53 →
  (∃ o es' el' t,
     run env (decryptItemData c businessId) es el = (o, es', el', t)
     ∧ ∀ businessData,
         dataRead <$> t !! 2%nat = Some (Some (businessId, businessData)) →
         BusinessData.isVerified businessData = true →
         o = Returned (Some (JS.Num (JS.or0 (JS.Number_of_bigint
                              (BusinessData.decryptedValue businessData)))))
         ∧ length t = 6%nat
         ∧ Forall (λ e, is_crypto e = false ∧ is_write e = false) t)
  ∧ ∃ l' t,
      repeatDecrypt c businessId n g l =
        (replicate n (Returned (Some (JS.Num v))), g, l', t)
      ∧ Forall (λ e, is_crypto e = false ∧ is_write e = false) t
      ∧ version <$> get businessId (store g) = Some (version r).
Proof.
  intros Hc Ha Hro Hg Hs Hcv Hv.
  split; [by apply decryptItemData_verified_any|].
  revert l Hro.
  induction n as [|n IH]; intros l Hro.
  - exists l, []. cbn. rewrite Hg. done.
  - cbn [repeatDecrypt].
    rewrite (decryptItemData_verified c businessId g l r v) by done.
    destruct (IH (short_circuited l)) as (l' & t & -> & Ht & Hver); [done|].
    eexists _, _. split; [reflexivity|]. split; [|done].
    apply Forall_app. split; [|done].
    repeat constructor.
Qed.
End DecryptFacts.

Create Rewrite HintDb session.

Section CreateFacts.
Import RecordStore App.
Context `{ConfidentialComputeProvider}.

(** One step of symbolic execution: the interpreter is unfolded on the
    calls that are in head position and the session is kept flat. *)
Ltac exec_step :=
  cbn [bind perform await run handle set_ui ui
       supplyChainItems showCreateModal creatingItem transactionStatus
       newItemData isDecrypting timers console
       readOnlyAvailable signerAccount the_address
       encryptedData proof clearValues].

Lemma loadedSession_readOnly c g l :
  readOnlyAvailable (loadedSession c g l) = readOnlyAvailable l.
Proof. unfold loadedSession. by repeat case_match. Qed.

Lemma loadedSession_signer c g l :
  signerAccount (loadedSession c g l) = signerAccount l.
Proof. unfold loadedSession. by repeat case_match. Qed.

Lemma set_ui_readOnly l u : readOnlyAvailable (set_ui l u) = readOnlyAvailable l.
Proof. reflexivity. Qed.

Lemma set_ui_signer l u : signerAccount (set_ui l u) = signerAccount l.
Proof. reflexivity. Qed.

#[local] Hint Rewrite set_ui_readOnly set_ui_signer
  loadedSession_readOnly loadedSession_signer : session.

Lemma not_string_Some a : a ≠ "" → not_string (Some a) = false.
Proof. intros Ha. cbn. by apply String.eqb_neq. Qed.

(** What [createSupplyChainItem] does when the provider encrypts the
    value of the form and the id of the moment is free. *)
Lemma exec_createSupplyChainItem c g l a s h p :
  isConnected c = true → address c = Some a → a ≠ "" →
  signerAccount l = Some s →
  encrypt (itemValueOf (formData c)) (mkContext (contractAddress c) a) = Some (h, p) →
  get (businessIdAt (clock g)) (store g) = None →
  ∃ l' t,
    exec (createSupplyChainItem c) g l =
      (Returned tt,
       with_store g
         (mkStore
            (<[businessIdAt (clock g) :=
                 mkRecord (businessIdAt (clock g)) s
                   (mkAttrs (NewItemData.name (formData c))
                      (NewItemData.description (formData c))
                      (statusCode (NewItemData.status (formData c))) 0)
                   h Created None 0 (clock g / 1000)]> (records (store g)))
            (ids (store g) ++ [businessIdAt (clock g)])),
       l', t)
    ∧ readOnlyAvailable l' = readOnlyAvailable l
    ∧ signerAccount l' = signerAccount l.
Proof.
  intros Hc Ha Hne Hs He Hfresh. unfold createSupplyChainItem, exec.
  rewrite Hc, Ha, not_string_Some by done. cbn [negb orb].
  unfold mbind, Prog_bind. exec_step.
  rewrite run_try_finally, run_try_catch.
  exec_step. rewrite Hs. exec_step.
  rewrite He. exec_step.
  unfold contract_createBusinessData. cbn [signer].
  unfold insert. cbn [new_id]. unfold get in Hfresh. rewrite Hfresh.
  exec_step. rewrite run_bind.
  match goal with
  | |- context [run handle (loadSupplyChainData c) ?g' ?l'] =>
      destruct (exec_loadSupplyChainData c g' l') as (t & Ht & _);
      unfold exec in Ht; rewrite Ht
  end.
  exec_step.
  eexists _, _. split; [reflexivity|].
  autorewrite with session. done.
Qed.


Lemma omap_singleton_lookup (h : Handle) (v : Z) :
  omap (λ k, ({[h := v]} : gmap Handle Z) !! k) [h] = [v].
Proof. cbn. by rewrite lookup_singleton_eq. Qed.

Lemma commitVerified_accepted i r v st :
  get i st = Some r → status r ≠ Verified →
  commitVerified i r v st =
    (inr (verifiedRecord r v),
     mkStore (<[i := verifiedRecord r v]> (records st)) (ids st)).
Proof.
  intros Hg Hs. unfold commitVerified, verifiedRecord.
  destruct (status r) eqn:Hst; [| |done].
  - destruct (compareAndSet_cases i (version r) toPending st r Hg)
      as [[? _]|[(_&Hf&_)|(_&_&->)]]; [done| |].
    { rewrite Hst in Hf. discriminate Hf. }
    cbn [toPending fst snd version].
    match goal with
    | |- context [compareAndSet i ?ver ?m ?st1] =>
        destruct (compareAndSet_cases i ver m st1
                    (mkRecord (id r) (ownerId r) (publicAttributes r)
                       (ciphertextHandle r) VerificationPending (clearValue r)
                       (version r + 1) (createdAt r)))
          as [[? _]|[(_&Hf&_)|(_&_&->)]]
    end; try done.
    { apply lookup_insert_eq. }
    cbn. rewrite insert_insert_eq.
    by replace (version r + 1 + 1) with (version r + 2) by lia.
  - destruct (compareAndSet_cases i (version r) (toVerified v) st r Hg)
      as [[? _]|[(_&Hf&_)|(_&_&->)]]; [done| |].
    { rewrite Hst in Hf. discriminate Hf. }
    reflexivity.
Qed.

Lemma contract_verifyDecryption_accepted s i v dp g r :
  get i (store g) = Some r → status r ≠ Verified →
  verifyProof dp {[ciphertextHandle r := v]} (deployedAt g) = true →
  contract_verifyDecryption (mkContract (Some s)) i [v] dp g =
    (inr (mkTx s),
     with_store g (mkStore (<[i := verifiedRecord r v]> (records (store g)))
                     (ids (store g)))).
Proof.
  intros Hg Hs Hp. unfold contract_verifyDecryption. cbn [signer].
  rewrite Hg. rewrite bool_decide_eq_false_2 by done.
  rewrite Hp. by rewrite commitVerified_accepted.
Qed.

Lemma contract_verifyDecryption_verified s i vs dp g r :
  get i (store g) = Some r → status r = Verified →
  contract_verifyDecryption (mkContract (Some s)) i vs dp g =
    (inl (JS.error "execution reverted: Data already verified"), g).
Proof.
  intros Hg Hs. unfold contract_verifyDecryption. cbn [signer].
  rewrite Hg. by rewrite bool_decide_eq_true_2.
Qed.

(** A first verification: the record is not verified yet and its handle
    is the encryption of [v]. *)
Lemma exec_decryptItemData_first c businessId g l a s r v ectx p :
  isConnected c = true → address c = Some a → a ≠ "" →
  readOnlyAvailable l = true → signerAccount l = Some s →
  get businessId (store g) = Some r → status r ≠ Verified →
  encrypt v ectx = Some (ciphertextHandle r, p) →
  ctx_contract ectx = contractAddress c → contractAddress c = deployedAt g →
  0 ≤ v ≤ maxValue →
  ∃ l' t,
    exec (decryptItemData c businessId) g l =
      (Returned (Some (JS.Num v)),
       with_store g (mkStore (<[businessId := verifiedRecord r v]> (records (store g)))
                       (ids (store g))),
       l', t).
Proof.
  intros Hc Ha Hne Hro Hs Hg Hst He Hctx Hdep Hv.
  destruct (clear_of_encrypt _ _ _ _ He) as (dp & Hclear).
  pose proof (proof_complete _ _ _ _ Hclear) as Hproof.
  rewrite Hctx in Hclear, Hproof.
  unfold decryptItemData, exec.
  rewrite Hc, Ha, not_string_Some by done. cbn [negb orb].
  unfold mbind, Prog_bind. exec_step.
  rewrite run_try_finally, run_try_catch.
  unfold decryptItemData_try, verifyDecryption, mbind, Prog_bind.
  exec_step. rewrite Hro. exec_step.
  unfold contract_getBusinessData. rewrite Hg.
  exec_step. cbn [view BusinessData.isVerified].
  rewrite bool_decide_eq_false_2 by done.
  exec_step. rewrite Hs. exec_step.
  unfold contract_getEncryptedValue. rewrite Hg. exec_step.
  rewrite Hclear. exec_step.
  rewrite omap_singleton_lookup.
  rewrite (contract_verifyDecryption_accepted s businessId v dp g r)
    by (by rewrite <- ?Hdep).
  exec_step. rewrite run_bind.
  match goal with
  | |- context [run handle (loadSupplyChainData c) ?g' ?l'] =>
      destruct (exec_loadSupplyChainData c g' l') as (t & Ht & _);
      unfold exec in Ht; rewrite Ht
  end.
  exec_step. rewrite lookup_singleton_eq.
  cbn [JS.Number_of_opt]. unfold JS.Number_of_bigint.
  pose proof maxValue_safe.
  rewrite toDouble_exact by lia.
  eexists _, _. reflexivity.
Qed.

(** C1: a value of the provider's domain typed in the form, created by
    one session and then verified by any session, comes back as it was:
    [createSupplyChainItem] stores a record under the id of the moment,
    and [decryptItemData] on that id returns the value and commits it as
    the record's clear value. *)
Theorem create_then_verify_round_trip c l a s c2 l2 a2 s2 g v :
  isConnected c = true → address c = Some a → a ≠ "" →
  signerAccount l = Some s → contractAddress c = deployedAt g →
  itemValueOf (formData c) = v → in_domain v →
  get (businessIdAt (clock g)) (store g) = None →
  isConnected c2 = true → address c2 = Some a2 → a2 ≠ "" →
  readOnlyAvailable l2 = true → signerAccount l2 = Some s2 →
  contractAddress c2 = deployedAt g →
  ∃ g1 l1 t1 g2 l2' t2 r,
    exec (createSupplyChainItem c) g l = (Returned tt, g1, l1, t1)
    ∧ businessIdAt (clock g) ∈ ids (store g1)
    ∧ exec (decryptItemData c2 (businessIdAt (clock g))) g1 l2
      = (Returned (Some (JS.Num v)), g2, l2', t2)
    ∧ get (businessIdAt (clock g)) (store g2) = Some r
    ∧ status r = Verified ∧ clearValue r = Some v ∧ ownerId r = s.
Proof.
  intros Hc Ha Hne Hs Hdep Hval Hv Hfresh Hc2 Ha2 Hne2 Hro2 Hs2 Hdep2.
  destruct (encrypt_in_domain v (mkContext (contractAddress c) a) Hv)
    as [[h p] He].
  destruct (exec_createSupplyChainItem c g l a s h p) as (l1 & t1 & Hcreate & _);
    [done..|by rewrite Hval|done|].
  set (i := businessIdAt (clock g)) in *.
  set (r0 := mkRecord i s _ h Created None 0 _) in Hcreate.
  set (g1 := with_store g _) in Hcreate.
  destruct (exec_decryptItemData_first c2 i g1 l2 a2 s2 r0 v
              (mkContext (contractAddress c) a) p)
    as (l2' & t2 & Hdec); try done.
  { apply lookup_insert_eq. }
  { cbn. congruence. }
  eexists g1, l1, t1, _, l2', t2, (verifiedRecord r0 v).
  split; [done|]. split.
  { cbn. apply elem_of_app. right. by left. }
  split; [done|]. split; [apply lookup_insert_eq | done].
Qed.

Lemma handleChange_value d typed :
  NewItemData.value (handleChange d "value" typed) = JS.strip_non_digits typed.
Proof. reflexivity. Qed.

(** What [createSupplyChainItem] does when the provider rejects the
    value of the form. *)
Lemma exec_createSupplyChainItem_rejected c g l a s :
  isConnected c = true → address c = Some a → a ≠ "" →
  signerAccount l = Some s →
  encrypt (itemValueOf (formData c)) (mkContext (contractAddress c) a) = None →
  ∃ l' t,
    exec (createSupplyChainItem c) g l = (Returned tt, g, l', t)
    ∧ transactionStatus (ui l') = error_toast "Submission failed: EncryptionError"
    ∧ Forall (λ e, is_write e = false) t.
Proof.
  intros Hc Ha Hne Hs He. unfold createSupplyChainItem, exec.
  rewrite Hc, Ha, not_string_Some by done. cbn [negb orb].
  unfold mbind, Prog_bind. exec_step.
  rewrite run_try_finally, run_try_catch.
  exec_step. rewrite Hs. exec_step.
  rewrite He. exec_step.
  eexists _, _. split; [reflexivity|]. split; [reflexivity|].
  repeat constructor.
Qed.

(** C4, as the dashboard does it: the text typed in the value field is
    reduced to its digits and, at most 308 digits being left (a longer
    run of digits parses to Infinity), the value handed to the provider
    is [parseInt] of them (0 if none is left), a non-negative integer.
    No input is rejected by the dashboard itself: in any environment
    every [encrypt] call of [createSupplyChainItem] is given that
    integer, what it submits to the contract is what [encrypt] answered
    for it, and the call resolves unless one of its calls is rejected
    with [undefined] or [null], when its [catch] block throws a
    TypeError.  On the ledger, the wallet being connected with a signer
    and the id of the new item not in use: when the integer is in the
    provider's domain a record holding its encryption is created, and
    when it is not the provider's rejection is reported and the ledger
    is left as it was. *)
Theorem create_reduces_input_to_digits {S L}
    (env : ∀ X, Call X → S → L → X * S * L) es el c g l a s d typed :
  isConnected c = true → address c = Some a → a ≠ "" →
  signerAccount l = Some s →
  formData c = handleChange d "value" typed →
  (String.length (JS.strip_non_digits typed) ≤ 308)%nat →
  get (businessIdAt (clock g)) (store g) = None →
  let v := itemValueOf (formData c) in
  v = JS.or0 (JS.parseInt (JS.strip_non_digits typed)) ∧ 0 ≤ v
  ∧ (∃ o es' el' t,
       run env (createSupplyChainItem c) es el = (o, es', el', t)
       ∧ encryptsFormValue c t
       ∧ onlyTypeError o t)
  ∧ (in_domain v →
     ∃ h p g1 l1 t1 r,
       encrypt v (mkContext (contractAddress c) a) = Some (h, p)
       ∧ exec (createSupplyChainItem c) g l = (Returned tt, g1, l1, t1)
       ∧ get (businessIdAt (clock g)) (store g1) = Some r
       ∧ ciphertextHandle r = h ∧ status r = Created
       ∧ clearValue r = None ∧ version r = 0)
  ∧ (¬ in_domain v →
     ∃ l1 t1,
       exec (createSupplyChainItem c) g l = (Returned tt, g, l1, t1)
       ∧ transactionStatus (ui l1)
         = error_toast "Submission failed: EncryptionError").
Proof.
  intros Hc Ha Hne Hs Hform Hlen Hfresh v.
  assert (v = JS.or0 (JS.parseInt (JS.strip_non_digits typed))) as Hval.
  { subst v. unfold itemValueOf. by rewrite Hform, handleChange_value. }
  split; [done|]. split.
  { rewrite Hval. apply parseInt_digits_nonneg, strip_non_digits_all. }
  clear Hval. subst v.
  split; [apply createSupplyChainItem_any|]. split.
  - intros Hv.
    destruct (encrypt_in_domain _ (mkContext (contractAddress c) a) Hv)
      as [[h p] He].
    destruct (exec_createSupplyChainItem c g l a s h p)
      as (l1 & t1 & Hcreate & _); [done..|].
    eexists h, p, _, l1, t1, _. split; [done|]. split; [done|].
    split; [apply lookup_insert_eq|]. cbn. done.
  - intros Hv.
    destruct (exec_createSupplyChainItem_rejected c g l a s)
      as (l1 & t1 & Hcreate & Hts & _); [done..| |by eauto].
    by apply encrypt_malformed.
Qed.

(** C3, as the dashboard does it: when the submission of a decryption
    reaches the contract after another caller has verified the record,
    the rejection is not shown as an error; the status says that the data
    is already verified, the list is loaded again from the contract, the
    ledger is left as it was, and the call returns [null].  In any
    environment, when the submission is rejected with a message that
    holds "Data already verified", the call returns [null] and what it
    does after the rejection is to show that status, set its timer, load
    the list again and clear the decrypting flag. *)
Theorem lost_race_is_success_without_value {S L}
    (env : ∀ X, Call X → S → L → X * S * L) es el
    c businessId s h values decryptionProof g l r :
  get businessId (store g) = Some r → status r = Verified →
  (∃ o es' el' t,
     run env (decryptItemData_resume c businessId (mkContract (Some s)) h
                (inr (values, decryptionProof))) es el = (o, es', el', t)
     ∧ ∀ err,
         rejection <$> t !! 0%nat = Some (Some err) →
         JS.message_includes err "Data already verified" = true →
         o = Returned None
         ∧ ∃ loaded,
             t = ev (VerifyDecryption (mkContract (Some s)) businessId
                       (omap (λ h', values !! h') [h]) decryptionProof)
                    (inl err)
                 :: ev (SetTransactionStatus
                          (success_toast "Data is already verified on-chain")) tt
                 :: ev (SetTimeout TransactionStatus.hidden 2000) tt
                 :: loaded ++ [ev (SetIsDecrypting false) tt]
             ∧ Forall (λ e, loadCall e = true) loaded)
  ∧ ∃ t,
      exec (decryptItemData_resume c businessId (mkContract (Some s)) h
              (inr (values, decryptionProof))) g l
      = (Returned None, g,
         stop_decrypting
           (loadedSession c g
              (with_toast l (success_toast "Data is already verified on-chain") 2000)),
         t)
      ∧ Forall (λ e, is_crypto e = false) t.
Proof.
  intros Hg Hs.
  split; [apply decryptItemData_resume_rejected|].
  unfold decryptItemData_resume, exec.
  rewrite run_try_finally, run_try_catch.
  unfold decryptItemData_submit, mbind, Prog_bind. exec_step.
  rewrite (contract_verifyDecryption_verified s businessId _ decryptionProof g r) by done.
  exec_step.
  unfold decryptItemData_catch.
  cbn [JS.nullish JS.message_includes JS.message JS.error].
  replace (JS.includes "execution reverted: Data already verified"
             "Data already verified") with true by reflexivity.
  unfold mbind, Prog_bind. exec_step. rewrite run_bind.
  match goal with
  | |- context [run handle (loadSupplyChainData c) ?g' ?l'] =>
      destruct (exec_loadSupplyChainData c g' l') as (t & Ht & Hq);
      unfold exec in Ht; rewrite Ht
  end.
  exec_step.
  eexists. split; [reflexivity|].
  repeat first [ assumption
               | apply Forall_nil_2
               | apply Forall_cons_2; [reflexivity|]
               | apply Forall_app_2 ].
Qed.
End CreateFacts.

(** ** The writes of the dashboard *)

Section DashboardWrites.
Import RecordStore Lifecycle App.
Context `{ConfidentialComputeProvider}.

Lemma writes_app l1 l2 st : writes (l1 ++ l2) st = writes l2 (writes l1 st).
Proof. unfold writes, attempts. by rewrite map_app, foldl_app. Qed.

Lemma commitVerified_writes i r v st :
  ∃ ws, (commitVerified i r v st).2 = writes ws st.
Proof.
  unfold commitVerified. destruct (status r).
  - destruct (compareAndSet i (version r) toPending st) as [[err|r1] st1] eqn:Hc.
    + by exists [].
    + exists [MarkPending i (version r); MarkVerified i (version r1) v].
      cbn. by rewrite Hc.
  - by exists [MarkVerified i (version r) v].
  - by exists [MarkVerified i (version r) v].
Qed.

(** Every call of the dashboard leaves the store as some writes of the
    lifecycle API leave it. *)
Lemma handle_writes X (e : Call X) g l :
  ∃ ws, store (handle X e g l).1.2 = writes ws (store g).
Proof.
  destruct e; try (by exists []).
  - cbn. unfold contract_createBusinessData.
    destruct (signer c) as [sender|]; [|by exists []].
    match goal with
    | |- context [insert ?n (store g)] =>
        destruct (insert n (store g)) as [[err|i] st'] eqn:Hi;
        [by exists [] | exists [Insert n]; cbn; by rewrite Hi]
    end.
  - cbn. unfold contract_verifyDecryption.
    destruct (signer c) as [sender|]; [|by exists []].
    destruct (get businessId (store g)) as [r|]; [|by exists []].
    case_bool_decide; [by exists []|].
    destruct abiEncodedClearValues as [|v [|? ?]]; try (by exists []).
    destruct (verifyProof _ _ _); [|by exists []].
    destruct (commitVerified_writes businessId r v (store g)) as [ws Hws].
    destruct (commitVerified businessId r v (store g)) as [[err|r'] st'];
      [by exists [] | by exists ws].
Qed.

Lemma exec_writes {R} (p : Async R) g l :
  ∃ ws, store (exec p g l).1.1.2 = writes ws (store g).
Proof.
  unfold exec. revert g l. induction p as [r|err|X e k IH]; intros g l.
  - by exists [].
  - by exists [].
  - cbn. destruct (handle_writes X e g l) as [ws1 Hws1].
    destruct (handle X e g l) as [[x g1] l1]. cbn in Hws1.
    destruct (IH x g1 l1) as [ws2 Hws2].
    destruct (run handle (k x) g1 l1) as [[[o g2] l2] t]. cbn in *.
    exists (ws1 ++ ws2). by rewrite writes_app, <- Hws1.
Qed.
End DashboardWrites.

(** ** Invariants of the record store *)

Section StoreClaims.
Import RecordStore Lifecycle.

(** C5: along any sequence of attempts on the store (inserts and
    compare-and-sets with any version and any mutation) the status of a
    record never goes back, each attempt leaves it where it is or moves
    it to the next stage, and a compare-and-set whose mutation asks for
    an earlier stage or skips one is rejected and changes nothing. *)
Theorem status_only_moves_forward (l : list Attempt) st i r :
  get i st = Some r →
  ∃ r1,
    get i (attempts l st) = Some r1
    ∧ rank (status r) ≤ rank (status r1)
    ∧ (∀ a, ∃ r2,
         get i (attempts (l ++ [a]) st) = Some r2
         ∧ (r2 = r1 ∨ rank (status r2) = rank (status r1) + 1))
    ∧ (∀ ver m,
         rank (m r1).1 < rank (status r1) ∨ rank (status r1) + 1 < rank (m r1).1 →
         ∃ e, compareAndSet i ver m (attempts l st) = (inl e, attempts l st)).
Proof.
  intros Hg.
  destruct (attempts_status l st i r Hg) as (r1 & Hg1 & Hle & _).
  exists r1. split; [done|]. split; [done|]. split.
  - intros a. unfold attempts. rewrite foldl_app. cbn.
    destruct (attempt_status (foldl attempt st l) a i r1 Hg1) as (r2 & Hg2 & Hr2).
    exists r2. split; [done|]. destruct Hr2 as [->|[? _]]; auto.
  - intros ver m Hbad.
    destruct (compareAndSet_cases i ver m (attempts l st) r1 Hg1)
      as [[_ ->]|[(_&_&->)|(_&Hf&_)]]; eauto.
    apply bool_decide_eq_true_1 in Hf. lia.
Qed.

(** C6: a compare-and-set whose expected version is not the stored one
    is rejected with [VersionConflict] carrying the stored record, and the
    store is unchanged; an accepted one was submitted against the stored
    version and leaves the record exactly one version later. *)
Theorem stale_version_rejected i ver m st r :
  get i st = Some r →
  (ver ≠ version r →
   compareAndSet i ver m st = (inl (VersionConflict r), st))
  ∧ (∀ r' st',
       compareAndSet i ver m st = (inr r', st') →
       ver = version r ∧ version r' = version r + 1 ∧ get i st' = Some r').
Proof.
  intros Hg.
  destruct (compareAndSet_cases i ver m st r Hg)
    as [[Hv ->]|[(Hv&_&->)|(Hv&_&->)]].
  - split; [done|]. intros r' st' [=].
  - split; [congruence|]. intros r' st' [=].
  - split; [congruence|]. intros r' st' [= <- <-].
    split; [done|]. split; [done|]. apply lookup_insert_eq.
Qed.

Lemma verified_frozen st a i r :
  get i st = Some r → status r = Verified → get i (attempt st a) = Some r.
Proof.
  intros Hg Hs. destruct (attempt_status st a i r Hg) as (r' & Hg' & [->|[Hr _]]);
    [done|].
  rewrite Hs in Hr. destruct (status r'); cbn in Hr; lia.
Qed.

Lemma verified_frozen_all l st i r :
  get i st = Some r → status r = Verified → get i (attempts l st) = Some r.
Proof.
  revert st. induction l as [|a l IH]; intros st Hg Hs; [done|].
  cbn. apply IH; [|done]. by apply verified_frozen.
Qed.

Lemma write_well_formed st w :
  well_formed st → well_formed (attempt st (submit w)).
Proof.
  intros Hwf j rj Hj. destruct w as [n|i ver|i ver v]; cbn in Hj.
  - unfold insert in Hj. destruct (records st !! new_id n) eqn:Hn; cbn in Hj.
    + by apply (Hwf j).
    + destruct (decide (new_id n = j)) as [<-|Hne].
      * rewrite lookup_insert_eq in Hj. by injection Hj as <-.
      * rewrite lookup_insert_ne in Hj by done. by apply (Hwf j).
  - destruct (decide (i = j)) as [->|Hne].
    + destruct (get j st) as [r|] eqn:Hg.
      * destruct (compareAndSet_cases j ver toPending st r Hg)
          as [[_ Hc]|[(_&_&Hc)|(_&Hf&Hc)]]; rewrite Hc in Hj; cbn in Hj;
          try (by apply (Hwf j)).
        rewrite lookup_insert_eq in Hj. injection Hj as <-.
        intros _. cbn. apply (Hwf j r Hg).
        apply forward_spec in Hf as [[-> _]|[_ [=]]]. done.
      * rewrite compareAndSet_unknown in Hj by done. by apply (Hwf j).
    + pose proof (compareAndSet_other i ver toPending st j Hne) as Ho.
      unfold get in Ho. rewrite Ho in Hj. by apply (Hwf j).
  - destruct (decide (i = j)) as [->|Hne].
    + destruct (get j st) as [r|] eqn:Hg.
      * destruct (compareAndSet_cases j ver (toVerified v) st r Hg)
          as [[_ Hc]|[(_&_&Hc)|(_&Hf&Hc)]]; rewrite Hc in Hj; cbn in Hj;
          try (by apply (Hwf j)).
        rewrite lookup_insert_eq in Hj. injection Hj as <-.
        intros Hs. by cbn in Hs.
      * rewrite compareAndSet_unknown in Hj by done. by apply (Hwf j).
    + pose proof (compareAndSet_other i ver (toVerified v) st j Hne) as Ho.
      unfold get in Ho. rewrite Ho in Hj. by apply (Hwf j).
Qed.

Lemma writes_well_formed l st : well_formed st → well_formed (writes l st).
Proof.
  revert st. induction l as [|w l IH]; intros st Hwf; [done|].
  apply IH. by apply write_well_formed.
Qed.

End StoreClaims.

(** ** Concurrent verification requests *)

Section SumFacts.
Lemma sum_list_insert (ws : list nat) j w w' :
  ws !! j = Some w → (sum_list (<[j := w']> ws) + w = sum_list ws + w')%nat.
Proof.
  revert j. induction ws as [|x ws IH]; intros [|j] Hj; try done.
  - injection Hj as ->. cbn. lia.
  - specialize (IH j Hj).
    change (<[S j := w']> (x :: ws)) with (x :: <[j := w']> ws).
    cbn [sum_list sum_list_with]. unfold id at 1 3. lia.
Qed.
Lemma sum_map_insert {A} (f : A → nat) (l : list A) j x y :
  l !! j = Some x →
  (sum_list (map f (<[j := y]> l)) + f x = sum_list (map f l) + f y)%nat.
Proof.
  revert j. induction l as [|a l IH]; intros [|j] Hj; try done.
  - injection Hj as ->. cbn. lia.
  - specialize (IH j Hj).
    change (<[S j := y]> (a :: l)) with (a :: <[j := y]> l).
    cbn [map sum_list sum_list_with]. unfold id at 1 3. lia.
Qed.

End SumFacts.

Section Progress.
Context {E : Type → Type} {S L R : Type}.
Variable h : ∀ X, E X → S → L → X * S * L.

(** A configuration in which some caller has not finished can move. *)
Lemma finished_or_step (c : Config (E := E) (S := S) (L := L) R) :
  Forall (λ t, finished t = true) (threads c) ∨ ∃ c', step h c c'.
Proof.
  destruct (decide (Forall (λ t, finished t = true) (threads c))) as [|Hn];
    [by left | right].
  apply not_Forall_Exists in Hn; [|apply _].
  apply Exists_exists in Hn as (t & Hin & Ht).
  apply list_elem_of_lookup in Hin as [j Hj].
  unfold step, step_thread. exists
    (match code t with
     | Vis e k =>
         let '(x, s', l') := h _ e (shared c) (session t) in
         mkConfig s' (<[j := mkThread (k x) l' (history t ++ [ev e x])]> (threads c))
     | _ => c
     end), j.
  rewrite Hj. unfold compose, finished in Ht. cbn beta in Ht.
  destruct (code t) as [| |X e k]; [done..|].
  by destruct (h X e (shared c) (session t)) as [[x s'] l'].
Qed.
End Progress.

Section RaceFacts.
Import RecordStore App Race.
Context `{ConfidentialComputeProvider}.
Variables (businessId : string) (g0 : Ledger) (r0 : Record_) (v : Z)
          (dp : Proof_).
Hypothesis Hrecord : get businessId (store g0) = Some r0.
Hypothesis Hstatus : status r0 ≠ Verified.
Hypothesis Hclear :
  requestClearValue [ciphertextHandle r0] (deployedAt g0)
  = Some ({[ciphertextHandle r0 := v]}, dp).
Hypothesis Hsafe : 0 ≤ v < 2 ^ 53.

#[local] Abbreviation gV := (committed businessId g0 r0 v).
#[local] Abbreviation Tail' := (Tail businessId g0 r0 v).
#[local] Abbreviation Ok' := (Ok businessId g0 r0 v).
#[local] Abbreviation race_inv' := (race_inv businessId g0 r0 v).
#[local] Abbreviation thread :=
  (Thread (E := Call) (L := Session) (option JS.number)).
#[local] Abbreviation config :=
  (Config (E := Call) (S := Ledger) (L := Session) (option JS.number)).

Lemma committed_record :
  get businessId (store gV) = Some (verifiedRecord r0 v).
Proof. unfold committed, get. cbn. apply lookup_insert_eq. Qed.

Lemma committed_ne : g0 ≠ gV.
Proof.
  intros Heq. pose proof committed_record as Hv. rewrite <- Heq, Hrecord in Hv.
  injection Hv as Hv. apply (f_equal status) in Hv. by cbn in Hv.
Qed.

(** No call changes what a session can obtain. *)
Lemma handle_session_ok X (e : Call X) g l :
  session_ok l → session_ok (handle X e g l).2.
Proof.
  intros Hl. destruct e; cbn; try done.
  - by destruct (contract_createBusinessData _ _ _ _ _ _ _ _).
  - by destruct (contract_verifyDecryption _ _ _ _ _).
Qed.

(** A call that is not a transaction leaves the ledger as it is. *)
Lemma handle_reads X (e : Call X) g l :
  (∀ x, is_write (ev e x) = false) → (handle X e g l).1.2 = g.
Proof.
  intros Hq. destruct e; try done.
  - specialize (Hq (inl JS.Nullish)). discriminate Hq.
  - specialize (Hq (inl JS.Nullish)). discriminate Hq.
Qed.

Lemma reads_submit X (e : Call X) x :
  is_write (ev e x) = false →
  submissionAccepted (ev e x) = false ∧ submissionRejected (ev e x) = false.
Proof. by destruct e. Qed.

Lemma Tail_mono {R} n n' (P Q : Outcome R → Prop) p :
  Tail' n P p → (n ≤ n')%nat → (∀ o, P o → Q o) → Tail' n' Q p.
Proof.
  intros Hp Hn HPQ. revert n n' Hp Hn.
  induction p as [r|err|X e k IH]; intros n n' Hp Hn; cbn in *;
    [by apply HPQ..|].
  destruct n as [|n]; [done|]. destruct n' as [|n']; [lia|].
  destruct Hp as [Hq Hk]. split; [done|].
  intros g l Hg. apply (IH _ n); [by apply Hk | lia].
Qed.

Lemma Tail_bind {A B} n m (P : Outcome A → Prop) (Q : Outcome B → Prop)
    p (f : A → Async B) :
  Tail' n P p →
  (∀ r, P (Returned r) → Tail' m Q (f r)) →
  (∀ err, P (Thrown err) → Q (Thrown err)) →
  Tail' (n + m) Q (bind p f).
Proof.
  intros Hp Hf Herr. revert n Hp.
  induction p as [r|err|X e k IH]; intros n Hp; cbn in *.
  - eapply Tail_mono; [by apply Hf | lia | done].
  - by apply Herr.
  - destruct n as [|n]; [done|]. destruct Hp as [Hq Hk]. split; [done|].
    intros g l Hg. apply IH. by apply Hk.
Qed.

Lemma Tail_try_catch {A} n m (P Q : Outcome A → Prop) p
    (h : JS.Error → Async A) :
  Tail' n P p →
  (∀ r, P (Returned r) → Q (Returned r)) →
  (∀ err, P (Thrown err) → Tail' m Q (h err)) →
  Tail' (n + m) Q (try_catch p h).
Proof.
  intros Hp Hr Hh. revert n Hp.
  induction p as [r|err|X e k IH]; intros n Hp; cbn in *.
  - by apply Hr.
  - eapply Tail_mono; [by apply Hh | lia | done].
  - destruct n as [|n]; [done|]. destruct Hp as [Hq Hk]. split; [done|].
    intros g l Hg. apply IH. by apply Hk.
Qed.

(** A [finally] block of one call that only reads. *)
Lemma Tail_try_finally {A} n (P : Outcome A → Prop) p (e : Call unit) :
  (∀ x, is_write (ev e x) = false) →
  Tail' n P p →
  Tail' (S n) P (try_finally p (perform e)).
Proof.
  intros He Hp. revert n Hp.
  induction p as [r|err|X e' k IH]; intros n Hp; cbn in *.
  - done.
  - done.
  - destruct n as [|n]; [done|]. destruct Hp as [Hq Hk]. split; [done|].
    intros g l Hg. apply IH. by apply Hk.
Qed.

Lemma Tail_loadItems contract businessIds itemsList :
  Tail' (2 * length businessIds)
    (λ o, ∃ r, o = Returned r) (loadItems contract businessIds itemsList).
Proof.
  revert itemsList. induction businessIds as [|b rest IH]; intros itemsList.
  - cbn. by eexists.
  - cbn [length]. replace (2 * S (length rest))%nat
      with (S (S (2 * length rest))) by lia.
    cbn [loadItems]. unfold mbind, Prog_bind.
    cbn [bind perform await try_catch Tail]. split; [done|].
    intros g l _. destruct (handle _ _ g l).1.1 as [err|businessData].
    + cbn [bind perform await try_catch Tail]. split; [done|].
      intros g' l' _. cbn [bind try_catch]. apply IH.
    + cbn [bind perform await try_catch].
      eapply Tail_mono; [apply IH | lia | done].
Qed.

Lemma Tail_loadSupplyChainData c :
  Tail' (3 + 2 * length (ids (store g0)))
    (λ o, o = Returned tt) (loadSupplyChainData c).
Proof.
  unfold loadSupplyChainData. destruct (negb (isConnected c)); [done|].
  unfold mbind, Prog_bind. cbn [bind perform await try_catch Tail Nat.add].
  split; [done|]. intros g l _.
  destruct (handle _ GetContractReadOnly g l).1.1 as [contract|]; [|done].
  cbn [bind perform await try_catch Tail]. split; [done|].
  intros g' l' Hg'.
  assert ((handle _ (GetAllBusinessIds contract) g' l').1.1
          = inr (ids (store g0))) as ->.
  { by destruct Hg' as [->| ->]. }
  cbn [bind perform await try_catch].
  replace (S (2 * length (ids (store g0))))
    with (2 * length (ids (store g0)) + 1 + 0)%nat by lia.
  eapply (Tail_try_catch _ _ (λ o, o = Returned tt)); [| |].
  - eapply Tail_bind; [apply Tail_loadItems| |].
    + intros items _. cbn [perform Tail Nat.add]. split; [done|]. by intros g1 l1 _.
    + intros err [r Hr]. discriminate Hr.
  - done.
  - intros err Herr. discriminate Herr.
Qed.

(** A call that only reads, made at any point. *)
Lemma ok_reads n known rejected X (e : Call X) k :
  (∀ x, is_write (ev e x) = false) →
  (∀ g l,
     g = g0 ∨ g = gV → (known = true → g = gV) → session_ok l →
     Ok' n known rejected (k (handle X e g l).1.1)) →
  Ok' (S n) known rejected (Vis e k).
Proof.
  intros Hq Hk. cbn [Ok]. intros g l Hg Hb Hl. exists known.
  rewrite (handle_reads X e g l Hq).
  destruct (reads_submit X e (handle X e g l).1.1 (Hq _)) as [-> ->].
  rewrite orb_false_r. split; [by left|]. split; [done|]. by apply Hk.
Qed.

(** Once the caller has seen the record verified, what is left only
    reads. *)
Lemma ok_tail n (rejected : bool) p :
  Tail' n (λ o, o = Returned (if rejected then None else Some (JS.Num v))) p →
  Ok' n true rejected p.
Proof.
  revert n. induction p as [r|err|X e k IH]; intros n Hp; cbn in Hp.
  - injection Hp as ->. done.
  - discriminate Hp.
  - destruct n as [|n]; [done|]. destruct Hp as [Hq Hk].
    apply ok_reads; [done|]. intros g l Hg _ _. apply IH. by apply Hk.
Qed.

(** The suffix of [decryptItemData] after an accepted submission. *)
Lemma Tail_accepted c (clearValue : option Z) :
  Tail' (7 + 2 * length (ids (store g0)))
    (λ o, o = Returned (Some (JS.Number_of_opt clearValue)))
    (try_finally
       (try_catch
          (perform (SetTransactionStatus
                      (pending_toast "Verifying decryption on-chain..."));;
           loadSupplyChainData c;;
           perform (SetTransactionStatus
                      (success_toast "Data decrypted and verified successfully!"));;
           perform (SetTimeout TransactionStatus.hidden 2000);;
           Ret (Some (JS.Number_of_opt clearValue)))
          (decryptItemData_catch c))
       (perform (SetIsDecrypting false))).
Proof.
  replace (7 + 2 * length (ids (store g0)))%nat
    with (S (1 + (3 + 2 * length (ids (store g0)) + 2) + 0))%nat by lia.
  apply Tail_try_finally; [done|].
  eapply (Tail_try_catch _ _
            (λ o, o = Returned (Some (JS.Number_of_opt clearValue))));
    [|done|intros err Herr; discriminate Herr].
  unfold mbind, Prog_bind.
  eapply (Tail_bind _ _ (λ o, o = Returned tt));
    [by cbn| |intros err Herr; discriminate Herr].
  intros _ _.
  eapply (Tail_bind _ _ (λ o, o = Returned tt));
    [apply Tail_loadSupplyChainData| |intros err Herr; discriminate Herr].
  intros _ _. by cbn.
Qed.

(** The suffix of [decryptItemData] after a submission rejected because
    the record is verified. *)
Lemma Tail_rejected c :
  Tail' (7 + 2 * length (ids (store g0)))
    (λ o, o = Returned None)
    (try_finally
       (decryptItemData_catch c
          (JS.error "execution reverted: Data already verified"))
       (perform (SetIsDecrypting false))).
Proof.
  replace (7 + 2 * length (ids (store g0)))%nat
    with (S (S (S (S (3 + 2 * length (ids (store g0)) + 0)))))%nat by lia.
  apply Tail_try_finally; [done|].
  unfold decryptItemData_catch. cbn [JS.nullish JS.error].
  replace (JS.message_includes _ _) with true by (vm_compute; reflexivity).
  unfold mbind, Prog_bind. cbn [bind perform Tail].
  split; [done|]. intros _ _ _. split; [done|]. intros _ _ _.
  eapply Tail_mono; [|apply Nat.le_succ_diag_r|done].
  eapply (Tail_bind _ _ (λ o, o = Returned tt));
    [apply Tail_loadSupplyChainData| |intros err Herr; discriminate Herr].
  intros _ _. by cbn.
Qed.

(** [decryptItemData] from its first call: whatever the others do, it
    makes at most one submission, which is accepted only on the initial
    ledger, and it ends within the bound. *)
Lemma ok_decryptItemData c :
  isConnected c = true → not_string (address c) = false →
  contractAddress c = deployedAt g0 →
  Ok' (callBound g0) false false (decryptItemData c businessId).
Proof.
  intros Hc Ha Hdep. unfold decryptItemData, callBound.
  rewrite Hc, Ha. cbn [negb orb Nat.add].
  unfold decryptItemData_try, verifyDecryption, mbind, Prog_bind.
  cbn [bind perform await try_catch try_finally].
  apply ok_reads; [done|]. intros _ _ _ _ _.
  apply ok_reads; [done|]. intros g l _ _ [Hro _].
  cbn [handle fst snd]. rewrite Hro.
  cbn [bind perform await try_catch try_finally].
  (* the read of the record *)
  cbn [Ok]. intros g1 l1 Hg1 _ [_ [s Hs]].
  cbn [handle fst snd]. unfold contract_getBusinessData.
  destruct Hg1 as [-> | ->].
  2:{ (* verified already: the stored value is returned *)
    exists true. rewrite committed_record.
    cbn [submissionAccepted submissionRejected ev orb].
    split; [by left|]. split; [done|].
    cbn [bind perform await try_catch try_finally].
    cbn [view BusinessData.isVerified BusinessData.decryptedValue].
    rewrite bool_decide_eq_true_2 by done.
    cbn [bind perform await try_catch try_finally
         RecordStore.clearValue verifiedRecord default].
    rewrite or0_Number by done.
    apply ok_tail. cbn [Tail]. split; [done|]. intros _ _ _.
    split; [done|]. intros _ _ _. split; [done|]. by intros _ _ _. }
  exists false. rewrite Hrecord.
  cbn [submissionAccepted submissionRejected ev orb].
  split; [by left|]. split; [done|].
  cbn [bind perform await try_catch try_finally].
  cbn [view BusinessData.isVerified]. rewrite bool_decide_eq_false_2 by done.
  cbn [bind perform await try_catch try_finally].
  apply ok_reads; [done|]. intros g2 l2 _ _ [_ [s2 Hs2]].
  cbn [handle fst snd]. rewrite Hs2.
  cbn [bind perform await try_catch try_finally].
  apply ok_reads; [done|]. intros g3 l3 Hg3 _ _.
  assert ((handle _ (GetEncryptedValue (mkContract None) businessId) g3 l3).1.1
          = inr (ciphertextHandle r0)) as ->.
  { cbn [handle fst snd]. unfold contract_getEncryptedValue.
    destruct Hg3 as [-> | ->]; [by rewrite Hrecord | by rewrite committed_record]. }
  cbn [bind perform await try_catch try_finally].
  apply ok_reads; [done|]. intros g4 l4 _ _ _.
  cbn [handle fst snd]. rewrite Hdep, Hclear.
  cbn [bind perform await try_catch try_finally].
  rewrite omap_singleton_lookup.
  (* the submission *)
  cbn [Ok]. intros g5 l5 Hg5 _ _. cbn [handle].
  destruct Hg5 as [-> | ->].
  - rewrite (contract_verifyDecryption_accepted s2 businessId v dp g0 r0)
      by first [done | by apply (proof_complete _ _ _ _ Hclear)].
    cbn [fst snd submissionAccepted submissionRejected ev orb].
    exists true. split; [by right|]. split; [done|].
    cbn [bind perform await try_catch try_finally].
    apply ok_tail.
    pose proof (Tail_accepted c
                  (({[ciphertextHandle r0 := v]} : gmap Handle Z)
                     !! ciphertextHandle r0)) as Ht.
    rewrite lookup_singleton_eq in Ht. cbn [JS.Number_of_opt] in Ht.
    unfold JS.Number_of_bigint in Ht. rewrite toDouble_exact in Ht by lia.
    unfold mbind, Prog_bind in Ht.
    cbn [bind perform await try_catch try_finally clearValues] in Ht |- *.
    rewrite lookup_singleton_eq. cbn [JS.Number_of_opt].
    unfold JS.Number_of_bigint. rewrite toDouble_exact by lia.
    exact Ht.
  - rewrite (contract_verifyDecryption_verified s2 businessId [v] dp gV
               (verifiedRecord r0 v)) by first [apply committed_record | done].
    cbn [fst snd submissionAccepted submissionRejected ev orb].
    exists true. split; [by left|]. split; [done|].
    cbn [bind perform await try_catch try_finally].
    apply ok_tail. apply Tail_rejected.
Qed.

Lemma count_single (a : @Ev Call) hst :
  length (List.filter submissionAccepted (hst ++ [a]))
  = (length (List.filter submissionAccepted hst)
     + if submissionAccepted a then 1 else 0)%nat.
Proof.
  rewrite List.filter_app, length_app. cbn.
  by destruct (submissionAccepted a).
Qed.

Lemma lost_snoc (t : thread) (a : @Ev Call) (p : Async (option JS.number)) l :
  lost (mkThread p l (history t ++ [a])) = lost t || submissionRejected a.
Proof. unfold lost. cbn. rewrite existsb_app. cbn. by rewrite orb_false_r. Qed.

Lemma race_inv_init callers :
  Forall (caller_ok g0) callers →
  race_inv' 0 (race businessId g0 callers).
Proof.
  intros Hcs. exists false, (replicate (length callers) (callBound g0)).
  split; [done|]. split; [|split].
  - unfold commits, race. cbn [threads]. clear Hcs.
    induction callers as [|a cs IH]; [done|]. cbn in *. by rewrite IH.
  - cbn. induction Hcs as [|[c l] cs (Hc & Ha & Hdep & Hl) _ IH]; cbn;
      constructor; [|done].
    exists false. cbn. split; [by apply ok_decryptItemData|]. by split.
  - cbn [race threads]. rewrite length_map. clear Hcs.
    generalize (callBound g0). intros b.
    induction callers as [|a cs IH]; [cbn; lia|]. cbn in *. lia.
Qed.

Lemma race_inv_step k c c' :
  race_inv' k c → step handle c c' → race_inv' (S k) c'.
Proof.
  intros (verified & ws & Hsh & Hcom & Hts & Hpot) [j Hj].
  unfold step_thread in Hj.
  destruct (threads c !! j) as [t|] eqn:Htj; [|done].
  destruct (Forall2_lookup_l _ _ _ _ _ Hts Htj)
    as (w & Hwj & known & Hok & Hknown & Hl).
  destruct (code t) as [| |X e k0] eqn:Hcode; [done..|].
  cbn [Ok] in Hok. destruct w as [|w]; [done|].
  destruct (Hok (shared c) (session t)) as (known' & Hmove & Hknown' & Hok').
  { rewrite Hsh. destruct verified; [by right | by left]. }
  { intros ->. by rewrite Hsh, Hknown. }
  { done. }
  pose proof (handle_session_ok X e (shared c) (session t) Hl) as Hl'.
  destruct (handle X e (shared c) (session t)) as [[x g1] l1].
  cbn [fst snd] in Hmove, Hknown', Hok', Hl'. injection Hj as <-.
  pose proof (sum_map_insert
                (λ t : thread, length (List.filter submissionAccepted (history t)))
                (threads c) j t
                (mkThread (k0 x) l1 (history t ++ [ev e x])) Htj) as Hsum.
  cbn [history] in Hsum. rewrite count_single in Hsum.
  pose proof (sum_list_insert ws j (S w) w Hwj) as Hws.
  destruct Hmove as [[-> Hacc] | (Hg0 & -> & Hacc)].
  - exists verified, (<[j := w]> ws). cbn [shared threads].
    split; [done|]. split; [|split].
    + unfold commits in *. cbn [threads]. rewrite Hacc in Hsum. lia.
    + apply Forall2_insert; [done|].
      exists known'. cbn [code session]. rewrite lost_snoc.
      split; [done|]. split; [|done].
      intros Hk. specialize (Hknown' Hk). rewrite Hsh in Hknown'.
      destruct verified; [done|]. by destruct (committed_ne).
    + rewrite length_insert. lia.
  - assert (verified = false) as ->.
    { destruct verified; [|done]. rewrite Hsh in Hg0.
      by destruct (committed_ne). }
    exists true, (<[j := w]> ws). cbn [shared threads].
    split; [done|]. split; [|split].
    + unfold commits in *. cbn [threads]. rewrite Hacc in Hsum. lia.
    + apply Forall2_insert.
      * eapply Forall2_impl; [done|].
        intros t' w' (kn & ? & ? & ?). exists kn. by split.
      * exists known'. cbn [code session]. rewrite lost_snoc. by split.
    + rewrite length_insert. lia.
Qed.

Lemma race_inv_nsteps c c' k' :
  nsteps (step handle) k' c c' → ∀ k, race_inv' k c → race_inv' (k + k') c'.
Proof.
  induction 1 as [|k' c c1 c' Hstep _ IH]; intros k Hinv.
  - by rewrite Nat.add_0_r.
  - replace (k + S k')%nat with (S k + k')%nat by lia.
    apply IH. by eapply race_inv_step.
Qed.

Lemma race_length (c c' : config) k :
  nsteps (step handle) k c c' → length (threads c') = length (threads c).
Proof.
  induction 1 as [|k c c1 c' [j Hj] _ IH]; [done|].
  rewrite IH. unfold step_thread in Hj.
  destruct (threads c !! j) as [t|]; [|done].
  destruct (code t) as [| |X e k0]; [done..|].
  destruct (handle X e (shared c) (session t)) as [[x g1] l1].
  injection Hj as <-. cbn. by rewrite length_insert.
Qed.

Lemma race_inv_record k c :
  race_inv' k c →
  (get businessId (store (shared c)) = Some r0 ∧ commits c = 0%nat)
  ∨ (get businessId (store (shared c)) = Some (verifiedRecord r0 v)
     ∧ commits c = 1%nat).
Proof.
  intros (verified & ws & -> & -> & _). destruct verified.
  - right. split; [apply committed_record | done].
  - left. by split.
Qed.

Lemma race_inv_finished k c :
  race_inv' k c → Forall (λ t, finished t = true) (threads c) →
  threads c ≠ [] →
  commits c = 1%nat
  ∧ get businessId (store (shared c)) = Some (verifiedRecord r0 v)
  ∧ Forall (λ t, result t
                 = Some (Returned (if lost t then None else Some (JS.Num v))))
      (threads c).
Proof.
  intros (verified & ws & Hsh & Hcom & Hts & _) Hfin Hne.
  assert (Forall (λ t : thread,
                    verified = true
                    ∧ result t
                      = Some (Returned (if lost t then None else Some (JS.Num v))))
            (threads c)) as Hall.
  { clear Hcom Hne. induction Hts as [|t w ts ws' (kn & Hok & Hkn & _) _ IH];
      [constructor|].
    apply Forall_cons in Hfin as [Ht Hfin].
    constructor; [|by apply IH].
    unfold finished in Ht. unfold result.
    destruct (code t) as [r| |]; [|done..].
    cbn in Hok. destruct Hok as [-> ->]. by split; [apply Hkn|]. }
  assert (verified = true) as ->.
  { destruct (threads c) as [|t ts]; [done|].
    by apply Forall_cons in Hall as [[-> _] _]. }
  split; [done|]. split; [rewrite Hsh; apply committed_record|].
  eapply Forall_impl; [done|]. by intros ? [_ ?].
Qed.

End RaceFacts.

Section RaceClaim.
Import RecordStore App Race.
Context `{ConfidentialComputeProvider}.

End RaceClaim.

(** ** The reference provider is a provider *)

Section ByteProviderFacts.
Import RecordStore ByteProvider.

Lemma byte_maxValue_safe : 0 ≤ 255 < 2 ^ 53.
Proof. lia. Qed.

Lemma byte_encrypt_in_domain v ctx : 0 ≤ v ≤ 255 → is_Some (byte_encrypt v ctx).
Proof.
  intros Hv. unfold byte_encrypt. rewrite bool_decide_eq_true_2 by done. eauto.
Qed.

Lemma byte_encrypt_malformed v ctx : ¬ (0 ≤ v ≤ 255) → byte_encrypt v ctx = None.
Proof. intros Hv. unfold byte_encrypt. by rewrite bool_decide_eq_false_2. Qed.

Lemma decode_byteHandle v : 0 ≤ v ≤ 255 → decodeHandle (byteHandle v) = Some v.
Proof.
  intros Hv. unfold decodeHandle, byteHandle. f_equal.
  rewrite N_ascii_embedding by lia. lia.
Qed.

Lemma byte_clear_of_encrypt v ctx h p :
  byte_encrypt v ctx = Some (h, p) →
  ∃ dp, byte_requestClearValue [h] (ctx_contract ctx) = Some ({[h := v]}, dp).
Proof.
  unfold byte_encrypt. case_bool_decide; [|done]. intros [= <- <-].
  exists "decryption-proof". unfold byte_requestClearValue.
  cbn [mapM]. rewrite decode_byteHandle by done. reflexivity.
Qed.

Lemma byte_proof_complete hs c cv dp :
  byte_requestClearValue hs c = Some (cv, dp) → byte_verifyProof dp cv c = true.
Proof.
  unfold byte_requestClearValue, byte_verifyProof.
  destruct (mapM decodeHandle hs) as [vs|] eqn:Hm; [|done].
  intros [= <- <-]. apply mapM_Some in Hm.
  apply andb_true_intro; split; [done|].
  apply bool_decide_eq_true_2. intros h v Hl.
  apply elem_of_list_to_map_2 in Hl.
  induction Hm as [|x y l k Hxy _ IH]; [by apply elem_of_nil in Hl|].
  cbn in Hl. apply elem_of_cons in Hl as [[= -> ->]|Hl]; auto.
Qed.
End ByteProviderFacts.

#[export] Instance byteProvider : ConfidentialComputeProvider := {|
  maxValue := 255;
  encrypt := ByteProvider.byte_encrypt;
  requestClearValue := ByteProvider.byte_requestClearValue;
  verifyProof := ByteProvider.byte_verifyProof;
  maxValue_safe := byte_maxValue_safe;
  encrypt_in_domain := byte_encrypt_in_domain;
  encrypt_malformed := byte_encrypt_malformed;
  clear_of_encrypt := byte_clear_of_encrypt;
  proof_complete := byte_proof_complete
|}.

(** ** The claims on concrete inputs *)

Section Instances.
Import RecordStore App Scenario.

Lemma create_then_verify_round_trip_witness :
  ∃ g1 l1 t1 g2 l2 t2 r,
    exec (createSupplyChainItem renderA) ledger0 alice = (Returned tt, g1, l1, t1)
    ∧ widgetId ∈ ids (store g1)
    ∧ exec (decryptItemData renderB widgetId) g1 bob
      = (Returned (Some (JS.Num 42)), g2, l2, t2)
    ∧ get widgetId (store g2) = Some r
    ∧ status r = Verified ∧ clearValue r = Some 42 ∧ ownerId r = "0xA11CE".
Proof.
  apply (create_then_verify_round_trip renderA alice "0xA11CE" "0xA11CE"
           renderB bob "0xB0B" "0xB0B" ledger0 42);
    first [reflexivity | discriminate | (cbv [in_domain maxValue byteProvider]; lia)].
Defined.

Lemma verified_short_circuit_witness :
  (∃ o g' l' t,
     exec (decryptItemData renderB widgetId) ledgerVerified bob = (o, g', l', t)
     ∧ ∀ businessData,
         dataRead <$> t !! 2%nat = Some (Some (widgetId, businessData)) →
         BusinessData.isVerified businessData = true →
         o = Returned (Some (JS.Num (JS.or0 (JS.Number_of_bigint
                              (BusinessData.decryptedValue businessData)))))
         ∧ length t = 6%nat
         ∧ Forall (λ e, is_crypto e = false ∧ is_write e = false) t)
  ∧ ∃ l' t,
      repeatDecrypt renderB widgetId 3 ledgerVerified bob
      = (replicate 3 (Returned (Some (JS.Num 42))), ledgerVerified, l', t)
      ∧ Forall (λ e, is_crypto e = false ∧ is_write e = false) t
      ∧ version <$> get widgetId (store ledgerVerified) = Some 2.
Proof.
  apply (verified_short_circuit handle ledgerVerified bob renderB widgetId
           ledgerVerified bob (verifiedRecord widget 42) 42 3);
    first [reflexivity | lia].
Defined.

Lemma decryptItemData_without_wallet_witness :
  (∃ g' l' t,
     exec (decryptItemData renderOff widgetId) ledgerCreated alice
     = (Returned None, g', l', t)
     ∧ calls t
       = [call (SetTransactionStatus (error_toast "Please connect wallet first"));
          call (SetTimeout TransactionStatus.hidden 3000)])
  ∧ exec (decryptItemData renderOff widgetId) ledgerCreated alice
    = (Returned None, ledgerCreated,
       with_toast alice (error_toast "Please connect wallet first") 3000,
       [ev (SetTransactionStatus (error_toast "Please connect wallet first")) tt;
        ev (SetTimeout TransactionStatus.hidden 3000) tt]).
Proof.
  apply (decryptItemData_without_wallet handle renderOff widgetId
           ledgerCreated alice ledgerCreated alice).
  left. reflexivity.
Defined.

(** C4 fails as stated: "-5" typed in the value field is outside the
    provider's domain, and yet [createSupplyChainItem] reports success
    and a record holding the encryption of 5 is in the store. *)
Lemma negative_input_creates_record :
  ¬ in_domain (-5)
  ∧ ∃ g1 l1 t1 r,
      exec (createSupplyChainItem renderMinus5) ledger0 alice
      = (Returned tt, g1, l1, t1)
      ∧ transactionStatus (ui l1)
        = success_toast "Supply chain item created successfully!"
      ∧ get widgetId (store g1) = Some r
      ∧ ciphertextHandle r = ByteProvider.byteHandle 5.
Proof.
  split; [cbv [in_domain maxValue byteProvider]; lia|].
  eexists _, _, _, _. split; [vm_compute; reflexivity|].
  split; [reflexivity|]. split; [vm_compute; reflexivity | reflexivity].
Qed.

Lemma create_reduces_input_to_digits_witness :
  let v := itemValueOf (formData renderMinus5) in
  v = 5 ∧ 0 ≤ v
  ∧ (∃ o g' l' t,
       exec (createSupplyChainItem renderMinus5) ledger0 alice
       = (o, g', l', t)
       ∧ encryptsFormValue renderMinus5 t
       ∧ onlyTypeError o t)
  ∧ ∃ h p g1 l1 t1 r,
      encrypt v (mkContext "0xC0FFEE" "0xA11CE") = Some (h, p)
      ∧ exec (createSupplyChainItem renderMinus5) ledger0 alice
        = (Returned tt, g1, l1, t1)
      ∧ get widgetId (store g1) = Some r
      ∧ ciphertextHandle r = h ∧ status r = Created
      ∧ clearValue r = None ∧ version r = 0.
Proof.
  destruct (create_reduces_input_to_digits handle ledger0 alice
              renderMinus5 ledger0 alice "0xA11CE" "0xA11CE"
              (handleChange NewItemData.initial "name" "Widget") "-5")
    as (Hv & Hpos & Hany & Hin & _); try reflexivity; try discriminate;
    [vm_compute; lia|].
  split; [exact Hv|]. split; [exact Hpos|]. split; [exact Hany|].
  apply Hin. cbv. split; discriminate.
Defined.


(** C3 fails as stated: Bob commits the clear value 42 first; Alice's
    submission is rejected, her status says success, and her call returns
    [null], not the committed 42. *)
Lemma lost_race_returns_null :
  result <$> threads aliceThenBob
  = [Some (Returned None); Some (Returned (Some (JS.Num 42)))]
  ∧ get widgetId (store (shared aliceThenBob)) = Some (verifiedRecord widget 42)
  ∧ clearValue (verifiedRecord widget 42) = Some 42
  ∧ (transactionStatus ∘ ui ∘ session) <$> threads aliceThenBob !! 0%nat
    = Some (success_toast "Data is already verified on-chain")
  ∧ result <$> threads aliceThenBob !! 0%nat
    ≠ Some (Some (Returned (Some (JS.Num 42)))).
Proof.
  split; [vm_compute; reflexivity|].
  split; [vm_compute; reflexivity|].
  split; [reflexivity|].
  split; [vm_compute; reflexivity|].
  intros Heq. vm_compute in Heq. discriminate Heq.
Qed.

Lemma lost_race_is_success_without_value_witness :
  ∃ t,
    exec (decryptItemData_resume renderA widgetId (mkContract (Some "0xA11CE"))
            (ByteProvider.byteHandle 42)
            (inr ({[ByteProvider.byteHandle 42 := 42]}, "decryption-proof")))
      ledgerVerified alice
    = (Returned None, ledgerVerified,
       stop_decrypting
         (loadedSession renderA ledgerVerified
            (with_toast alice (success_toast "Data is already verified on-chain") 2000)),
       t)
    ∧ Forall (λ e, is_crypto e = false) t.
Proof.
  apply (lost_race_is_success_without_value handle ledgerVerified alice
           renderA widgetId "0xA11CE" (ByteProvider.byteHandle 42)
           {[ByteProvider.byteHandle 42 := 42]} "decryption-proof"
           ledgerVerified alice (verifiedRecord widget 42));
    reflexivity.
Defined.
End Instances.

Section SingleCaller.
Context {E : Type → Type} {S L R : Type}.
Variable h : ∀ X, E X → S → L → X * S * L.

Lemma run_schedule_single X (e : E X) (k : X → Prog E R) sch g l hst :
  run_schedule h (0%nat :: sch) (mkConfig g [mkThread (Vis e k) l hst])
  = run_schedule h sch
      (mkConfig (h X e g l).1.2
         [mkThread (k (h X e g l).1.1) (h X e g l).2 (hst ++ [ev e (h X e g l).1.1])]).
Proof.
  cbn. by destruct (h X e g l) as [[x g'] l'].
Qed.
End SingleCaller.

Section Suspension.
Import RecordStore App.
Context `{ConfidentialComputeProvider}.

Ltac call_step :=
  cbn [bind perform await try_catch try_finally];
  rewrite run_schedule_single;
  cbn [handle fst snd set_ui ui readOnlyAvailable signerAccount].

(** After six calls, [decryptItemData] on a record that is not yet
    verified has received the provider's answer and is about to submit
    it: what is left to run is [decryptItemData_resume], and the ledger
    has not been written. *)
Lemma decryptItemData_suspends c businessId g l a s r :
  isConnected c = true → address c = Some a → a ≠ "" →
  readOnlyAvailable l = true → signerAccount l = Some s →
  get businessId (store g) = Some r → status r ≠ Verified →
  ∃ l' hst,
    run_schedule handle (replicate 6 0%nat)
      (mkConfig g [mkThread (decryptItemData c businessId) l []])
    = mkConfig g
        [mkThread
           (decryptItemData_resume c businessId (mkContract (Some s))
              (ciphertextHandle r)
              (match requestClearValue [ciphertextHandle r] (contractAddress c) with
               | Some answer => inr answer
               | None => inl (JS.error "DecryptionError")
               end))
           l' hst].
Proof.
  intros Hc Ha Hne Hro Hs Hg Hst.
  unfold decryptItemData. rewrite Hc, Ha. cbn [negb orb not_string].
  apply String.eqb_neq in Hne. rewrite Hne.
  unfold decryptItemData_try, verifyDecryption, mbind, Prog_bind.
  cbn [replicate].
  call_step. call_step. rewrite Hro.
  call_step. unfold contract_getBusinessData. rewrite Hg.
  cbn [bind perform await try_catch try_finally view BusinessData.isVerified].
  rewrite bool_decide_eq_false_2 by done.
  call_step. rewrite Hs.
  call_step. unfold contract_getEncryptedValue. rewrite Hg.
  call_step. cbn [run_schedule].
  unfold decryptItemData_resume, decryptItemData_submit.
  destruct (requestClearValue _ _) as [[values dp]|]; eexists _, _; reflexivity.
Qed.
End Suspension.

Section Schedules.
Context {E : Type → Type} {S L R : Type}.
Variable h : ∀ X, E X → S → L → X * S * L.

(** A run along a schedule is a sequence of steps. *)
Lemma run_schedule_nsteps sch (c : Config (E := E) (S := S) (L := L) R) :
  ∃ k, nsteps (step h) k c (run_schedule h sch c).
Proof.
  revert c. induction sch as [|j sch IH]; intros c; cbn.
  - exists 0%nat. constructor.
  - destruct (step_thread h j c) as [c'|] eqn:Hstep; [|apply IH].
    destruct (IH c') as [k Hk]. exists (Datatypes.S k).
    eapply nsteps_l; [|done]. by exists j.
Qed.
End Schedules.

Section StoreInstances.
Import RecordStore Lifecycle Scenario.

Lemma status_only_moves_forward_witness :
  ∃ r1,
    get widgetId (attempts widgetAttempts storeCreated) = Some r1
    ∧ rank (status widget) ≤ rank (status r1)
    ∧ ∃ e, compareAndSet widgetId (version r1) (λ _, (Created, None))
             (attempts widgetAttempts storeCreated)
           = (inl e, attempts widgetAttempts storeCreated).
Proof.
  destruct (status_only_moves_forward widgetAttempts storeCreated widgetId widget)
    as (r1 & Hg & Hle & _ & Hback); [reflexivity|].
  exists r1. split; [exact Hg|]. split; [exact Hle|].
  apply Hback. left.
  assert (get widgetId (attempts widgetAttempts storeCreated)
          = Some (pendingRecord widget)) as Hp by (vm_compute; reflexivity).
  assert (r1 = pendingRecord widget) as -> by congruence.
  cbn. lia.
Defined.

Lemma stale_version_rejected_witness :
  compareAndSet widgetId 5 toPending storeCreated
  = (inl (VersionConflict widget), storeCreated).
Proof.
  destruct (stale_version_rejected widgetId 5 toPending storeCreated widget)
    as [Hstale _]; [reflexivity|].
  apply Hstale. discriminate.
Defined.


End StoreInstances.

Section RaceInstances.
Import RecordStore App Race Scenario.


End RaceInstances.

(* ===================================================================== *)
(** ** The rest of the component *)
(* ===================================================================== *)

(** *** The statistics panel and the status labels *)

Section ViewFacts.
Import Shell App.

Lemma filter_length_disjoint {A} (p q : A → bool) (l : list A) :
  (∀ x, p x = true → q x = false) →
  (length (List.filter p l) + length (List.filter q l) ≤ length l)%nat.
Proof.
  intros Hpq. induction l as [|x l IH]; [done|]. cbn.
  destruct (p x) eqn:Hp; [rewrite (Hpq x Hp)|destruct (q x)]; cbn; lia.
Qed.

Lemma filter_ext_length {A} (p q : A → bool) (l : list A) :
  (∀ x, p x = q x) → length (List.filter p l) = length (List.filter q l).
Proof. intros Hpq. by rewrite (List.filter_ext p q Hpq). Qed.

Lemma statusLabel_cases publicValue1 :
  statusLabel publicValue1 =
  if publicValue1 =? 1 then "Manufactured"
  else if publicValue1 =? 2 then "In Transit"
  else if publicValue1 =? 3 then "Delivered"
  else "Unknown".
Proof.
  unfold statusLabel, statusLabels.
  destruct (Z.eqb_spec publicValue1 1) as [->|H1]; [reflexivity|].
  rewrite lookup_insert_ne by done.
  destruct (Z.eqb_spec publicValue1 2) as [->|H2]; [reflexivity|].
  rewrite lookup_insert_ne by done.
  destruct (Z.eqb_spec publicValue1 3) as [->|H3]; [reflexivity|].
  rewrite lookup_singleton_ne by done. reflexivity.
Qed.

(** X1: the panel counts what the cards show.  The In Transit and
    Delivered counters are the numbers of items whose card carries that
    label; no item is counted in both, and no counter exceeds the number
    of items. *)
Theorem stats_count_the_labels items :
  let stats := getSupplyChainStats items in
  inTransit stats
  = length (List.filter
              (λ item, String.eqb (statusLabel (SupplyChainItem.publicValue1 item))
                         "In Transit") items)
  ∧ delivered stats
    = length (List.filter
                (λ item, String.eqb (statusLabel (SupplyChainItem.publicValue1 item))
                           "Delivered") items)
  ∧ (inTransit stats + delivered stats ≤ totalItems stats)%nat
  ∧ (verifiedItems stats ≤ totalItems stats)%nat.
Proof.
  cbn. split; [|split; [|split]].
  - apply filter_ext_length. intros item. rewrite statusLabel_cases.
    generalize (SupplyChainItem.publicValue1 item). intros pv.
    destruct (Z.eqb_spec pv 1) as [->|?]; try reflexivity.
    destruct (Z.eqb_spec pv 2) as [->|?]; try reflexivity.
    destruct (Z.eqb_spec pv 3) as [->|?]; reflexivity.
  - apply filter_ext_length. intros item. rewrite statusLabel_cases.
    generalize (SupplyChainItem.publicValue1 item). intros pv.
    destruct (Z.eqb_spec pv 1) as [->|?]; try reflexivity.
    destruct (Z.eqb_spec pv 2) as [->|?]; try reflexivity.
    destruct (Z.eqb_spec pv 3) as [->|?]; reflexivity.
  - apply filter_length_disjoint. intros x Hx. lia.
  - apply List.filter_length_le.
Qed.

(** X2: an item created with a status of the form shows, once loaded,
    the label of that status, and a status the form does not offer shows
    as Delivered; the label is Unknown exactly for a tag other than 1, 2
    and 3. *)
Theorem created_status_label businessId businessData status :
  BusinessData.publicValue1 businessData = statusCode status →
  statusLabel (SupplyChainItem.publicValue1 (toItem businessId businessData))
  = (if String.eqb status "manufactured" then "Manufactured"
     else if String.eqb status "in_transit" then "In Transit"
     else "Delivered")
  ∧ ∀ publicValue1,
      statusLabel publicValue1 = "Unknown"
      ↔ publicValue1 ≠ 1 ∧ publicValue1 ≠ 2 ∧ publicValue1 ≠ 3.
Proof.
  intros Hpv. split.
  - cbn [toItem SupplyChainItem.publicValue1]. rewrite Hpv. unfold statusCode.
    destruct (String.eqb status "manufactured"); [reflexivity|].
    destruct (String.eqb status "in_transit"); reflexivity.
  - intros pv. rewrite statusLabel_cases.
    destruct (Z.eqb_spec pv 1) as [->|?]; [split; [discriminate | lia]|].
    destruct (Z.eqb_spec pv 2) as [->|?]; [split; [discriminate | lia]|].
    destruct (Z.eqb_spec pv 3) as [->|?]; [split; [discriminate | lia]|].
    done.
Qed.
End ViewFacts.

(** *** The form of the create modal *)

Section FormFacts.
Import JS Shell App.

Lemma decimal_from_acc s a :
  decimal_from a s = a * 10 ^ Z.of_nat (String.length s) + decimal s.
Proof.
  unfold decimal. revert a.
  induction s as [|c s IH]; intros a.
  - cbn. lia.
  - cbn [decimal_from String.length].
    rewrite IH, (IH (0 * 10 + _)).
    rewrite Nat2Z.inj_succ, Z.pow_succ_r by lia. lia.
Qed.

Lemma digit_value_10 c :
  is_digit c = true →
  digit_value 10 c = Some (Z.of_N (N_of_ascii c) - 48)
  ∧ 0 ≤ Z.of_N (N_of_ascii c) - 48 ≤ 9.
Proof.
  unfold digit_value, is_digit. cbn zeta. intros Hc. rewrite Hc.
  apply andb_prop in Hc as [H1%Z.leb_le H2%Z.leb_le].
  split; [|lia].
  destruct (Z.ltb_spec (Z.of_N (N_of_ascii c) - 48) 10); [done | lia].
Qed.

Lemma decimal_bounds s :
  all_digits s = true → 0 ≤ decimal s < 10 ^ Z.of_nat (String.length s).
Proof.
  induction s as [|c s IH]; intros Hs.
  - cbn. lia.
  - cbn in Hs. apply andb_prop in Hs as [Hc Hs].
    specialize (IH Hs). apply digit_value_10 in Hc as [_ Hc].
    unfold decimal. cbn [decimal_from String.length].
    rewrite decimal_from_acc.
    rewrite Nat2Z.inj_succ, Z.pow_succ_r by lia. nia.
Qed.

Lemma parse_digits_decimal s a :
  all_digits s = true →
  parse_digits 10 s (Some a) = Some (decimal_from a s).
Proof.
  revert a. induction s as [|c s IH]; intros a Hs; [done|].
  cbn in Hs. apply andb_prop in Hs as [Hc Hs].
  cbn [parse_digits decimal_from].
  destruct (digit_value_10 c Hc) as [-> _].
  by rewrite IH.
Qed.

Lemma parseInt_decimal s :
  all_digits s = true → s ≠ "" → parseInt s = Num (round53 (decimal s)).
Proof.
  intros Hs Hne. rewrite parseInt_digits by done.
  destruct s as [|c s]; [done|].
  cbn in Hs. apply andb_prop in Hs as [Hc Hs].
  unfold decimal. cbn [parse_digits decimal_from].
  destruct (digit_value_10 c Hc) as [-> _].
  by rewrite parse_digits_decimal.
Qed.

Lemma strip_non_digits_digits s :
  all_digits s = true → strip_non_digits s = s.
Proof.
  induction s as [|c s IH]; [done|]. cbn. intros [Hc Hs]%andb_prop.
  rewrite Hc. f_equal. by apply IH.
Qed.

(** X3: the submit button and the value field.  With no digit typed the
    button is disabled; when it is enabled and at most 15 digits were
    typed, the value that [createSupplyChainItem] hands to [encrypt] is
    the number the typed digits denote. *)
Theorem enabled_submit_encrypts_typed_digits creating isEncrypting d typed :
  let itemData := handleChange d "value" typed in
  let digits := strip_non_digits typed in
  (digits = "" → submitDisabled creating isEncrypting itemData = true)
  ∧ (submitDisabled creating isEncrypting itemData = false →
     (String.length digits ≤ 15)%nat →
     itemValueOf itemData = decimal digits).
Proof.
  cbn zeta. unfold submitDisabled, itemValueOf.
  change (NewItemData.value (handleChange d "value" typed))
    with (strip_non_digits typed).
  split.
  - intros ->. cbn. by rewrite !orb_true_r.
  - intros Hen.
    apply orb_false_elim in Hen as [_ Hv]. apply String.eqb_neq in Hv.
    pose proof (strip_non_digits_all typed) as Hall.
    intros Hlen. rewrite parseInt_decimal by done. cbn [or0].
    apply round53_exact.
    pose proof (decimal_bounds _ Hall) as Hb.
    assert (10 ^ Z.of_nat (String.length (strip_non_digits typed)) ≤ 10 ^ 15).
    { apply Z.pow_le_mono_r; lia. }
    assert (10 ^ 15 < 2 ^ 53) by (vm_compute; reflexivity). lia.
Qed.

(** X4: typing in the form.  What the value field keeps holds digits
    only, a text of digits is kept as typed, typing the kept text again
    changes nothing, and the other fields are left as they were; the
    name, the description and the status keep any text as typed. *)
Theorem handleChange_filters_value_only d typed :
  let d' := handleChange d "value" typed in
  all_digits (NewItemData.value d') = true
  ∧ (all_digits typed = true → NewItemData.value d' = typed)
  ∧ handleChange d' "value" (NewItemData.value d') = d'
  ∧ NewItemData.name d' = NewItemData.name d
  ∧ NewItemData.description d' = NewItemData.description d
  ∧ NewItemData.location d' = NewItemData.location d
  ∧ NewItemData.status d' = NewItemData.status d
  ∧ NewItemData.name (handleChange d "name" typed) = typed
  ∧ NewItemData.description (handleChange d "description" typed) = typed
  ∧ NewItemData.status (handleChange d "status" typed) = typed.
Proof.
  cbn zeta.
  change (NewItemData.value (handleChange d "value" typed))
    with (strip_non_digits typed).
  split; [apply strip_non_digits_all|].
  split; [apply strip_non_digits_digits|].
  split; [|done].
  unfold handleChange. cbn.
  by rewrite (strip_non_digits_digits _ (strip_non_digits_all typed)).
Qed.
End FormFacts.

(** *** The filter of the item list *)

Section FilterFacts.
Import JS Shell App.
Variable toLowerCase : string → string.

Lemma filter_filter {A} (p q : A → bool) (l : list A) :
  List.filter p (List.filter q l) = List.filter (λ x, q x && p x) l.
Proof.
  induction l as [|x l IH]; [done|]. cbn.
  destruct (q x); cbn; [destruct (p x)|]; by rewrite IH.
Qed.

Lemma filter_sublist {A} (p : A → bool) (l : list A) :
  sublist (List.filter p l) l.
Proof.
  induction l as [|x l IH]; [constructor|]. cbn.
  destruct (p x); by constructor.
Qed.

Lemma filter_all {A} (p : A → bool) (l : list A) :
  (∀ x, p x = true) → List.filter p l = l.
Proof.
  intros Hp. induction l as [|x l IH]; [done|]. cbn. by rewrite Hp, IH.
Qed.

Lemma filter_none {A} (p : A → bool) (l : list A) :
  (∀ x, p x = false) → List.filter p l = [].
Proof.
  intros Hp. induction l as [|x l IH]; [done|]. cbn. by rewrite Hp, IH.
Qed.

Lemma includes_empty s : includes s "" = true.
Proof. destruct s; reflexivity. Qed.

(** X5: the filtered list keeps the items in the order of the full list
    and only drops some; a filter that is none of "all", "verified" and
    "unverified" drops every item; and, the lower case of the empty
    string being empty, an empty search with the filter "all" keeps
    every item. *)
Theorem filteredItems_keeps_order items searchTerm filterStatus :
  sublist (filteredItems toLowerCase items searchTerm filterStatus) items
  ∧ (filterStatus ≠ "all" → filterStatus ≠ "verified" →
     filterStatus ≠ "unverified" →
     filteredItems toLowerCase items searchTerm filterStatus = [])
  ∧ (toLowerCase "" = "" → filteredItems toLowerCase items "" "all" = items).
Proof.
  split; [apply filter_sublist|]. split.
  - intros H1%String.eqb_neq H2%String.eqb_neq H3%String.eqb_neq.
    apply filter_none. intros item. unfold matchesFilter.
    rewrite H1, H2, H3. cbn. apply andb_false_r.
  - intros Hl. apply filter_all. intros item.
    unfold matchesSearch, matchesFilter. rewrite Hl, !includes_empty. reflexivity.
Qed.

(** X6: the filters "verified" and "unverified" split what the filter
    "all" shows for the same search: the first keeps the verified items
    of it and the second the others, each in order, so that every item
    of "all" is in exactly one of the two; a card of the first shows the
    decrypted value and a card of the second shows none. *)
Theorem verified_filters_split_all items searchTerm :
  let all := filteredItems toLowerCase items searchTerm "all" in
  let verified := filteredItems toLowerCase items searchTerm "verified" in
  let unverified := filteredItems toLowerCase items searchTerm "unverified" in
  verified = List.filter SupplyChainItem.isVerified all
  ∧ unverified = List.filter (λ item, negb (SupplyChainItem.isVerified item)) all
  ∧ (length verified + length unverified = length all)%nat
  ∧ Forall (λ item, cardValue item = Some (SupplyChainItem.decryptedValue item))
      verified
  ∧ Forall (λ item, cardValue item = None) unverified.
Proof.
  cbn zeta. unfold filteredItems.
  assert (List.filter
            (λ item, matchesSearch toLowerCase searchTerm item
                     && matchesFilter "verified" item) items
          = List.filter SupplyChainItem.isVerified
              (List.filter
                 (λ item, matchesSearch toLowerCase searchTerm item
                          && matchesFilter "all" item) items)) as Hv.
  { rewrite filter_filter. apply List.filter_ext. intros item.
    unfold matchesFilter.
    by destruct (matchesSearch toLowerCase searchTerm item),
         (SupplyChainItem.isVerified item). }
  assert (List.filter
            (λ item, matchesSearch toLowerCase searchTerm item
                     && matchesFilter "unverified" item) items
          = List.filter (λ item, negb (SupplyChainItem.isVerified item))
              (List.filter
                 (λ item, matchesSearch toLowerCase searchTerm item
                          && matchesFilter "all" item) items)) as Hu.
  { rewrite filter_filter. apply List.filter_ext. intros item.
    unfold matchesFilter.
    by destruct (matchesSearch toLowerCase searchTerm item),
         (SupplyChainItem.isVerified item). }
  split; [exact Hv|]. split; [exact Hu|]. rewrite Hv, Hu. split.
  - generalize (List.filter
                  (λ item, matchesSearch toLowerCase searchTerm item
                           && matchesFilter "all" item) items).
    intros l. induction l as [|x l IH]; [done|]. cbn.
    destruct (SupplyChainItem.isVerified x); cbn; lia.
  - split; apply Forall_forall; intros item Hin;
      apply list_elem_of_In, List.filter_In in Hin as [_ Hin];
      unfold cardValue; by destruct (SupplyChainItem.isVerified item).
Qed.
End FilterFacts.

(** *** The three functions of the dashboard, whatever the environment
    answers *)

Section AppTraces.
Import JS Shell App.
Context {S L : Type}.
Variable h : ∀ X, App.Call X → S → L → X * S * L.

(** One call answered by the environment, with a case for each kind of
    answer. *)
Ltac env_go :=
  cbn [bind perform await run try_catch try_finally JS.nullish JS.error];
  match goal with
  | |- context [h ?X ?e ?s ?l] =>
      let x := fresh "x" in let s' := fresh "s" in let l' := fresh "l" in
      destruct (h X e s l) as [[x s'] l'];
      match type of x with
      | unit => destruct x
      | sum _ _ => destruct x as [?err|?]
      | option _ => destruct x as [?|]
      | _ => idtac
      end
  end;
  cbn [bind perform await run try_catch try_finally JS.nullish JS.error].

(** A caught value is [undefined] or [null], or it is not. *)
Ltac err_go :=
  match goal with
  | |- context [nullish ?e] => is_var e; destruct e as [?m|]; cbn [nullish]
  end.

Ltac pair_go :=
  match goal with
  | p : (_ * _)%type |- _ => destruct p
  end.

Ltac if_go :=
  match goal with
  | |- context [run h (if ?b then _ else _)] => destruct b eqn:?
  | |- context [run h (try_finally (if ?b then _ else _) _)] => destruct b eqn:?
  | |- context [run h (try_finally (try_catch (if ?b then _ else _) _) _)] =>
      destruct b eqn:?
  end.

Ltac load_go :=
  match goal with
  | |- context [run h (loadSupplyChainData ?c) ?s ?l] =>
      let tl := fresh "tl" in let Hl := fresh "Hload" in
      destruct (run_loadSupplyChainData_calls h c s l) as (? & ? & tl & -> & Hl)
  | |- context [run h (bind (loadSupplyChainData _) _)] => rewrite run_bind
  | |- context [run h (try_catch _ _)] => rewrite run_try_catch
  | |- context [run h (try_finally _ _)] => rewrite run_try_finally
  end.

Ltac go := repeat first [env_go | pair_go | err_go | if_go | load_go].

(** A run that rejected did so on a call rejected with [undefined] or
    [null]. *)
Ltac only_type_error :=
  intros ? Hthrown; first
    [ discriminate Hthrown
    | injection Hthrown as <-; split; [reflexivity|];
      repeat first [apply Exists_cons_hd; reflexivity | apply Exists_cons_tl] ].

Ltac here := by repeat first [apply list_elem_of_here | apply list_elem_of_further].

Lemma omap_none {A} (f : @Ev App.Call → option A) t :
  Forall (λ e, f e = None) t → omap f t = [].
Proof.
  induction 1 as [|e t He _ IH]; [done|]. cbn. by rewrite He.
Qed.

Lemma run_loadItems_reads contract businessIds itemsList s l :
  ∃ s' l' t,
    run h (loadItems contract businessIds itemsList) s l
    = (Returned (itemsList ++ omap loaded t), s', l', t)
    ∧ omap dataAsked t = businessIds
    ∧ Forall loopCall t.
Proof.
  revert itemsList s l.
  induction businessIds as [|i rest IH]; intros itemsList s l.
  - exists s, l, []. cbn. by rewrite app_nil_r.
  - cbn [loadItems]. unfold mbind, Prog_bind. rewrite run_bind, run_try_catch.
    env_go.
    + env_go.
      match goal with
      | |- context [run h (loadItems contract rest ?a) ?s ?l] =>
          destruct (IH a s l) as (s' & l' & tl & -> & Hasked & Ht)
      end.
      match goal with |- ∃ _ _ _, (_, _, _, ?tr) = _ ∧ _ => exists s', l', tr end.
      split; [reflexivity|]. split.
      * cbn. by rewrite Hasked.
      * by repeat (constructor; [done|]).
    + match goal with
      | |- context [run h (loadItems contract rest ?a) ?s ?l] =>
          destruct (IH a s l) as (s' & l' & tl & -> & Hasked & Ht)
      end.
      match goal with |- ∃ _ _ _, (_, _, _, ?tr) = _ ∧ _ => exists s', l', tr end.
      split.
      { cbn. by rewrite <- app_assoc. }
      split.
      * cbn. by rewrite Hasked.
      * by repeat (constructor; [done|]).
Qed.

Lemma loadSupplyChainData_trace c s l :
  ∃ s' l' t,
    run h (loadSupplyChainData c) s l = (Returned tt, s', l', t)
    ∧ (∀ businessIds, businessIds ∈ omap idsListed t →
         omap dataAsked t = businessIds
         ∧ omap itemsSet t = [omap loaded t]
         ∧ itemsSet <$> last t = Some (Some (omap loaded t)))
    ∧ (omap idsListed t = [] → omap itemsSet t = [])
    ∧ Forall (λ e, is_write e = false ∧ is_crypto e = false) t
    ∧ omap toastSet t
      = (if existsb idsRejected t then [error_toast "Failed to load data"]
         else [])
    ∧ (existsb idsRejected t = true → omap itemsSet t = [])
    ∧ (isConnected c = false → t = []).
Proof.
  unfold loadSupplyChainData.
  destruct (isConnected c); cbn [negb].
  2:{ exists s, l, []. split; [reflexivity|]. split; [|done].
      intros ids Hids. by apply elem_of_nil in Hids. }
  rewrite run_try_catch. unfold mbind, Prog_bind.
  env_go.
  2:{ eexists _, _, _. split; [reflexivity|]. split.
      { intros ids Hids. cbn in Hids. by apply elem_of_nil in Hids. }
      split; [done|]. split; [by repeat constructor|]. done. }
  env_go.
  - do 2 env_go.
    eexists _, _, _. split; [reflexivity|]. split.
    { intros ids Hids. cbn in Hids. by apply elem_of_nil in Hids. }
    split; [done|]. split; [by repeat constructor|]. done.
  - rewrite run_bind.
    match goal with
    | |- context [run h (loadItems ?c ?ids []) ?s ?l] =>
        destruct (run_loadItems_reads c ids [] s l)
          as (s3 & l3 & t & -> & Hasked & Ht)
    end.
    env_go.
    assert (∀ A (f : @Ev App.Call → option A),
              (∀ e, loopCall e → f e = None) → omap f t = []) as Hquiet.
    { intros A f Hf. apply omap_none.
      eapply Forall_impl; [exact Ht|]. exact Hf. }
    eexists _, _, _. split; [reflexivity|]. split.
    { intros ids Hids. cbn in Hids. rewrite omap_app in Hids. cbn in Hids.
      rewrite (Hquiet _ idsListed) in Hids by (by intros e (? & ? & ?)).
      apply list_elem_of_singleton in Hids as ->.
      cbn. rewrite !omap_app. cbn. rewrite !app_nil_r.
      rewrite (Hquiet _ itemsSet) by (by intros e (? & ? & ?)).
      split; [done|]. split; [done|].
      by rewrite last_cons, last_snoc. }
    split.
    { cbn. rewrite omap_app. cbn.
      rewrite (Hquiet _ idsListed) by (by intros e (? & ? & ?)). done. }
    split.
    { repeat (constructor; [done|]). apply Forall_app_2; [|by repeat constructor].
      eapply Forall_impl; [exact Ht|]. by intros e (? & ? & ? & ? & ? & ?). }
    assert (existsb idsRejected t = false) as Hrej.
    { clear -Ht. induction Ht as [|e t He _ IH]; [done|]. cbn.
      destruct He as (_ & _ & -> & _). done. }
    split.
    { cbn. rewrite omap_app, existsb_app, Hrej. cbn.
      by rewrite (Hquiet _ toastSet) by (by intros e (? & ? & ? & ? & ?)). }
    split; [|done].
    cbn. rewrite existsb_app, Hrej. cbn. done.
Qed.

(** X7: when [getAllBusinessIds] resolves, [loadSupplyChainData] asks
    for every listed id once, in the order of the list, and its last
    call sets the item list to the items of the reads that resolved, in
    that order: a record that cannot be read is left out and hides no
    other.  When the listing did not resolve the item list is not
    set. *)
Theorem loadSupplyChainData_sets_what_it_read c s l :
  ∃ s' l' t,
    run h (loadSupplyChainData c) s l = (Returned tt, s', l', t)
    ∧ (∀ businessIds, businessIds ∈ omap idsListed t →
         omap dataAsked t = businessIds
         ∧ omap itemsSet t = [omap loaded t]
         ∧ itemsSet <$> last t = Some (Some (omap loaded t)))
    ∧ (omap idsListed t = [] → omap itemsSet t = []).
Proof.
  destruct (loadSupplyChainData_trace c s l)
    as (s' & l' & t & Hrun & Hread & Hnone & _).
  by exists s', l', t.
Qed.

(** X8: [loadSupplyChainData] only reads: it submits no transaction and
    makes no provider call.  It shows a status exactly when
    [getAllBusinessIds] is rejected, the status "Failed to load data",
    and then leaves the item list as it was; without a connected wallet
    it makes no call at all. *)
Theorem loadSupplyChainData_only_reads c s l :
  ∃ s' l' t,
    run h (loadSupplyChainData c) s l = (Returned tt, s', l', t)
    ∧ Forall (λ e, is_write e = false ∧ is_crypto e = false) t
    ∧ omap toastSet t
      = (if existsb idsRejected t then [error_toast "Failed to load data"]
         else [])
    ∧ (existsb idsRejected t = true → omap itemsSet t = [])
    ∧ (isConnected c = false → t = []).
Proof.
  destruct (loadSupplyChainData_trace c s l)
    as (s' & l' & t & Hrun & _ & _ & Hro & Htoast & Hrej & Hoff).
  by exists s', l', t.
Qed.

(** What the calls of [loadSupplyChainData] are not. *)
Lemma loadCall_quiet e :
  loadCall e = true →
  decryptingSet e = None ∧ creatingSet e = None ∧ modalSet e = None
  ∧ formSet e = None ∧ accepted e = false ∧ confirmed e = false
  ∧ createFailure e = None ∧ createdFields e = None ∧ clockRead e = None
  ∧ (toastSet e = None ∨ toastSet e = Some (error_toast "Failed to load data")).
Proof.
  destruct e as [X [[] x]]; cbn; intros He; try done;
    repeat (split; [try done|]); auto.
  all: try (right; by apply bool_decide_eq_true in He as ->).
  all: try (by destruct x).
Qed.

Lemma omap_quiet {A} (f : @Ev App.Call → option A) t :
  Forall (λ e, loadCall e = true) t →
  (∀ e, loadCall e = true → f e = None) → omap f t = [].
Proof.
  intros Ht Hf. apply omap_none. eapply Forall_impl; [exact Ht|]. exact Hf.
Qed.

Ltac quiet f :=
  repeat match goal with
  | Hl : Forall (λ e, loadCall e = true) ?tl |- context [omap f ?tl] =>
      rewrite (omap_quiet f tl Hl)
        by (intros ? ?He;
            by apply loadCall_quiet in He as (? & ? & ? & ? & ? & ? & ? & ? & ? & ?))
  end.

Lemma guard_passed c :
  isConnected c = true → not_string (address c) = false →
  negb (isConnected c) || not_string (address c) = false.
Proof. by intros -> ->. Qed.

Lemma decryptItemData_trace c businessId s l :
  isConnected c = true → not_string (address c) = false →
  ∃ o s' l' t,
    run h (decryptItemData c businessId) s l = (o, s', l', t)
    ∧ omap decryptingSet t = [true; false]
    ∧ head t = Some (ev (SetIsDecrypting true) tt)
    ∧ last t = Some (ev (SetIsDecrypting false) tt)
    ∧ onlyTypeError o t
    ∧ ∀ n, o = Returned (Some n) →
        (∃ e businessData,
           e ∈ t ∧ dataRead e = Some (businessId, businessData)
           ∧ BusinessData.isVerified businessData = true
           ∧ n = Num (or0 (Number_of_bigint
                             (BusinessData.decryptedValue businessData))))
        ∨ (∃ e e' encryptedValueHandle values,
             e ∈ t ∧ handleRead e = Some encryptedValueHandle
             ∧ e' ∈ t ∧ cleared e' = Some values
             ∧ existsb accepted t = true
             ∧ n = Number_of_opt (values !! encryptedValueHandle)).
Proof.
  intros Hc Ha. unfold decryptItemData. rewrite (guard_passed c Hc Ha).
  unfold decryptItemData_try, verifyDecryption, decryptItemData_catch,
    mbind, Prog_bind.
  go.
  all: eexists _, _, _, _; (split; [reflexivity|]).
  all: split; [cbn; rewrite ?omap_app; quiet decryptingSet; reflexivity|].
  all: split; [reflexivity|].
  all: split; [rewrite ?last_cons, ?last_app; reflexivity|].
  all: split; [only_type_error|].
  all: intros n Hn; try discriminate Hn.
  all: injection Hn as <-.
  - left. eexists _, _. split; [do 2 apply list_elem_of_further; apply list_elem_of_here|].
    done.
  - right. eexists _, _, _, _.
    split; [do 4 apply list_elem_of_further; apply list_elem_of_here|].
    split; [reflexivity|].
    split; [do 5 apply list_elem_of_further; apply list_elem_of_here|].
    split; [reflexivity|]. done.
Qed.

(** X9: with a connected wallet, [decryptItemData] rejects only with
    the TypeError of its [catch] block, and only when a call was
    rejected with [undefined] or [null]; and it answers a number in two
    cases only: the record it read was verified, and the number is the
    stored decrypted value; or the contract accepted the submitted
    decryption, and the number is what the provider answered for the
    handle of the record ([NaN] if it answered nothing for it).  In
    every other case in which it resolves, the answer is [null]. *)
Theorem decryptItemData_answers_a_number_only_if c businessId s l :
  isConnected c = true → not_string (address c) = false →
  ∃ o s' l' t,
    run h (decryptItemData c businessId) s l = (o, s', l', t)
    ∧ onlyTypeError o t
    ∧ ∀ n, o = Returned (Some n) →
        (∃ e businessData,
           e ∈ t ∧ dataRead e = Some (businessId, businessData)
           ∧ BusinessData.isVerified businessData = true
           ∧ n = Num (or0 (Number_of_bigint
                             (BusinessData.decryptedValue businessData))))
        ∨ (∃ e e' encryptedValueHandle values,
             e ∈ t ∧ handleRead e = Some encryptedValueHandle
             ∧ e' ∈ t ∧ cleared e' = Some values
             ∧ existsb accepted t = true
             ∧ n = Number_of_opt (values !! encryptedValueHandle)).
Proof.
  intros Hc Ha.
  destruct (decryptItemData_trace c businessId s l Hc Ha)
    as (o & s' & l' & t & Hrun & _ & _ & _ & Honly & Hn).
  by exists o, s', l', t.
Qed.

(** X10: the decrypt button of the detail modal.  With a connected
    wallet, whatever the contract, the provider or the SDK answer, the
    first call of [handleDecrypt] sets the decrypting flag, its last
    call clears it, and the flag is set by no other call; this holds
    also when the call rejects, which it does only with the TypeError of
    the [catch] block of [decryptItemData], when a call was rejected
    with [undefined] or [null]. *)
Theorem handleDecrypt_clears_the_flag c selectedItem s l :
  isConnected c = true → not_string (address c) = false →
  ∃ o s' l' t,
    run h (handleDecrypt (decryptData c selectedItem)) s l = (o, s', l', t)
    ∧ omap decryptingSet t = [true; false]
    ∧ head t = Some (ev (SetIsDecrypting true) tt)
    ∧ last t = Some (ev (SetIsDecrypting false) tt)
    ∧ (Forall (λ e, caught e ≠ Some Nullish) t → o = Returned tt)
    ∧ onlyTypeError o t.
Proof.
  intros Hc Ha. unfold handleDecrypt, decryptData, mbind, Prog_bind.
  rewrite run_bind.
  destruct (decryptItemData_trace c (SupplyChainItem.id selectedItem) s l Hc Ha)
    as (o & s' & l' & t & -> & Hset & Hhead & Hlast & Honly & _).
  destruct o as [r|err]; cbn; rewrite ?app_nil_r.
  - eexists _, _, _, _. split; [reflexivity|].
    do 3 (split; [done|]). split; [done|]. intros err Herr. discriminate Herr.
  - eexists _, _, _, _. split; [reflexivity|].
    do 3 (split; [done|]).
    destruct (Honly err eq_refl) as [-> Hex]. split.
    + intros Hall. exfalso. apply Exists_exists in Hex as (e & He & Hn).
      rewrite Forall_forall in Hall. by apply (Hall e He).
    + intros err' Herr'. injection Herr' as <-. done.
Qed.

Lemma createSupplyChainItem_trace c s l :
  isConnected c = true → not_string (address c) = false →
  ∃ o s' l' t,
    run h (createSupplyChainItem c) s l = (o, s', l', t)
    ∧ onlyTypeError o t
    ∧ omap creatingSet t = [true; false]
    ∧ head t = Some (ev (SetCreatingItem true) tt)
    ∧ last t = Some (ev (SetCreatingItem false) tt)
    ∧ omap modalSet t = (if existsb confirmed t then [false] else [])
    ∧ omap formSet t
      = (if existsb confirmed t then [NewItemData.initial] else [])
    ∧ (existsb confirmed t = false →
       ∃ e err,
         e ∈ t ∧ createFailure e = Some err
         ∧ if nullish err
           then o = Thrown typeError
                ∧ Forall (λ shown, TransactionStatus.status shown
                                   ≠ TransactionStatus.error)
                    (omap toastSet t)
           else o = Returned tt
                ∧ last (omap toastSet t)
                  = Some (error_toast (errorMessage err)))
    ∧ (existsb confirmed t = true →
       o = Returned tt
       ∧ success_toast "Supply chain item created successfully!" ∈ omap toastSet t
       ∧ Forall (λ e, createFailure e = None) t)
    ∧ (∀ e fields,
         e ∈ t → createdFields e = Some fields →
         ∃ e' now,
           e' ∈ t ∧ clockRead e' = Some now
           ∧ fields = (businessIdAt now, NewItemData.name (formData c),
                       statusCode (NewItemData.status (formData c)), 0,
                       NewItemData.description (formData c))).
Proof.
  intros Hc Ha. unfold createSupplyChainItem. rewrite (guard_passed c Hc Ha).
  unfold mbind, Prog_bind.
  go.
  all: eexists _, _, _, _; (split; [reflexivity|]).
  all: split; [only_type_error|].
  all: split; [cbn; rewrite ?omap_app; quiet creatingSet; reflexivity|].
  all: split; [reflexivity|].
  all: split; [rewrite ?last_cons, ?last_app; reflexivity|].
  all: split; [cbn; rewrite ?omap_app; quiet modalSet; reflexivity|].
  all: split; [cbn; rewrite ?omap_app; quiet formSet; reflexivity|].
  all: split;
    [intros Hconf; first
       [ discriminate Hconf
       | exists (ev GetContractWithSigner None),
           (error "Failed to get contract with signer");
         split; [here|]; split; [reflexivity|]; split; reflexivity
       | match goal with
         | |- context [ev ?c (@inl Error ?X ?err)] =>
             exists (ev c (@inl Error X err)), err;
             split; [here|]; split; [reflexivity|];
             split; first [reflexivity | by repeat constructor]
         end ]|].
  all: split;
    [intros Hconf; first
       [ discriminate Hconf
       | split; [reflexivity|]; split;
         [ cbn; do 2 apply list_elem_of_further; apply list_elem_of_here
         | repeat (constructor; [reflexivity|]);
           repeat apply Forall_app_2;
           [ eapply Forall_impl; [eassumption|];
             intros ? ?He;
             by apply loadCall_quiet in He as (? & ? & ? & ? & ? & ? & ? & ? & ? & ?)
           | by repeat constructor
           | by repeat constructor ] ] ]|].
  all: intros ev0 fields0 Hev0 Hf0.
  all: repeat (apply elem_of_cons in Hev0 as [->|Hev0];
               [first
                  [ discriminate Hf0
                  | injection Hf0 as <-;
                    match goal with
                    | |- context [ev DateNow ?now] =>
                        exists (ev DateNow now), now;
                        split; [here|]; split; reflexivity
                    end ]|]).
  all: try (by apply elem_of_nil in Hev0).
  rewrite !elem_of_app in Hev0. destruct Hev0 as [[Hev0|Hev0]|Hev0].
  - rewrite Forall_forall in Hload.
    apply Hload, loadCall_quiet in Hev0 as (? & ? & ? & ? & ? & ? & ? & ? & ? & ?).
    congruence.
  - repeat (apply elem_of_cons in Hev0 as [->|Hev0]; [discriminate Hf0|]).
    by apply elem_of_nil in Hev0.
  - repeat (apply elem_of_cons in Hev0 as [->|Hev0]; [discriminate Hf0|]).
    by apply elem_of_nil in Hev0.
Qed.

(** X11: without a connected wallet, or without a caller address,
    [createSupplyChainItem] only shows "Please connect wallet first" and
    schedules its removal: it reads no clock, asks for no contract,
    encrypts nothing and submits nothing. *)
Theorem createSupplyChainItem_without_wallet c s l :
  isConnected c = false ∨ not_string (address c) = true →
  ∃ s' l' t,
    run h (createSupplyChainItem c) s l = (Returned tt, s', l', t)
    ∧ calls t
      = [call (SetTransactionStatus (error_toast "Please connect wallet first"));
         call (SetTimeout TransactionStatus.hidden 3000)].
Proof.
  intros Hw. unfold createSupplyChainItem.
  assert (negb (isConnected c) || not_string (address c) = true) as ->.
  { destruct Hw as [-> | ->]; [done | by rewrite orb_true_r]. }
  unfold mbind, Prog_bind. go. by eexists _, _, _.
Qed.

(** X12: with a connected wallet, the first call of
    [createSupplyChainItem] sets the creating flag, its last call clears
    it, and no other call sets it, also when the call rejects.  The
    modal is closed and the form is emptied exactly when the transaction
    was confirmed; whenever the creation fails, the modal stays open
    with the form as typed.  The call rejects only with the TypeError of
    its [catch] block, when a call was rejected with [undefined] or
    [null]. *)
Theorem createSupplyChainItem_closes_the_form_on_success_only c s l :
  isConnected c = true → not_string (address c) = false →
  ∃ o s' l' t,
    run h (createSupplyChainItem c) s l = (o, s', l', t)
    ∧ onlyTypeError o t
    ∧ omap creatingSet t = [true; false]
    ∧ head t = Some (ev (SetCreatingItem true) tt)
    ∧ last t = Some (ev (SetCreatingItem false) tt)
    ∧ omap modalSet t = (if existsb confirmed t then [false] else [])
    ∧ omap formSet t
      = (if existsb confirmed t then [NewItemData.initial] else []).
Proof.
  intros Hc Ha.
  destruct (createSupplyChainItem_trace c s l Hc Ha)
    as (o & s' & l' & t & Hrun & H0 & H1 & H2 & H3 & H4 & H5 & _).
  by exists o, s', l', t.
Qed.

(** X13: how [createSupplyChainItem] reports its outcome.  When the
    transaction is not confirmed, some call failed (no contract with a
    signer, or a rejection by [encrypt], [createBusinessData] or
    [tx.wait]).  If the failure is a value with a readable message, the
    call resolves and the last status shown is the error status of that
    failure: "Transaction rejected by user" if its message holds "user
    rejected transaction", "Submission failed: " and the message
    otherwise.  If the failure is [undefined] or [null], the [catch]
    block throws: the call rejects with a TypeError and no error status
    is shown.  When the transaction is confirmed, the call resolves,
    none of these calls failed and the success status was shown. *)
Theorem createSupplyChainItem_reports_the_failure c s l :
  isConnected c = true → not_string (address c) = false →
  ∃ o s' l' t,
    run h (createSupplyChainItem c) s l = (o, s', l', t)
    ∧ (existsb confirmed t = false →
       ∃ e err,
         e ∈ t ∧ createFailure e = Some err
         ∧ if nullish err
           then o = Thrown typeError
                ∧ Forall (λ shown, TransactionStatus.status shown
                                   ≠ TransactionStatus.error)
                    (omap toastSet t)
           else o = Returned tt
                ∧ last (omap toastSet t)
                  = Some (error_toast (errorMessage err)))
    ∧ (existsb confirmed t = true →
       o = Returned tt
       ∧ success_toast "Supply chain item created successfully!" ∈ omap toastSet t
       ∧ Forall (λ e, createFailure e = None) t).
Proof.
  intros Hc Ha.
  destruct (createSupplyChainItem_trace c s l Hc Ha)
    as (o & s' & l' & t & Hrun & _ & _ & _ & _ & _ & _ & Hfail & Hok & _).
  by exists o, s', l', t.
Qed.

(** X14: what [createSupplyChainItem] submits besides the encrypted
    value.  The id is "item-" followed by the clock read in the same
    call, so two ids are equal exactly when the two clock readings are;
    the name and the description are those of the form, the first
    public value is the code of the form's status, the second is 0, and
    the location of the form is not submitted.  The call in which this
    happens resolves unless one of its calls is rejected with
    [undefined] or [null]. *)
Theorem createSupplyChainItem_submits_the_form c s l :
  isConnected c = true → not_string (address c) = false →
  (∀ now now', businessIdAt now = businessIdAt now' ↔ now = now')
  ∧ ∃ o s' l' t,
      run h (createSupplyChainItem c) s l = (o, s', l', t)
      ∧ (Forall (λ e, caught e ≠ Some Nullish) t → o = Returned tt)
      ∧ ∀ e fields,
          e ∈ t → createdFields e = Some fields →
          ∃ e' now,
            e' ∈ t ∧ clockRead e' = Some now
            ∧ fields = (businessIdAt now, NewItemData.name (formData c),
                        statusCode (NewItemData.status (formData c)), 0,
                        NewItemData.description (formData c)).
Proof.
  intros Hc Ha. split.
  - intros now now'. split; [|by intros ->]. unfold businessIdAt. intros Heq.
    apply (inj pretty). by apply (inj (String.append "item-")).
  - destruct (createSupplyChainItem_trace c s l Hc Ha)
      as (o & s' & l' & t & Hrun & Honly & _ & _ & _ & _ & _ & _ & _ & Hsub).
    exists o, s', l', t. split; [done|]. split; [|done].
    intros Hall. destruct o as [[]|err]; [done|]. exfalso.
    destruct (Honly err eq_refl) as [_ Hex].
    apply Exists_exists in Hex as (e & He & Hn).
    rewrite Forall_forall in Hall. by apply (Hall e He).
Qed.
End AppTraces.

(** *** The effects and the contract test, whatever the environment
    answers *)

Section ShellTraces.
Import JS App Shell.
Context {S L : Type}.
Variable h : ∀ X, Shell.Call X → S → L → X * S * L.

Ltac shell_go :=
  cbn [bind perform await run try_catch try_finally];
  match goal with
  | |- context [h ?X ?e ?s ?l] =>
      let x := fresh "x" in let s' := fresh "s" in let l' := fresh "l" in
      destruct (h X e s l) as [[x s'] l'];
      match type of x with
      | unit => destruct x
      | sum _ _ => destruct x as [?err|?]
      | option _ => destruct x as [?|]
      | _ => idtac
      end
  end;
  cbn [bind perform await run try_catch try_finally].

(** The calls of a function of [App] are answered as calls of the
    component. *)
Lemma run_lift {R} (p : Prog App.Call R) s l :
  run h (lift p) s l =
  let '(o, s', l', t) := run (E := App.Call) (λ X c, h X (Dash c)) p s l in
  (o, s', l', map lift_ev t).
Proof.
  revert s l. induction p as [r|err|X e k IH]; intros s l; cbn; [done..|].
  destruct (h X (Dash e) s l) as [[x s1] l1]. rewrite IH.
  by destruct (run _ (k x) s1 l1) as [[[o s2] l2] t].
Qed.

Lemma omap_lift {A} (f : @Ev Shell.Call → option A) (t : list (@Ev App.Call)) :
  (∀ e, f (lift_ev e) = None) → omap f (map lift_ev t) = [].
Proof.
  intros Hf. induction t as [|e t IH]; [done|]. cbn. by rewrite Hf.
Qed.

(** X15: [initFhevmAfterConnection] makes no call at all unless the
    wallet is connected and the SDK is neither initialised nor being
    initialised.  Otherwise it sets the initialising flag, calls
    [initialize] once, and clears the flag as its last call whether or
    not [initialize] was rejected; a rejection is logged and shown as
    "FHEVM initialization failed", and is not propagated. *)
Theorem initFhevmAfterConnection_clears_the_flag isConnected isInitialized
    fhevmInitializing s l :
  ∃ s' l' t,
    run h (initFhevmAfterConnection isConnected isInitialized fhevmInitializing)
      s l = (Returned tt, s', l', t)
    ∧ if negb isConnected || isInitialized || fhevmInitializing then t = []
      else
        ∃ answer,
          t = [ev (SetFhevmInitializing true) tt; ev Initialize answer]
              ++ match answer with
                 | inr _ => []
                 | inl error =>
                     [ev (Dash (ConsoleError "FHEVM initialization failed:" error)) tt;
                      ev (Dash (SetTransactionStatus
                                  (error_toast "FHEVM initialization failed"))) tt;
                      ev (Dash (SetTimeout TransactionStatus.hidden 3000)) tt]
                 end
              ++ [ev (SetFhevmInitializing false) tt].
Proof.
  unfold initFhevmAfterConnection.
  destruct (negb isConnected || isInitialized || fhevmInitializing).
  { by exists s, l, []. }
  unfold mbind, Prog_bind. repeat shell_go.
  - eexists _, _, _. split; [reflexivity|]. by eexists (inl _).
  - destruct u. eexists _, _, _. split; [reflexivity|]. by eexists (inr _).
Qed.

(** X16: [testContractAvailability] never rejects, and it reports
    "Contract is available and responsive!" whenever the read-only
    contract is there and [isAvailable] resolves, whatever
    [isAvailable] answers, [false] included; it reports "Contract test
    failed" when there is no contract or when [isAvailable] is
    rejected. *)
Theorem testContractAvailability_ignores_the_answer s l :
  ∃ s' l' t,
    run h testContractAvailability s l = (Returned tt, s', l', t)
    ∧ ((∃ contract isAvailable,
          t = [ev (Dash GetContractReadOnly) (Some contract);
               ev (IsAvailable contract) (inr isAvailable);
               ev (Dash (SetTransactionStatus
                           (success_toast "Contract is available and responsive!")))
                  tt;
               ev (Dash (SetTimeout TransactionStatus.hidden 2000)) tt])
       ∨ (∃ before,
            (before = [ev (Dash GetContractReadOnly) None]
             ∨ ∃ contract err,
                 before = [ev (Dash GetContractReadOnly) (Some contract);
                           ev (IsAvailable contract) (inl err)])
            ∧ t = before
                  ++ [ev (Dash (SetTransactionStatus
                                  (error_toast "Contract test failed"))) tt;
                      ev (Dash (SetTimeout TransactionStatus.hidden 3000)) tt])).
Proof.
  unfold testContractAvailability, mbind, Prog_bind. repeat shell_go.
  all: eexists _, _, _; (split; [reflexivity|]).
  - right. eexists. split; [right; by eexists _, _|]. done.
  - left. by eexists _, _.
  - right. eexists. split; [by left|]. done.
Qed.

(** X17: [loadDataAndContract] never rejects and always ends the
    loading screen: its last call is [setLoading(false)], its only call
    of [setLoading], also when [getAddress] is rejected, and its only
    call when the wallet is not connected.  The contract address is set
    exactly to what [getAddress] answered, and is not set when
    [getAddress] was rejected or there was no contract. *)
Theorem loadDataAndContract_ends_the_loading c s l :
  ∃ s' l' t,
    run h (loadDataAndContract c) s l = (Returned tt, s', l', t)
    ∧ omap loadingSet t = [false]
    ∧ last t = Some (ev (SetLoading false) tt)
    ∧ omap addressSet t = omap addressGot t
    ∧ (isConnected c = false → t = [ev (SetLoading false) tt]).
Proof.
  unfold loadDataAndContract.
  destruct (isConnected c); cbn [negb].
  2:{ shell_go. by eexists _, _, _. }
  unfold mbind, Prog_bind.
  rewrite run_try_finally, run_try_catch, run_bind, run_lift.
  match goal with
  | |- context [run ?hh (loadSupplyChainData c) s l] =>
      destruct (run_loadSupplyChainData_calls hh c s l)
        as (s1 & l1 & tl & -> & _)
  end.
  repeat shell_go.
  all: eexists _, _, _; (split; [reflexivity|]).
  all: cbn; rewrite ?app_nil_r, ?omap_app, !omap_lift by done.
  all: split; [reflexivity|].
  all: split; [rewrite ?last_cons, ?last_app; reflexivity|].
  all: split; [reflexivity|done].
Qed.
End ShellTraces.

(** *** Instances *)

Section ShellInstances.
Import RecordStore Shell App Scenario.

Lemma created_status_label_witness :
  statusLabel
    (SupplyChainItem.publicValue1
       (toItem widgetId (view widget)))
  = "In Transit"
  ∧ ∀ publicValue1,
      statusLabel publicValue1 = "Unknown"
      ↔ publicValue1 ≠ 1 ∧ publicValue1 ≠ 2 ∧ publicValue1 ≠ 3.
Proof.
  apply (created_status_label widgetId (view widget) "in_transit").
  reflexivity.
Defined.

Lemma decryptItemData_answers_a_number_only_if_witness :
  ∃ o g' l' t,
    run handle (decryptItemData renderB widgetId) ledgerVerified bob
    = (o, g', l', t)
    ∧ onlyTypeError o t.
Proof.
  destruct (decryptItemData_answers_a_number_only_if handle renderB widgetId
              ledgerVerified bob eq_refl eq_refl)
    as (o & g' & l' & t & Hrun & Honly & _).
  by exists o, g', l', t.
Defined.

Lemma handleDecrypt_clears_the_flag_witness :
  ∃ o g' l' t,
    run handle
      (handleDecrypt (decryptData renderB (toItem widgetId (view widget))))
      ledgerCreated bob
    = (o, g', l', t)
    ∧ omap decryptingSet t = [true; false]
    ∧ head t = Some (ev (SetIsDecrypting true) tt)
    ∧ last t = Some (ev (SetIsDecrypting false) tt)
    ∧ (Forall (λ e, caught e ≠ Some JS.Nullish) t → o = Returned tt)
    ∧ onlyTypeError o t.
Proof.
  apply (handleDecrypt_clears_the_flag handle renderB
           (toItem widgetId (view widget)) ledgerCreated bob);
    reflexivity.
Defined.

Lemma createSupplyChainItem_without_wallet_witness :
  ∃ g' l' t,
    run handle (createSupplyChainItem renderOff) ledger0 alice
    = (Returned tt, g', l', t)
    ∧ calls t
      = [call (SetTransactionStatus (error_toast "Please connect wallet first"));
         call (SetTimeout TransactionStatus.hidden 3000)].
Proof.
  apply (createSupplyChainItem_without_wallet handle renderOff ledger0 alice).
  left. reflexivity.
Defined.

Lemma createSupplyChainItem_closes_the_form_on_success_only_witness :
  ∃ o g' l' t,
    run handle (createSupplyChainItem renderA) ledger0 alice
    = (o, g', l', t)
    ∧ onlyTypeError o t
    ∧ omap creatingSet t = [true; false]
    ∧ head t = Some (ev (SetCreatingItem true) tt)
    ∧ last t = Some (ev (SetCreatingItem false) tt)
    ∧ omap modalSet t = (if existsb confirmed t then [false] else [])
    ∧ omap formSet t
      = (if existsb confirmed t then [NewItemData.initial] else []).
Proof.
  apply (createSupplyChainItem_closes_the_form_on_success_only handle renderA
           ledger0 alice);
    reflexivity.
Defined.

Lemma createSupplyChainItem_reports_the_failure_witness :
  ∃ o g' l' t,
    run handle (createSupplyChainItem renderA) ledger0 alice
    = (o, g', l', t)
    ∧ (existsb confirmed t = true →
       o = Returned tt
       ∧ success_toast "Supply chain item created successfully!" ∈ omap toastSet t
       ∧ Forall (λ e, createFailure e = None) t).
Proof.
  destruct (createSupplyChainItem_reports_the_failure handle renderA ledger0
              alice eq_refl eq_refl)
    as (o & g' & l' & t & Hrun & _ & Hok).
  by exists o, g', l', t.
Defined.

Lemma createSupplyChainItem_submits_the_form_witness :
  ∃ o g' l' t,
    run handle (createSupplyChainItem renderA) ledger0 alice
    = (o, g', l', t)
    ∧ (Forall (λ e, caught e ≠ Some JS.Nullish) t → o = Returned tt)
    ∧ ∀ e fields,
        e ∈ t → createdFields e = Some fields →
        ∃ e' now,
          e' ∈ t ∧ clockRead e' = Some now
          ∧ fields = (businessIdAt now, "Widget", 2, 0, "a widget").
Proof.
  apply (createSupplyChainItem_submits_the_form handle renderA ledger0 alice);
    reflexivity.
Defined.
End ShellInstances.
